(** * ctf-test-gen: a shallow embedding of the two scripts

    - [generate_binaries.py] (challenge generator): flag generation,
      placeholder substitution, per-job build orchestration, top-level driver;
    - [generate_docker_compose.py] (compose packager): manifest normalisation,
      build-context preparation, recipe and compose descriptor.

    Modelling conventions.
    - A Python [str] is the list of its Unicode code points, a [bytes] object
      the list of its byte values; both are lists of [Z].
    - Python exceptions are values of [exn]; a computation is a function from
      the world (file system, working directory, random tape, standard
      output) to a result and a new world.
    - The file system is a finite map from absolute, normalised paths to
      nodes.  Symbolic links and I/O failures of the operating system are
      outside the model; floating-point JSON numbers are not represented.
    - Of the permission bits the model follows the owner's read and write
      bits where a file is copied, since a copy takes the mode of its source:
      the process owns the files and is not the superuser.  The files the
      scripts create themselves are writable. *)

From Stdlib Require Import ZArith List Strings.String Strings.Ascii Lia Bool.
From Stdlib Require Import Numbers.DecimalString Numbers.HexadecimalString.
From stdpp Require Import base option list gmap.
From Equations Require Import Equations.
From Stdlib Require DecimalPos DecimalZ.

Local Open Scope Z_scope.
Set Warnings "-register-all,-clear-no-such-hyp".

(** ** Python values: [str], [bytes], [int] *)

Abbreviation str := (list Z).
Abbreviation bytes := (list Z).

Module Py.

(** A literal of the source, as code points. *)
Definition lit (s : string) : str :=
  map (fun a => Z.of_N (N_of_ascii a)) (list_ascii_of_string s).

Section Seq.
Context {A : Type} `{EqDecision A}.

(** [s.startswith(p)] *)
Fixpoint startswith (p s : list A) : bool :=
  match p, s with
  | [], _ => true
  | _ :: _, [] => false
  | a :: p', b :: s' => bool_decide (a = b) && startswith p' s'
  end.

(** [sub in s] *)
Fixpoint contains (sub s : list A) : bool :=
  startswith sub s ||
  match s with
  | [] => false
  | _ :: t => contains sub t
  end.

(** The scan of [s.replace(old, new)] for a non-empty [old]: leftmost match
    first, matches never overlap, the scan resumes after the replaced
    occurrence. *)
Equations replace_scan (old new s : list A) : list A by wf (length s) lt :=
  replace_scan old new [] := [];
  replace_scan old new (c :: t) with startswith old (c :: t) := {
    | true := new ++ replace_scan old new (drop (length old - 1) t);
    | false := c :: replace_scan old new t }.
Next Obligation. intros; rewrite length_drop; simpl; lia. Qed.

(** [s.replace(old, new)]; an empty [old] matches before every character and
    at the end. *)
Definition replace (old new s : list A) : list A :=
  match old with
  | [] => new ++ flat_map (fun c => c :: new) s
  | _ :: _ => replace_scan old new s
  end.

End Seq.

(** *** Text codecs *)

(** UTF-8 encoding of one code point; [None] is [UnicodeEncodeError]
    (a surrogate, or a value that is no code point). *)
Definition utf8_encode_char (c : Z) : option bytes :=
  if c <? 0 then None
  else if c <? 0x80 then Some [c]
  else if c <? 0x800 then
    Some [Z.lor 0xC0 (Z.shiftr c 6); Z.lor 0x80 (Z.land c 0x3F)]
  else if c <? 0x10000 then
    if (0xD800 <=? c) && (c <=? 0xDFFF) then None
    else Some [Z.lor 0xE0 (Z.shiftr c 12);
               Z.lor 0x80 (Z.land (Z.shiftr c 6) 0x3F);
               Z.lor 0x80 (Z.land c 0x3F)]
  else if c <? 0x110000 then
    Some [Z.lor 0xF0 (Z.shiftr c 18);
          Z.lor 0x80 (Z.land (Z.shiftr c 12) 0x3F);
          Z.lor 0x80 (Z.land (Z.shiftr c 6) 0x3F);
          Z.lor 0x80 (Z.land c 0x3F)]
  else None.

(** [s.encode('utf-8')] *)
Fixpoint utf8_encode (s : str) : option bytes :=
  match s with
  | [] => Some []
  | c :: t =>
      match utf8_encode_char c, utf8_encode t with
      | Some b, Some bs => Some (b ++ bs)
      | _, _ => None
      end
  end.

Definition is_cont (b : Z) : bool := (0x80 <=? b) && (b <=? 0xBF).
Definition cont_bits (b : Z) : Z := Z.land b 0x3F.

(** [b.decode('utf-8')], strict: [None] is [UnicodeDecodeError]. *)
Fixpoint utf8_decode (b : bytes) : option str :=
  match b with
  | [] => Some []
  | b0 :: r =>
      if (0 <=? b0) && (b0 <? 0x80) then cons b0 <$> utf8_decode r
      else if (0xC2 <=? b0) && (b0 <=? 0xDF) then
        match r with
        | b1 :: r1 =>
            if is_cont b1 then
              cons (Z.lor (Z.shiftl (Z.land b0 0x1F) 6) (cont_bits b1))
                <$> utf8_decode r1
            else None
        | _ => None
        end
      else if (0xE0 <=? b0) && (b0 <=? 0xEF) then
        match r with
        | b1 :: b2 :: r2 =>
            let c := Z.lor (Z.shiftl (Z.land b0 0x0F) 12)
                       (Z.lor (Z.shiftl (cont_bits b1) 6) (cont_bits b2)) in
            if is_cont b1 && is_cont b2 && (0x800 <=? c)
               && negb ((0xD800 <=? c) && (c <=? 0xDFFF))
            then cons c <$> utf8_decode r2 else None
        | _ => None
        end
      else if (0xF0 <=? b0) && (b0 <=? 0xF4) then
        match r with
        | b1 :: b2 :: b3 :: r3 =>
            let c := Z.lor (Z.shiftl (Z.land b0 0x07) 18)
                       (Z.lor (Z.shiftl (cont_bits b1) 12)
                          (Z.lor (Z.shiftl (cont_bits b2) 6) (cont_bits b3))) in
            if is_cont b1 && is_cont b2 && is_cont b3
               && (0x10000 <=? c) && (c <? 0x110000)
            then cons c <$> utf8_decode r3 else None
        | _ => None
        end
      else None
  end.

(** Reading in text mode translates "\r\n" and a lone "\r" to "\n". *)
Fixpoint universal_newlines (s : str) : str :=
  match s with
  | [] => []
  | 13 :: t =>
      10 :: match t with
            | 10 :: t' => universal_newlines t'
            | _ => universal_newlines t
            end
  | c :: t => c :: universal_newlines t
  end.

(** *** Formatting *)

(** [str(n)] for an [int]. *)
Definition str_of_int (n : Z) : str :=
  lit (DecimalString.NilZero.string_of_int (Z.to_int n)).

(** ['{:x}'.format(n)] (lower-case digits, a minus sign when negative). *)
Definition format_x (n : Z) : str :=
  let digits :=
    lit (HexadecimalString.NilZero.string_of_uint (N.to_hex_uint (Z.to_N (Z.abs n)))) in
  if n <? 0 then lit "-" ++ digits else digits.

(** ['{:02x}'.format(n)]: sign-aware zero padding to width 2. *)
Definition format_02x (n : Z) : str :=
  let s := format_x n in
  if (length s <? 2)%nat then lit "0" ++ s else s.

(** ASCII white space, as [str.strip] removes it. *)
Definition is_space (c : Z) : bool :=
  bool_decide (c = 32) || ((9 <=? c) && (c <=? 13)).

Fixpoint lstrip (s : str) : str :=
  match s with
  | c :: t => if is_space c then lstrip t else s
  | [] => []
  end.

Definition rstrip (s : str) : str := rev (lstrip (rev s)).
Definition strip (s : str) : str := rstrip (lstrip s).

(** *** Ordering and searching *)

(** [a <= b] on [str]: lexicographic on code points. *)
Fixpoint str_leb (a b : str) : bool :=
  match a, b with
  | [], _ => true
  | _ :: _, [] => false
  | x :: a', y :: b' => (x <? y) || (bool_decide (x = y) && str_leb a' b')
  end.

Section Sorted.
Context {A : Type} (key : A -> str).

Fixpoint insert_sorted (x : A) (l : list A) : list A :=
  match l with
  | [] => [x]
  | y :: l' => if str_leb (key x) (key y) then x :: l else y :: insert_sorted x l'
  end.

(** [sorted(l)] by [key]: a stable insertion sort. *)
Definition sorted (l : list A) : list A := foldr insert_sorted [] l.

End Sorted.

(** [s.split(sep)] for a one-character separator. *)
Fixpoint split_on (sep : Z) (s : str) : list str :=
  match s with
  | [] => [[]]
  | c :: t =>
      if bool_decide (c = sep) then [] :: split_on sep t
      else match split_on sep t with
           | w :: ws => (c :: w) :: ws
           | [] => [[c]]
           end
  end.

(** [s.rfind(c)]: the index of the last occurrence, or [-1]. *)
Fixpoint rfind_from (c : Z) (s : str) (i : Z) (found : Z) : Z :=
  match s with
  | [] => found
  | x :: t => rfind_from c t (i + 1) (if bool_decide (x = c) then i else found)
  end.

Definition rfind (c : Z) (s : str) : Z := rfind_from c s 0 (-1).

(** [bytes(l)]: every item must be in [range(256)], else [ValueError]. *)
Definition bytes_of_ints (l : list Z) : option bytes :=
  if forallb (fun b => (0 <=? b) && (b <? 256)) l then Some l else None.

(** [len(x)] as an [int]. *)
Definition len {A} (l : list A) : Z := Z.of_nat (length l).

End Py.


(** ** The interpreter's world: exceptions, files, randomness, output *)

Module Sys.
Import Py.

Inductive exn :=
| SystemExit (msg : str)
| CalledProcessError (returncode : Z)
| FileNotFoundError
| FileExistsError
| NotADirectoryError
| IsADirectoryError
| SameFileError
| PermissionError
| UnicodeDecodeError
| UnicodeEncodeError
| JSONDecodeError
| ValueError
| TypeError
| IndexError
| KeyError
| AttributeError
| Unmodelled.

(** What [except Exception] catches: [SystemExit] derives from
    [BaseException] only.  [Unmodelled] marks a step the model does not
    follow (a ".." component handed to the operating system); no handler
    catches it. *)
Definition is_Exception (e : exn) : bool :=
  match e with
  | SystemExit _ | Unmodelled => false
  | _ => true
  end.

(** The class name, as a traceback or a message shows it. *)
Definition exn_name (e : exn) : str :=
  match e with
  | SystemExit _ => lit "SystemExit"
  | CalledProcessError _ => lit "CalledProcessError"
  | FileNotFoundError => lit "FileNotFoundError"
  | FileExistsError => lit "FileExistsError"
  | NotADirectoryError => lit "NotADirectoryError"
  | IsADirectoryError => lit "IsADirectoryError"
  | SameFileError => lit "SameFileError"
  | PermissionError => lit "PermissionError"
  | UnicodeDecodeError => lit "UnicodeDecodeError"
  | UnicodeEncodeError => lit "UnicodeEncodeError"
  | JSONDecodeError => lit "JSONDecodeError"
  | ValueError => lit "ValueError"
  | TypeError => lit "TypeError"
  | IndexError => lit "IndexError"
  | KeyError => lit "KeyError"
  | AttributeError => lit "AttributeError"
  | Unmodelled => lit "Unmodelled"
  end.

(** Values [json.loads] returns (numbers: integers only). *)
Inductive json :=
| JNull
| JBool (b : bool)
| JInt (n : Z)
| JStr (s : str)
| JArr (items : list json)
| JObj (members : list (str * json)).

(** A [pathlib.Path]: anchored at the root or relative, and its components
    (no empty and no "." component; ".." is kept). *)
Record Path := MkPath { is_absolute : bool; parts : list str }.

Inductive node :=
| File (content : bytes) (mode : Z)
| Dir.

(** One call of [print]. *)
Inductive event :=
| PrintMetadataFailed (meta_path : Path) (e : exn)
| PrintBuilding (out_name tpl_name : str) (cflags difficulty : json)
| PrintBuilt (out_dir : Path) (flag : str) (pad : Z)
| PrintTmpWarning (tmp : Path) (e : exn)
| PrintDockerFailed (tpl_name : str) (e : exn)
| PrintSummary
| PrintResult (r : json)
| PrintWroteContext (p : Path)
| PrintWroteCompose (p : Path)
| PrintToBuild
| PrintToRun.

Record world := MkWorld {
  files : gmap (list str) node;   (* absolute path |-> node *)
  cwd : list str;                 (* the process's working directory *)
  cwd_ok : bool;                  (* false once that directory was removed *)
  tape : nat -> Z;                (* the random source *)
  cursor : nat;                   (* draws consumed so far *)
  stdout : list event             (* printed so far, oldest first *)
}.

Inductive result (A : Type) :=
| Ok (a : A)
| Raise (e : exn).
Arguments Ok {A} a.
Arguments Raise {A} e.

Definition IO (A : Type) : Type := world -> result A * world.

Definition ret {A} (a : A) : IO A := fun w => (Ok a, w).
Definition raise {A} (e : exn) : IO A := fun w => (Raise e, w).
Definition bind {A B} (c : IO A) (k : A -> IO B) : IO B :=
  fun w => match c w with
           | (Ok a, w') => k a w'
           | (Raise e, w') => (Raise e, w')
           end.

Notation "x <- c1 ;; c2" := (bind c1 (fun x => c2))
  (at level 100, c1 at next level, right associativity).

(** [try: body / except <handles>: handler] *)
Definition try_except {A} (body : IO A) (handles : exn -> bool)
    (handler : exn -> IO A) : IO A :=
  fun w => match body w with
           | (Ok a, w') => (Ok a, w')
           | (Raise e, w') => if handles e then handler e w' else (Raise e, w')
           end.

(** [try: body / finally: cleanup]; an exception of [cleanup] replaces the
    outcome of [body]. *)
Definition try_finally {A} (body : IO A) (cleanup : IO unit) : IO A :=
  fun w => match body w with
           | (r, w') =>
               match cleanup w' with
               | (Ok _, w'') => (r, w'')
               | (Raise e, w'') => (Raise e, w'')
               end
           end.

Definition get_world : IO world := fun w => (Ok w, w).
(** The node at [k] is created or replaced. *)
Definition insert_node (k : list str) (n : node) : IO unit :=
  fun w => (Ok tt, MkWorld (<[k := n]> (files w)) (cwd w) (cwd_ok w) (tape w)
                     (cursor w) (stdout w)).
(** [k] and everything below it goes; removing the working directory, or a
    directory it lies in, leaves the process without one. *)
Definition remove_tree (k : list str) : IO unit :=
  fun w => (Ok tt,
            MkWorld (filter (fun kv => ~ k `prefix_of` kv.1) (files w))
                    (cwd w)
                    (cwd_ok w && negb (bool_decide (k `prefix_of` cwd w)))
                    (tape w) (cursor w) (stdout w)).
Definition print (e : event) : IO unit :=
  fun w => (Ok tt, MkWorld (files w) (cwd w) (cwd_ok w) (tape w) (cursor w)
                     (stdout w ++ [e])).
Definition of_option {A} (o : option A) (e : exn) : IO A :=
  match o with Some a => ret a | None => raise e end.

(** *** The [random] module and [os.urandom] *)

Definition draw : IO Z :=
  fun w => (Ok (tape w (cursor w)),
            MkWorld (files w) (cwd w) (cwd_ok w) (tape w) (S (cursor w)) (stdout w)).

(** A value in [0, n) for [n > 0]. *)
Definition randbelow (n : Z) : IO Z := d <- draw ;; ret (d mod n).

(** [random.randint(a, b)]: [a <= result <= b]; an empty range raises. *)
Definition randint (a b : Z) : IO Z :=
  if b <? a then raise ValueError
  else r <- randbelow (b - a + 1) ;; ret (a + r).

(** [random.choice(seq)] *)
Definition choice {A} (seq : list A) : IO A :=
  match seq with
  | [] => raise IndexError
  | _ :: _ => i <- randbelow (len seq) ;; of_option (seq !! Z.to_nat i) IndexError
  end.

(** [random.choices(population, k=k)] *)
Fixpoint choices {A} (population : list A) (k : nat) : IO (list A) :=
  match k with
  | O => ret []
  | S k' => x <- choice population ;; xs <- choices population k' ;; ret (x :: xs)
  end.

Fixpoint urandom_loop (n : nat) : IO bytes :=
  match n with
  | O => ret []
  | S n' => b <- randbelow 256 ;; bs <- urandom_loop n' ;; ret (b :: bs)
  end.

(** [os.urandom(n)] *)
Definition urandom (n : Z) : IO bytes :=
  if n <? 0 then raise ValueError else urandom_loop (Z.to_nat n).

(** *** [pathlib] *)

Definition dotdot : str := lit "..".

(** [Path(s)] *)
Definition parse_path (s : str) : Path :=
  MkPath (startswith (lit "/") s)
         (filter (fun c => c <> [] /\ c <> lit ".") (split_on 47 s)).

(** [p / q] *)
Definition joinpath (p q : Path) : Path :=
  if is_absolute q then q else MkPath (is_absolute p) (parts p ++ parts q).

(** [str(p)] *)
Definition path_str (p : Path) : str :=
  match parts p with
  | [] => if is_absolute p then lit "/" else lit "."
  | c :: cs =>
      (if is_absolute p then lit "/" else []) ++
      c ++ flat_map (fun x => lit "/" ++ x) cs
  end.

(** [p.name] *)
Definition name (p : Path) : str := List.last (parts p) [].

(** The index of the dot that starts the suffix of a file name, if any. *)
Definition suffix_index (nm : str) : option nat :=
  let i := rfind 46 nm in
  if (0 <? i) && (i <? len nm - 1) then Some (Z.to_nat i) else None.

(** [p.suffix] and [p.stem] *)
Definition suffix (p : Path) : str :=
  match suffix_index (name p) with
  | Some i => drop i (name p)
  | None => []
  end.

Definition stem (p : Path) : str :=
  match suffix_index (name p) with
  | Some i => take i (name p)
  | None => name p
  end.

(** [p.parent] *)
Definition parent (p : Path) : Path :=
  MkPath (is_absolute p) (removelast (parts p)).

(** [p.with_suffix(sfx)] *)
Definition with_suffix (p : Path) (sfx : str) : IO Path :=
  match name p with
  | [] => raise ValueError
  | _ :: _ => ret (MkPath (is_absolute p) (removelast (parts p) ++ [stem p ++ sfx]))
  end.

(** [os.getcwd()] *)
Definition getcwd : IO (list str) :=
  fun w => if cwd_ok w then (Ok (cwd w), w) else (Raise FileNotFoundError, w).

(** Removal of ".." components, as [resolve] does it where no component is a
    symbolic link. *)
Definition normalize (ps : list str) : list str :=
  fold_left (fun acc c => if bool_decide (c = dotdot) then removelast acc
                          else acc ++ [c]) ps [].

(** [p.resolve()] *)
Definition resolve (p : Path) : IO Path :=
  base <- (if is_absolute p then ret [] else getcwd) ;;
  ret (MkPath true (normalize (base ++ parts p))).

(** *** The file system *)

(** The absolute path the operating system follows for [p]. *)
Definition locate (p : Path) : IO (list str) :=
  if bool_decide (dotdot ∈ parts p) then raise Unmodelled
  else if is_absolute p then ret (parts p)
  else base <- getcwd ;; ret (base ++ parts p).

(** The root always exists. *)
Definition lookup_node (f : gmap (list str) node) (k : list str) : option node :=
  match k with
  | [] => Some Dir
  | _ :: _ => f !! k
  end.

Definition stat (p : Path) : IO node :=
  k <- locate p ;;
  w <- get_world ;;
  of_option (lookup_node (files w) k) FileNotFoundError.

Definition handles_FileNotFound (e : exn) : bool :=
  match e with FileNotFoundError => true | _ => false end.

(** [p.exists()], [p.is_file()], [p.is_dir()] *)
Definition exists_ (p : Path) : IO bool :=
  try_except (_ <- stat p ;; ret true) handles_FileNotFound (fun _ => ret false).

Definition is_file (p : Path) : IO bool :=
  try_except (n <- stat p ;; ret (match n with File _ _ => true | Dir => false end))
    handles_FileNotFound (fun _ => ret false).

Definition is_dir (p : Path) : IO bool :=
  try_except (n <- stat p ;; ret (match n with Dir => true | File _ _ => false end))
    handles_FileNotFound (fun _ => ret false).

(** [os.mkdir(p)] *)
Definition os_mkdir (p : Path) : IO unit :=
  k <- locate p ;;
  w <- get_world ;;
  match lookup_node (files w) k with
  | Some _ => raise FileExistsError
  | None =>
      match lookup_node (files w) (removelast k) with
      | None => raise FileNotFoundError
      | Some (File _ _) => raise NotADirectoryError
      | Some Dir => insert_node k Dir
      end
  end.

Definition is_other_OSError (e : exn) : bool :=
  match e with
  | FileExistsError | NotADirectoryError | IsADirectoryError => true
  | _ => false
  end.

(** [p.mkdir(parents=False, exist_ok=exist_ok)] *)
Definition mkdir_one (exist_ok : bool) (p : Path) : IO unit :=
  try_except (os_mkdir p) is_other_OSError
    (fun e => d <- is_dir p ;;
              if negb exist_ok || negb d then raise e else ret tt).

(** [p.mkdir(parents=True, exist_ok=exist_ok)]: the missing ancestors are
    created first; [fuel] bounds the ascent by the number of components. *)
Fixpoint mkdir_parents (fuel : nat) (exist_ok : bool) (p : Path) : IO unit :=
  try_except (mkdir_one exist_ok p) handles_FileNotFound
    (fun e =>
       match fuel, parts p with
       | S fuel', _ :: _ =>
           _ <- mkdir_parents fuel' true (parent p) ;;
           mkdir_one exist_ok p
       | _, _ => raise e
       end).

Definition mkdir (parents exist_ok : bool) (p : Path) : IO unit :=
  if parents then mkdir_parents (length (parts p)) exist_ok p
  else mkdir_one exist_ok p.

(** [shutil.rmtree(p)]: the directory and everything below it. *)
Definition rmtree (p : Path) : IO unit :=
  k <- locate p ;;
  n <- stat p ;;
  match n with
  | File _ _ => raise NotADirectoryError
  | Dir => remove_tree k
  end.

(** Bits of [st_mode]. *)
Definition S_IFREG : Z := 32768.   (* 0o100000 *)
Definition S_IFDIR : Z := 16384.   (* 0o040000 *)
Definition default_file_mode : Z := 420.   (* 0o644 *)
Definition default_dir_mode : Z := 493.    (* 0o755 *)

(** [p.stat().st_mode] *)
Definition st_mode (p : Path) : IO Z :=
  n <- stat p ;;
  ret (match n with
       | File _ m => Z.lor S_IFREG m
       | Dir => Z.lor S_IFDIR default_dir_mode
       end).

(** [p.chmod(mode)] *)
Definition chmod (p : Path) (m : Z) : IO unit :=
  k <- locate p ;;
  n <- stat p ;;
  match n with
  | File c _ => insert_node k (File c (Z.land m 4095))
  | Dir => ret tt
  end.

(** [open(k, 'rb').read()] *)
Definition read_bytes (p : Path) : IO bytes :=
  n <- stat p ;;
  match n with
  | File c _ => ret c
  | Dir => raise IsADirectoryError
  end.

(** [p.read_text(encoding='utf-8')] *)
Definition read_text (p : Path) : IO str :=
  b <- read_bytes p ;;
  s <- of_option (utf8_decode b) UnicodeDecodeError ;;
  ret (universal_newlines s).

(** Opening [k] for writing: the file is created, or keeps its mode;
    [keep] says whether its content stays (append) or goes (truncate). *)
Definition open_write (keep : bool) (k : list str) : IO bytes :=
  w <- get_world ;;
  match lookup_node (files w) k with
  | Some Dir => raise IsADirectoryError
  | Some (File c m) =>
      let c' := if keep then c else [] in
      _ <- insert_node k (File c' m) ;; ret c'
  | None =>
      match lookup_node (files w) (removelast k) with
      | None => raise FileNotFoundError
      | Some (File _ _) => raise NotADirectoryError
      | Some Dir =>
          _ <- insert_node k (File [] default_file_mode) ;; ret []
      end
  end.

(** Replacing the content of the open file [k]. *)
Definition put_content (k : list str) (c : bytes) : IO unit :=
  w <- get_world ;;
  match files w !! k with
  | Some (File _ m) => insert_node k (File c m)
  | _ => raise FileNotFoundError
  end.

(** [p.write_text(s, encoding='utf-8')]: the file is opened (truncated)
    before the text is encoded. *)
Definition write_text (p : Path) (s : str) : IO unit :=
  k <- locate p ;;
  _ <- open_write false k ;;
  b <- of_option (utf8_encode s) UnicodeEncodeError ;;
  put_content k b.

(** [with open(p, 'ab') as f: f.write(b)] *)
Definition append_bytes (p : Path) (b : bytes) : IO unit :=
  k <- locate p ;;
  c <- open_write true k ;;
  put_content k (c ++ b).

(** The owner's permission bits. *)
Definition owner_reads (m : Z) : bool := Z.testbit m 8.    (* 0o400 *)
Definition owner_writes (m : Z) : bool := Z.testbit m 7.   (* 0o200 *)

(** Opening [k] for writing where the file may be a copy that took the mode
    of its source: an existing file needs the owner's write bit. *)
Definition open_owned (keep : bool) (k : list str) : IO bytes :=
  w <- get_world ;;
  match lookup_node (files w) k with
  | Some (File _ m) =>
      if owner_writes m then open_write keep k else raise PermissionError
  | _ => open_write keep k
  end.

(** [shutil.copy2(src, dst)]: content and mode.  The source is opened for
    reading, then the destination for writing. *)
Definition copy2 (src dst : Path) : IO unit :=
  d <- is_dir dst ;;
  let dst := if d then joinpath dst (MkPath false [name src]) else dst in
  ks <- locate src ;;
  kd <- locate dst ;;
  n <- stat src ;;
  if bool_decide (ks = kd) then raise SameFileError
  else match n with
       | Dir => raise IsADirectoryError
       | File c m =>
           if negb (owner_reads m) then raise PermissionError
           else
             _ <- open_owned false kd ;;
             insert_node kd (File c m)
       end.

(** The names directly below the directory [k]. *)
Definition children (f : gmap (list str) node) (k : list str) : list str :=
  omap (fun kv => match drop (length k) kv.1 with
                  | [x] => if bool_decide (k `prefix_of` kv.1) then Some x else None
                  | _ => None
                  end) (map_to_list f).

(** [p.iterdir()] *)
Definition iterdir (p : Path) : IO (list Path) :=
  k <- locate p ;;
  n <- stat p ;;
  match n with
  | File _ _ => raise NotADirectoryError
  | Dir =>
      w <- get_world ;;
      ret (map (fun x => MkPath (is_absolute p) (parts p ++ [x])) (children (files w) k))
  end.

End Sys.

(** ** What the scripts call but do not define *)

Module Ext.
Import Py Sys.

(** How one run of the container build tool ends: the exit status with, on
    success, the content of the final image ([/challenge], when the image has
    it); or the tool could not be started. *)
Inductive docker_outcome :=
| Exited (returncode : Z) (challenge : option bytes)
| NotStarted.

Record env := MkEnv {
  json_loads : str -> option json;      (* [json.loads]; [None]: the text is no JSON *)
  json_dumps : json -> str;             (* [json.dumps(v, indent=2)] *)
  py_repr : json -> str;                (* [str(v)] of a list or a dict *)
  tmpdir : list str;                    (* [tempfile.gettempdir()], absolute *)
  docker : list str -> gmap (list str) node -> docker_outcome
                                        (* the build tool, from its argument
                                           vector and the files it can read *)
}.

End Ext.

(** ** generate_binaries.py *)

Module Gen.
Import Py Sys Ext.

Definition NUM : nat := 4.

Definition DEFAULT_CFLAGS_CHOICES : json :=
  JArr [JStr (lit "-O0 -g"); JStr (lit "-O2"); JStr (lit "-Os");
        JStr (lit "-O3"); JStr (lit "-O1 -s")].

Definition DOCKERFILE : str :=
  lit "
# syntax=docker/dockerfile:1
FROM alpine AS build
RUN apk add --no-cache gcc musl-dev
WORKDIR /src
COPY program.c .
ARG CFLAGS
RUN gcc $CFLAGS -static -o /bin/challenge program.c
FROM scratch
COPY --from=build /bin/challenge /challenge
ENTRYPOINT [" ++ [34] ++ lit "/challenge" ++ [34] ++ lit "]
".

(** [string.ascii_lowercase + string.digits] *)
Definition ascii_lowercase_digits : str :=
  lit "abcdefghijklmnopqrstuvwxyz0123456789".

Definition FLAG_TOKEN : str := lit "{FLAG}".
Definition XOR_ENC_TOKEN : str := lit "{XOR_ENC}".
Definition KEY_TOKEN : str := lit "{KEY}".
Definition RANDOM_INT_TOKEN : str := lit "{RANDOM_INT}".

(** [gen_flag] *)
Definition gen_flag : IO str :=
  body <- choices ascii_lowercase_digits 12 ;;
  ret (lit "flag{" ++ body ++ lit "}").

(** The C escape of a byte string: ["\xab\xcd..."]. *)
Definition escape_bytes (b : bytes) : str :=
  flat_map (fun x => lit "\x" ++ format_02x x) b.

(** [xor_encode_bytes] *)
Definition xor_encode_bytes (s : str) : IO (str * Z) :=
  key <- randint 1 255 ;;
  raw <- of_option (utf8_encode s) UnicodeEncodeError ;;
  enc_bytes <- of_option (bytes_of_ints (map (fun b => Z.lxor b key) raw)) ValueError ;;
  ret (escape_bytes enc_bytes, key).

(** The XOR stage of [prepare_program_from_template] (lines 70-74). *)
Definition subst_xor (program flag : str) : IO str :=
  if contains XOR_ENC_TOKEN program then
    ek <- xor_encode_bytes flag ;;
    let program := replace XOR_ENC_TOKEN ek.1 program in
    ret (replace KEY_TOKEN (str_of_int ek.2) program)
  else ret program.

(** The random-integer stage (lines 76-79). *)
Definition subst_random_int (program : str) : IO str :=
  if contains RANDOM_INT_TOKEN program then
    ri <- randint 1 10000 ;;
    ret (replace RANDOM_INT_TOKEN (str_of_int ri) program)
  else ret program.

(** [prepare_program_from_template] *)
Definition prepare_program_from_template (template_text flag : str) : IO str :=
  let program := replace FLAG_TOKEN flag template_text in
  program <- subst_xor program flag ;;
  subst_random_int program.

(** *** Values read from a metadata file *)

(** [d[k]] when present (first binding), for the members of a dict. *)
Fixpoint assoc (m : list (str * json)) (k : str) : option json :=
  match m with
  | [] => None
  | (k', v) :: m' => if bool_decide (k' = k) then Some v else assoc m' k
  end.

(** [d.get(k, default)]; only a dict has the method. *)
Definition dict_get (d : json) (k : str) (default : json) : IO json :=
  match d with
  | JObj m => ret (match assoc m k with Some v => v | None => default end)
  | _ => raise AttributeError
  end.

(** Truth value of [v]. *)
Definition truthy (v : json) : bool :=
  match v with
  | JNull => false
  | JBool b => b
  | JInt n => negb (n =? 0)
  | JStr s => negb (bool_decide (s = []))
  | JArr l => match l with [] => false | _ => true end
  | JObj m => match m with [] => false | _ => true end
  end.

(** [v] as an [int] ([bool] is a subclass of [int]); [TypeError] otherwise. *)
Definition as_int (v : json) : IO Z :=
  match v with
  | JInt n => ret n
  | JBool b => ret (if b then 1 else 0)
  | _ => raise TypeError
  end.

(** [v > 0] *)
Definition gt_zero (v : json) : IO bool := n <- as_int v ;; ret (0 <? n).

(** [random.choice(v)] *)
Definition choice_json (v : json) : IO json :=
  match v with
  | JArr l => choice l
  | JStr s => c <- choice s ;; ret (JStr [c])
  | JObj [] => raise IndexError
  | JObj (_ :: _ as m) => _ <- randbelow (len m) ;; raise KeyError
  | JNull | JBool _ | JInt _ => raise TypeError
  end.

Section WithEnv.
Context (E : env).

(** [f"{v}"] *)
Definition format_json (v : json) : str :=
  match v with
  | JStr s => s
  | JInt n => str_of_int n
  | JBool true => lit "True"
  | JBool false => lit "False"
  | JNull => lit "None"
  | JArr _ | JObj _ => py_repr E v
  end.

(** *** Template store *)

Definition TEMPLATES_DIR (base : Path) : Path := joinpath base (parse_path (lit "templates")).
Definition OUT_BASE (base : Path) : Path := joinpath base (parse_path (lit "out")).

Fixpoint filter_templates (ps : list Path) : IO (list Path) :=
  match ps with
  | [] => ret []
  | p :: ps' =>
      f <- is_file p ;;
      rest <- filter_templates ps' ;;
      ret (if f && bool_decide (suffix p ∈ [lit ".c"; lit ".txt"]) then p :: rest
           else rest)
  end.

(** [list_templates]; [base] is the module constant [BASE]. *)
Definition list_templates (base : Path) : IO (list Path) :=
  ex <- exists_ (TEMPLATES_DIR base) ;;
  if negb ex then
    raise (SystemExit (lit "Templates directory not found: " ++ path_str (TEMPLATES_DIR base)))
  else
    ps <- iterdir (TEMPLATES_DIR base) ;;
    templates <- filter_templates ps ;;
    ret (sorted name templates).

Definition empty_dict : json := JObj [].

(** [load_metadata] *)
Definition load_metadata (template_path : Path) : IO json :=
  meta_path <- with_suffix template_path (lit ".json") ;;
  ex <- exists_ meta_path ;;
  if ex then
    try_except
      (text <- read_text meta_path ;; of_option (json_loads E text) JSONDecodeError)
      is_Exception
      (fun e => _ <- print (PrintMetadataFailed meta_path e) ;; ret empty_dict)
  else ret empty_dict.

(** *** Build orchestrator *)

(** [tempfile.mkdtemp(prefix=prefix)]: candidate names are tried until one
    is free. *)
Definition TMP_MAX : nat := Z.to_nat 10000.
Definition tmp_name_chars : str := lit "abcdefghijklmnopqrstuvwxyz0123456789_".

Definition handles_FileExists (e : exn) : bool :=
  match e with FileExistsError => true | _ => false end.

Fixpoint mkdtemp_loop (fuel : nat) (dir : Path) (prefix : str) : IO Path :=
  match fuel with
  | O => raise FileExistsError
  | S fuel' =>
      nm <- choices tmp_name_chars 8 ;;
      let file := joinpath dir (MkPath false [prefix ++ nm]) in
      try_except (_ <- os_mkdir file ;; ret file) handles_FileExists
        (fun _ => mkdtemp_loop fuel' dir prefix)
  end.

Definition mkdtemp (prefix : str) : IO Path :=
  mkdtemp_loop TMP_MAX (MkPath true (tmpdir E)) prefix.

(** The record [build_one] writes and returns. *)
Record meta_out := MkMeta {
  template : str;
  flag : str;
  cflags : json;
  pad : Z;
  difficulty : json
}.

Definition meta_json (m : meta_out) : json :=
  JObj [(lit "template", JStr (template m)); (lit "flag", JStr (flag m));
        (lit "cflags", cflags m); (lit "pad", JInt (pad m));
        (lit "difficulty", difficulty m)].

(** What [build_one] has set up when it enters its [try] block. *)
Record job := MkJob {
  cflags_choices : json;
  pad_max : json;
  job_difficulty : json;
  out_dir : Path;
  tmp : Path
}.

Definition bin_path (j : job) : Path := joinpath (out_dir j) (parse_path (lit "challenge")).
Definition meta_path (j : job) : Path := joinpath (out_dir j) (parse_path (lit "meta.json")).

(** Line 89: the per-job output directory, [OUT_BASE / f"{stem}_{idx}"]. *)
Definition job_out_dir (base template_path : Path) (idx : Z) : Path :=
  joinpath (OUT_BASE base) (parse_path (stem template_path ++ lit "_" ++ str_of_int idx)).

(** Line 92: the prefix of the temporary directory's name. *)
Definition tmp_prefix (template_path : Path) (idx : Z) : str :=
  lit "ctx_" ++ stem template_path ++ lit "_" ++ str_of_int idx ++ lit "_".

(** Lines 84-92: metadata, output directory, temporary build context. *)
Definition build_prologue (base template_path : Path) (idx : Z) : IO job :=
  meta <- load_metadata template_path ;;
  cflags_choices <- dict_get meta (lit "cflags") DEFAULT_CFLAGS_CHOICES ;;
  pad_dflt <- dict_get meta (lit "pad") (JInt 1024) ;;
  pad_max <- dict_get meta (lit "pad_max") pad_dflt ;;
  difficulty <- dict_get meta (lit "difficulty") (JStr (lit "unknown")) ;;
  let out_dir := job_out_dir base template_path idx in
  _ <- mkdir true true out_dir ;;
  tmp <- mkdtemp (tmp_prefix template_path idx) ;;
  ret (MkJob cflags_choices pad_max difficulty out_dir tmp).

(** [subprocess.run(cmd, check=True)] for the build: a successful build
    exports the final image's [/challenge] into the output directory. *)
Definition subprocess_run_docker (cmd : list str) (out_resolved : Path) : IO unit :=
  w <- get_world ;;
  match docker E cmd (files w) with
  | NotStarted => raise FileNotFoundError
  | Exited rc challenge =>
      if rc =? 0 then
        match challenge with
        | Some b => insert_node (parts out_resolved ++ [lit "challenge"]) (File b 493)
        | None => ret tt
        end
      else raise (CalledProcessError rc)
  end.

(** Lines 94-109: materialise the sources, select the flags, build. *)
Definition build_stage (template_path : Path) (j : job) : IO (str * json) :=
  tpl_text <- read_text template_path ;;
  flag <- gen_flag ;;
  program_c <- prepare_program_from_template tpl_text flag ;;
  _ <- write_text (joinpath (tmp j) (parse_path (lit "program.c"))) program_c ;;
  _ <- write_text (joinpath (tmp j) (parse_path (lit "Dockerfile"))) (strip DOCKERFILE ++ [10]) ;;
  cflags <- choice_json (cflags_choices j) ;;
  out_resolved <- resolve (out_dir j) ;;
  tmp_resolved <- resolve (tmp j) ;;
  let cmd := [lit "docker"; lit "build"; lit "--build-arg";
              lit "CFLAGS=" ++ format_json cflags; lit "--output";
              path_str out_resolved; path_str tmp_resolved] in
  _ <- print (PrintBuilding (name (out_dir j)) (name template_path) cflags (job_difficulty j)) ;;
  _ <- subprocess_run_docker cmd out_resolved ;;
  ret (flag, cflags).

(** Lines 111-118: optional padding; the result is [pad_len]. *)
Definition pad_stage (j : job) : IO Z :=
  ex <- exists_ (bin_path j) ;;
  positive <- (if ex && truthy (pad_max j) then gt_zero (pad_max j) else ret false) ;;
  if positive then
    hi <- as_int (pad_max j) ;;
    pad_len <- randint 0 hi ;;
    _ <- (if negb (pad_len =? 0) then
            k <- locate (bin_path j) ;;
            c <- open_write true k ;;
            b <- urandom pad_len ;;
            put_content k (c ++ b)
          else ret tt) ;;
    ret pad_len
  else ret 0.

(** Lines 120-131: the metadata record. *)
Definition record_stage (template_path : Path) (j : job) (flag : str) (cflags : json)
    (pad_len : Z) : IO meta_out :=
  let m := MkMeta (name template_path) flag cflags pad_len (job_difficulty j) in
  _ <- write_text (meta_path j) (json_dumps E (meta_json m)) ;;
  _ <- print (PrintBuilt (out_dir j) flag pad_len) ;;
  ret m.

(** The body of the [try] block. *)
Definition build_body (template_path : Path) (j : job) : IO meta_out :=
  fc <- build_stage template_path j ;;
  pad_len <- pad_stage j ;;
  record_stage template_path j fc.1 fc.2 pad_len.

(** The [finally] block. *)
Definition build_cleanup (j : job) : IO unit :=
  try_except (rmtree (tmp j)) is_Exception
    (fun e => print (PrintTmpWarning (tmp j) e)).

(** [build_one] *)
Definition build_one (base template_path : Path) (idx : Z) : IO meta_out :=
  j <- build_prologue base template_path idx ;;
  try_finally (build_body template_path j) (build_cleanup j).

(** *** Top-level driver *)

Definition handles_CalledProcessError (e : exn) : bool :=
  match e with CalledProcessError _ => true | _ => false end.

(** One iteration of the [for] loop (lines 148-153). *)
Definition main_step (base : Path) (templates : list Path) (i : Z)
    (results : list meta_out) : IO (list meta_out) :=
  tpl <- choice templates ;;
  try_except
    (r <- build_one base tpl i ;; ret (results ++ [r]))
    handles_CalledProcessError
    (fun e => _ <- print (PrintDockerFailed (name tpl) e) ;; ret results).

Fixpoint main_loop (base : Path) (templates : list Path) (idxs : list Z)
    (results : list meta_out) : IO (list meta_out) :=
  match idxs with
  | [] => ret results
  | i :: rest =>
      results <- main_step base templates i results ;;
      main_loop base templates rest results
  end.

(** [range(n)] *)
Definition range (n : nat) : list Z := map Z.of_nat (seq 0 n).

Fixpoint print_all (rs : list meta_out) : IO unit :=
  match rs with
  | [] => ret tt
  | r :: rs' => _ <- print (PrintResult (meta_json r)) ;; print_all rs'
  end.

(** The script's [__main__] block; it returns [results]. *)
Definition main : IO (list meta_out) :=
  cwd <- getcwd ;;
  let base := MkPath true cwd in
  _ <- mkdir false true (OUT_BASE base) ;;
  templates <- list_templates base ;;
  match templates with
  | [] => raise (SystemExit (lit "No templates found in templates/"))
  | _ :: _ =>
      results <- main_loop base templates (range NUM) [] ;;
      _ <- print PrintSummary ;;
      _ <- print_all results ;;
      ret results
  end.

End WithEnv.

End Gen.

(** ** generate_docker_compose.py *)

Module Pack.
Import Py Sys Ext.

Definition DOCKER_BUILD_DIR : Path := parse_path (lit "docker_build2").
Definition DOCKERFILE_NAME : str := lit "Dockerfile".
Definition COMPOSE_FILENAME : str := lit "docker-compose.yml".

(** The parsed command line. *)
Record args := MkArgs {
  arg_json : str;
  arg_workspace : str;
  arg_out : str;
  arg_service : str;
  arg_image : str
}.

(** The defaults of the optional arguments. *)
Definition default_args (json_file : str) : args :=
  MkArgs json_file (lit ".") (path_str DOCKER_BUILD_DIR) (lit "binaries")
         (lit "ctf-binaries:latest").

(** [SystemExit(msg)] ends the process with status 1, as an uncaught
    exception does. *)
Definition exit_status {A} (r : result A) : Z :=
  match r with
  | Ok _ => 0
  | Raise _ => 1
  end.

Section WithEnv.
Context (E : env).

(** [load_json] *)
Definition load_json (path : Path) : IO json :=
  try_except
    (text <- read_text path ;; of_option (json_loads E text) JSONDecodeError)
    is_Exception
    (fun e => raise (SystemExit (lit "Failed to read JSON " ++ path_str path ++ lit ": "
                                   ++ exn_name e))).

Fixpoint entries_of_list (l : list json) : IO (list (str * Path)) :=
  match l with
  | [] => ret []
  | JStr p :: l' =>
      rest <- entries_of_list l' ;;
      ret ((name (parse_path p), parse_path p) :: rest)
  | _ :: _ => raise (SystemExit (lit "JSON list items must be strings (file paths)"))
  end.

Fixpoint entries_of_dict (m : list (str * json)) : IO (list (str * Path)) :=
  match m with
  | [] => ret []
  | (k, JStr v) :: m' =>
      rest <- entries_of_dict m' ;;
      ret ((k, parse_path v) :: rest)
  | _ :: _ => raise (SystemExit (lit "JSON object values must be strings (file paths)"))
  end.

(** [normalize_entries]: the list of (name, path) pairs. *)
Definition normalize_entries (data : json) : IO (list (str * Path)) :=
  match data with
  | JArr l => entries_of_list l
  | JObj m => entries_of_dict m
  | _ => raise (SystemExit
           (lit "JSON must be an array (list of paths) or an object mapping names to paths"))
  end.

(** The loop of [prepare_build_context] (lines 69-76). *)
Fixpoint copy_entries (entries : list (str * Path)) (workspace_root out_dir : Path)
    : IO unit :=
  match entries with
  | [] => ret tt
  | (nm, relpath) :: rest =>
      src <- resolve (joinpath workspace_root relpath) ;;
      ex <- exists_ src ;;
      if negb ex then raise (SystemExit (lit "Source file not found: " ++ path_str src))
      else
        let dest := joinpath out_dir (parse_path nm) in
        _ <- copy2 src dest ;;
        m <- st_mode dest ;;
        _ <- chmod dest (Z.lor m 64) ;;
        copy_entries rest workspace_root out_dir
  end.

(** [prepare_build_context] *)
Definition prepare_build_context (entries : list (str * Path))
    (workspace_root out_dir : Path) : IO unit :=
  ex <- exists_ out_dir ;;
  _ <- (if ex then rmtree out_dir else ret tt) ;;
  _ <- mkdir true true out_dir ;;
  copy_entries entries workspace_root out_dir.

Definition dockerfile_text (target_dir : str) : str :=
  lstrip (lit "
FROM ubuntu:22.04
WORKDIR " ++ target_dir ++ lit "
COPY . " ++ target_dir ++ lit "
RUN chmod +x " ++ target_dir ++ lit "/* || true
CMD [" ++ [34] ++ lit "/bin/bash" ++ [34] ++ lit "]
").

(** [write_dockerfile], with the default [target_dir]. *)
Definition write_dockerfile (out_dir : Path) : IO unit :=
  write_text (joinpath out_dir (parse_path DOCKERFILE_NAME))
    (dockerfile_text (lit "/opt/binaries")).

Definition compose_text (service_name image_name build_dir : str) : str :=
  lstrip (lit "
version: '3.8'
services:
  " ++ service_name ++ lit ":
    build:
      context: " ++ build_dir ++ lit "
    image: " ++ image_name ++ lit "
    tty: true
").

(** [write_compose] *)
Definition write_compose (service_name image_name build_dir : str)
    (compose_path : Path) : IO unit :=
  write_text compose_path (compose_text service_name image_name build_dir).

(** Line 114: where the manifest is read from. *)
Definition json_path_of (a : args) (workspace : Path) : IO Path :=
  if negb (is_absolute (parse_path (arg_json a)))
  then resolve (joinpath workspace (parse_path (arg_json a)))
  else ret (parse_path (arg_json a)).

(** [main], after [argparse]. *)
Definition main (a : args) : IO unit :=
  workspace <- resolve (parse_path (arg_workspace a)) ;;
  json_path <- json_path_of a workspace ;;
  ex <- exists_ json_path ;;
  if negb ex then raise (SystemExit (lit "JSON file not found: " ++ path_str json_path))
  else
    raw <- load_json json_path ;;
    entries <- normalize_entries raw ;;
    let out_dir := parse_path (arg_out a) in
    _ <- prepare_build_context entries workspace out_dir ;;
    _ <- write_dockerfile out_dir ;;
    _ <- write_compose (arg_service a) (arg_image a) (path_str out_dir)
           (parse_path COMPOSE_FILENAME) ;;
    out_resolved <- resolve out_dir ;;
    _ <- print (PrintWroteContext out_resolved) ;;
    compose_resolved <- resolve (parse_path COMPOSE_FILENAME) ;;
    _ <- print (PrintWroteCompose compose_resolved) ;;
    _ <- print PrintToBuild ;;
    print PrintToRun.

End WithEnv.

End Pack.

(** * The vocabulary of the statements *)

Import Py Sys Ext Gen Pack.

(** ** Text *)

Section SeqDefs.
Context {A : Type} `{EqDecision A}.

Definition infix (sub s : list A) : Prop := exists a b, s = a ++ sub ++ b.

Definition no_straddle (new P : list A) : Prop :=
  forall P1 P2, P = P1 ++ P2 -> P1 <> [] -> P2 <> [] -> ~ P1 `suffix_of` new.

(** One of the two lists starts with the other. *)
Definition agree (x y : list A) : Prop := x `prefix_of` y \/ y `prefix_of` x.

(** No occurrence of [old] can overlap an occurrence of [T]. *)
Definition clash (old T : list A) : Prop :=
  (forall T1 T2, T = T1 ++ T2 -> T2 <> [] -> ~ agree old T2) /\
  (forall o1 o2, old = o1 ++ o2 -> o2 <> [] -> ~ agree o2 T).

Fixpoint agreeb (x y : list A) : bool :=
  match x, y with
  | a :: x', b :: y' => bool_decide (a = b) && agreeb x' y'
  | _, _ => true
  end.

Fixpoint all_tails (f : list A -> bool) (l : list A) : bool :=
  match l with
  | [] => true
  | _ :: t => f l && all_tails f t
  end.

Definition clashb (old T : list A) : bool :=
  all_tails (fun T2 => negb (agreeb old T2)) T &&
  all_tails (fun o2 => negb (agreeb o2 T)) old.

End SeqDefs.

(** The solver's side of the XOR obfuscation. *)
Definition hexval (c : Z) : option Z :=
  if (48 <=? c) && (c <=? 57) then Some (c - 48)
  else if (97 <=? c) && (c <=? 102) then Some (c - 87)
  else if (65 <=? c) && (c <=? 70) then Some (c - 55)
  else None.

Fixpoint unescape (s : str) : option bytes :=
  match s with
  | [] => Some []
  | 92 :: 120 :: h1 :: h2 :: t =>
      match hexval h1, hexval h2 with
      | Some a, Some b => cons (16 * a + b) <$> unescape t
      | _, _ => None
      end
  | _ => None
  end.

Definition xor_decode (key : Z) (b : bytes) : bytes := map (fun x => Z.lxor x key) b.

Definition lowalnum (c : Z) : Prop := 97 <= c <= 122 \/ 48 <= c <= 57.

Definition is_flag_token (t : str) : Prop :=
  exists body, t = lit "flag{" ++ body ++ lit "}" /\
               length body = 12%nat /\ Forall lowalnum body.

Definition advance (k : nat) (w : world) : world :=
  MkWorld (files w) (cwd w) (cwd_ok w) (tape w) (k + cursor w) (stdout w).

Definition lowalnumb (c : Z) : bool :=
  ((97 <=? c) && (c <=? 122)) || ((48 <=? c) && (c <=? 57)).

Definition is_digit (c : Z) : bool := (48 <=? c) && (c <=? 57).
Definition is_esc_char (c : Z) : bool :=
  bool_decide (c = 92) || bool_decide (c = 120) || is_digit c
  || ((97 <=? c) && (c <=? 102)).

Definition decimal_ok (n : Z) : bool :=
  match str_of_int n with
  | [] => false
  | s => forallb is_digit s
  end.

Definition hex_ok (b : Z) : bool :=
  match format_02x b with
  | [h1; h2] =>
      is_esc_char h1 && is_esc_char h2 &&
      bool_decide (hexval h1 = Some (b / 16)) && bool_decide (hexval h2 = Some (b mod 16))
  | _ => false
  end.

(** What the later stages keep: the flag token is there, the placeholder is
    not. *)
Definition substituted (flag program : str) : Prop :=
  infix flag program /\ ~ infix FLAG_TOKEN program.

(** ** What a computation may change *)

(** A relation between the world before and after that every step of a
    computation keeps, given which nodes it may write or remove and what it
    may print. *)
Class Invariant := MkInvariant {
  Irel : world -> world -> Prop;
  Irel_pre : PreOrder Irel;
  may_insert : list str -> Prop;
  may_remove : list str -> Prop;
  may_print : event -> Prop;
  may_draw : Prop;
  insert_ok : forall k n w, may_insert k -> Irel w (insert_node k n w).2;
  remove_ok : forall k w, may_remove k -> Irel w (remove_tree k w).2;
  print_ok : forall e w, may_print e -> Irel w (print e w).2;
  draw_ok : forall w, may_draw -> Irel w (draw w).2
}.

#[global] Existing Instance Irel_pre.

Definition inv `{Invariant} {A} (c : IO A) : Prop := forall w, Irel w (c w).2.

(** What a computation returns, when it returns. *)
Definition post {A} (c : IO A) (R : A -> Prop) : Prop :=
  forall w a w', c w = (Ok a, w') -> R a.

(** The absolute paths the operating system can follow for [p]. *)
Definition located (p : Path) (k : list str) : Prop :=
  (dotdot ∉ parts p) /\ (parts p `suffix_of` k) /\ (is_absolute p = true -> k = parts p).

(** What [resolve] gives for an absolute path. *)
Definition resolved (p r : Path) : Prop :=
  is_absolute p = true -> r = MkPath true (normalize (parts p)).

Definition quiet {A} (c : IO A) : Prop :=
  forall w e w', c w = (Raise e, w') -> Gen.handles_CalledProcessError e = false.

(** The node at [m] stays what it is. *)
Definition keeps (m : list str) : Invariant.
Proof.
  refine {|
  Irel w w' := files w' !! m = files w !! m;
  may_insert k := k <> m;
  may_remove k := ~ k `prefix_of` m;
  may_print _ := True;
  may_draw := True
|}.
  - split; [done | intros a b c Hab Hbc; by rewrite Hbc].
  - intros k n w Hk. simpl. by rewrite lookup_insert_ne.
  - intros k w Hk. simpl. destruct (files w !! m) as [n|] eqn:E.
    + by apply map_lookup_filter_Some_2.
    + apply map_lookup_filter_None_2. by left.
  - done.
  - done.
Defined.

(** Neither the file system nor the working directory changes. *)
Definition reads_only : Invariant.
Proof.
  refine {|
  Irel w w' := files w' = files w /\ cwd w' = cwd w /\ cwd_ok w' = cwd_ok w;
  may_insert _ := False;
  may_remove _ := False;
  may_print _ := True;
  may_draw := True
|}.
  - split; [done | intros a b c (? & ? & ?) (? & ? & ?); repeat split; congruence].
  - done.
  - done.
  - done.
  - done.
Defined.

(** Nothing is removed, and the working directory stays. *)
Definition grows : Invariant.
Proof.
  refine {|
  Irel w w' := (forall k, files w' !! k = None -> files w !! k = None) /\
               cwd w' = cwd w /\ cwd_ok w' = cwd_ok w;
  may_insert _ := True;
  may_remove _ := False;
  may_print _ := True;
  may_draw := True
|}.
  - split; [done | intros a b c (? & ? & ?) (? & ? & ?); repeat split; [auto | congruence..]].
  - intros k n w _. simpl. split; [|done]. intros k'.
    destruct (decide (k = k')) as [->|]; [by rewrite lookup_insert_eq|].
    by rewrite lookup_insert_ne.
  - done.
  - done.
  - done.
Defined.

Definition is_failed (e : event) : bool :=
  match e with PrintDockerFailed _ _ => true | _ => false end.

(** How many build failures the driver has reported. *)
Definition failed_logged (w : world) : nat :=
  length (List.filter is_failed (stdout w)).

(** No build failure is reported. *)
Definition reports_none : Invariant.
Proof.
  refine {|
  Irel w w' := failed_logged w' = failed_logged w;
  may_insert _ := True;
  may_remove _ := True;
  may_print e := is_failed e = false;
  may_draw := True
|}.
  - split; [done | intros a b c; congruence].
  - done.
  - done.
  - intros e w He. unfold failed_logged. simpl. rewrite List.filter_app. simpl.
    rewrite He, length_app. simpl. lia.
  - done.
Defined.

(** Every node lies in a directory. *)
Definition closed (f : gmap (list str) node) : Prop :=
  forall k x, is_Some (f !! (k ++ [x])) -> lookup_node f k = Some Dir.

Section Permissions.
Context `{Invariant} (E : env).

(** What the prologue of a job may do: print a metadata warning, create the
    output directory with its ancestors, and a directory below the temporary
    directory. *)
Definition prologue_permissions (base tpl : Path) (idx : Z) : Prop :=
  may_draw /\
  (forall p e, may_print (PrintMetadataFailed p e)) /\
  (forall q k,
     parts q `prefix_of` parts (job_out_dir base tpl idx) ->
     is_absolute q = is_absolute (job_out_dir base tpl idx) ->
     located q k -> may_insert k) /\
  (forall nm k,
     located (joinpath (MkPath true (tmpdir E)) (MkPath false [tmp_prefix tpl idx ++ nm])) k ->
     may_insert k).

(** What the stages of a job may do. *)
Definition build_permissions (j : job) : Prop :=
  may_draw /\
  (forall a b c d, may_print (PrintBuilding a b c d)) /\
  (forall k, located (joinpath (tmp j) (parse_path (lit "program.c"))) k -> may_insert k) /\
  (forall k, located (joinpath (tmp j) (parse_path (lit "Dockerfile"))) k -> may_insert k) /\
  (forall r, resolved (out_dir j) r -> may_insert (parts r ++ [lit "challenge"])).

Definition pad_permissions (j : job) : Prop :=
  may_draw /\ (forall k, located (bin_path j) k -> may_insert k).

Definition record_permissions (j : job) : Prop :=
  (forall a b c, may_print (PrintBuilt a b c)) /\
  (forall k, located (meta_path j) k -> may_insert k).

Definition cleanup_permissions (j : job) : Prop :=
  (forall a b, may_print (PrintTmpWarning a b)) /\
  (forall k, located (tmp j) k -> may_remove k).

End Permissions.

Definition reserved_names : list str :=
  [lit "program.c"; lit "Dockerfile"; lit "challenge"; lit "meta.json"].

(** What one iteration does to the list of results and to the log. *)
Definition counted (n : nat) (rs : list meta_out) (w : world)
    (out : result (list meta_out) * world) : Prop :=
  match out with
  | (Ok rs', w') =>
      (length rs' + failed_logged w' = length rs + failed_logged w + n)%nat /\
      (length rs <= length rs')%nat /\
      (failed_logged w <= failed_logged w')%nat
  | (Raise e, _) => handles_CalledProcessError e = false
  end.

(** The key [locate] gives for [p] when it gives one. *)
Definition key_of (p : Path) (w : world) : list str :=
  (if is_absolute p then [] else cwd w) ++ parts p.

(** Only directories on the way to [ko] are new. *)
Definition dirs_added (ko : list str) (w w' : world) : Prop :=
  (forall q, files w' !! q = files w !! q \/
             (files w !! q = None /\ files w' !! q = Some Dir /\ q `prefix_of` ko)) /\
  cwd w' = cwd w /\ cwd_ok w' = cwd_ok w /\ stdout w' = stdout w.

(** A world as the operating system presents it: every node lies in a
    directory, and so does the process. *)
Definition wf (w : world) : Prop :=
  closed (files w) /\ (cwd_ok w = true -> lookup_node (files w) (cwd w) = Some Dir).

(** Lines 64-66: the output directory is made anew. *)
Definition recreate (out_dir : Path) : IO unit :=
  ex <- exists_ out_dir ;;
  _ <- (if ex then rmtree out_dir else ret tt) ;;
  mkdir true true out_dir.

(** The output directory after [recreate]: there, empty; what else is a
    file was one before. *)
Record fresh (ko : list str) (w w1 : world) : Prop := MkFresh {
  fresh_dir : lookup_node (files w1) ko = Some Dir;
  fresh_empty : forall x r, files w1 !! (ko ++ x :: r) = None;
  fresh_closed : closed (files w1);
  fresh_cwd : cwd w1 = cwd w;
  fresh_cwd_ok : cwd_ok w1 = true -> cwd_ok w = true /\ ~ ko `prefix_of` cwd w;
  fresh_files : forall q c m, files w1 !! q = Some (File c m) -> files w !! q = Some (File c m);
  fresh_stdout : stdout w1 = stdout w
}.

(** The two exceptions the scripts raise or catch by name. *)
Definition fatal (e : exn) : bool :=
  match e with
  | SystemExit _ | CalledProcessError _ => true
  | _ => false
  end.

(** [c] raises neither. *)
Definition plain {A} (c : IO A) : Prop :=
  forall w e w', c w = (Raise e, w') -> fatal e = false.

(** Lines 74-76: the copy, then the owner's executable bit. *)
Definition install (src dest : Path) : IO unit :=
  _ <- copy2 src dest ;;
  m <- st_mode dest ;;
  chmod dest (Z.lor m 64).

(** The permission bits of a copy whose source has the bits [m]. *)
Definition exec_mode (m : Z) : Z := Z.land (Z.lor (Z.lor S_IFREG m) 64) 4095.

(** Below [ko] there are only files, directly in it. *)
Definition flat (ko : list str) (f : gmap (list str) node) : Prop :=
  forall y r n, f !! (ko ++ y :: r) = Some n -> r = [] /\ exists c m, n = File c m.

(** A name that is one path component. *)
Definition simple (x : str) : Prop := parse_path x = MkPath false [x].

(** Entries whose name is the last component of their path. *)
Definition named_by_path (e : str * Path) : Prop := simple e.1 /\ name e.2 = e.1.

(** What [prepare_build_context] leaves. *)
Record prepared (entries : list (str * Path)) (wsp : Path) (ko : list str)
    (w w' : world) : Prop := MkPrepared {
  prepared_dir : lookup_node (files w') ko = Some Dir;
  prepared_listing : forall x r,
    is_Some (files w' !! (ko ++ x :: r)) <-> r = [] /\ x ∈ entries.*1;
  prepared_last : forall pre nm rel post,
    entries = pre ++ (nm, rel) :: post -> nm ∉ post.*1 ->
    exists src c m,
      resolve (joinpath wsp rel) w = (Ok src, w) /\
      stat src w = (Ok (File c m), w) /\
      files w' !! (ko ++ [nm]) = Some (File c (exec_mode m));
  prepared_cwd : cwd w' = cwd w;
  prepared_cwd_ok : cwd_ok w' = true -> cwd_ok w = true /\ ~ ko `prefix_of` cwd w;
  prepared_stdout : stdout w' = stdout w
}.

(** The entry of a path of a list manifest. *)
Definition basename_entry (p : str) : str * Path := (name (parse_path p), parse_path p).

Definition manifest_ab : json :=
  JObj [(lit "a.bin", JStr (lit "bins/a.bin")); (lit "b.bin", JStr (lit "bins/b.bin"))].

Definition entries_ab : list (str * Path) :=
  [(lit "a.bin", parse_path (lit "bins/a.bin")); (lit "b.bin", parse_path (lit "bins/b.bin"))].

(** A check of [closed] that computes. *)
Definition closedb (f : gmap (list str) node) : bool :=
  forallb (fun kv => match kv.1 with
                     | [] => true
                     | _ :: _ => match lookup_node f (removelast kv.1) with
                                 | Some Dir => true
                                 | _ => false
                                 end
                     end) (map_to_list f).

(** ** Sample runs *)

Module Sample.

Definition P (s : string) : list str := parts (parse_path (lit s)).

(** An environment whose build tool fails for the job of index 1 and
    otherwise exports a four-byte binary. *)
Definition E : env := {|
  json_loads s := if bool_decide (s = lit "{}") then Some (JObj []) else None;
  json_dumps _ := lit "{meta}";
  py_repr _ := lit "<repr>";
  tmpdir := P "/tmp";
  docker cmd f := match f !! P "/work/out/a_1" with
                  | Some _ => Exited 1 None
                  | None => Exited 0 (Some [127; 69; 76; 70])
                  end
|}.

Definition template : str := lit "char e[] = {XOR_ENC}; int k = {KEY}; puts({FLAG});".

Definition fs : gmap (list str) node :=
  list_to_map [ (P "/work", Dir); (P "/tmp", Dir); (P "/work/templates", Dir);
                (P "/work/templates/a.c", File template 420) ].

Definition tape0 (n : nat) : Z := Z.of_nat n * 7919 + 13.

Definition w : world := MkWorld fs (P "/work") true tape0 0 [].

Definition base : list str := P "/work".
Definition tpl : Path := parse_path (lit "/work/templates/a.c").

(** The first job of a run, step by step. *)
Definition prologue0 := Gen.build_prologue E (MkPath true base) tpl 0 w.
Definition job0 : Gen.job :=
  match prologue0.1 with
  | Ok j => j
  | Raise _ => Gen.MkJob JNull JNull JNull tpl tpl
  end.
Definition w1 : world := prologue0.2.
Definition stage0 := Gen.build_stage E tpl job0 w1.
Definition fc0 : str * json :=
  match stage0.1 with
  | Ok fc => fc
  | Raise _ => ([], JNull)
  end.
Definition w2 : world := stage0.2.

(** A template that is not UTF-8. *)
Definition fs_bad : gmap (list str) node :=
  list_to_map [ (P "/work", Dir); (P "/tmp", Dir); (P "/work/templates", Dir);
                (P "/work/templates/a.c", File [255] 420) ].
Definition w_bad : world := MkWorld fs_bad (P "/work") true tape0 0 [].

(** The packager: three manifests, two sources with one name, and what an
    earlier run left. *)
Definition E_pack : env := {|
  json_loads s :=
    if bool_decide (s = lit "ab") then Some manifest_ab
    else if bool_decide (s = lit "missing") then Some (JArr [JStr (lit "missing.bin")])
    else None;
  json_dumps _ := [];
  py_repr _ := [];
  tmpdir := P "/tmp";
  docker _ _ := NotStarted
|}.

Definition fs_pack : gmap (list str) node :=
  list_to_map [ (P "/work", Dir); (P "/work/bins", Dir);
                (P "/work/bins/a.bin", File [1; 2] 420);
                (P "/work/bins/b.bin", File [3] 384);
                (P "/work/x", Dir); (P "/work/y", Dir);
                (P "/work/x/a.bin", File [4] 420);
                (P "/work/y/a.bin", File [5; 6] 420);
                (P "/work/m.json", File (lit "ab") 420);
                (P "/work/missing.json", File (lit "missing") 420);
                (P "/work/docker_build2", Dir);
                (P "/work/docker_build2/old.bin", File [7] 420) ].
Definition w_pack : world := MkWorld fs_pack (P "/work") true tape0 0 [].
Definition workspace : Path := MkPath true (P "/work").

End Sample.

(** ** The vocabulary of the further properties *)

(** Each item is at most the items after it. *)
Fixpoint ordered {A} (key : A -> str) (l : list A) : Prop :=
  match l with
  | [] => True
  | x :: l' => Forall (fun y => str_leb (key x) (key y) = true) l' /\ ordered key l'
  end.

(** A regular file whose suffix is [.c] or [.txt]. *)
Definition is_template (w : world) (p : Path) : bool :=
  match stat p w with
  | (Ok (File _ _), _) => bool_decide (suffix p ∈ [lit ".c"; lit ".txt"])
  | _ => false
  end.

(** Every node stays what it is; new ones may come. *)
Definition stays : Invariant.
Proof.
  refine {|
  Irel w w' := forall m n, files w !! m = Some n -> files w' !! m = Some n;
  may_insert _ := False;
  may_remove _ := False;
  may_print _ := True;
  may_draw := True
|}.
  - split; [by intros a m n | intros a b c Hab Hbc m n Hm; by apply Hbc, Hab].
  - done.
  - done.
  - done.
  - done.
Defined.

(** What every record of a run says. *)
Definition sound_record (templates : list Path) (r : meta_out) : Prop :=
  (exists tpl, tpl ∈ templates /\ template r = name tpl) /\
  is_flag_token (flag r) /\ 0 <= pad r.

(** The sidecar of a template: the same file name with the suffix [.json]. *)
Definition sidecar (tpl : Path) : Path :=
  MkPath (is_absolute tpl) (removelast (parts tpl) ++ [stem tpl ++ lit ".json"]).

(** The entry of a pair of an object manifest. *)
Definition path_entry (kv : str * str) : str * Path := (kv.1, parse_path kv.2).

(** The pair of an object whose value is the string [kv.2]. *)
Definition string_pair (kv : str * str) : str * json := (kv.1, JStr kv.2).

(** A name that is one component of a path, and not [..]. *)
Definition proper_name (x : str) : Prop := simple x /\ x <> dotdot.

(** The sources of [entries] can be installed below [ko]: each resolves to a
    regular file outside [ko], which its owner may read, and may write when
    a later entry has the same name (the later copy then replaces the copy
    of this one, which has taken its mode). *)
Fixpoint installable (wsp : Path) (ko : list str) (w : world)
    (entries : list (str * Path)) : Prop :=
  match entries with
  | [] => True
  | (nm, rel) :: rest =>
      (exists src c m,
         resolve (joinpath wsp rel) w = (Ok src, w) /\
         stat src w = (Ok (File c m), w) /\
         ~ ko `prefix_of` parts src /\
         owner_reads m = true /\
         (nm ∈ rest.*1 -> owner_writes m = true)) /\
      installable wsp ko w rest
  end.

(** The output directory [out] can be made anew: the process is in a
    directory outside it, its parent is a directory, and it is a directory
    itself if it is there. *)
Definition recreatable (out : Path) (w : world) : Prop :=
  (dotdot ∉ parts out) /\ parts out <> [] /\
  cwd_ok w = true /\ ~ key_of out w `prefix_of` cwd w /\
  lookup_node (files w) (removelast (key_of out w)) = Some Dir /\
  (files w !! key_of out w = None \/ files w !! key_of out w = Some Dir).

(** * Proofs *)

Section SeqFacts.
Context {A : Type} `{EqDecision A}.
Implicit Types old new s p q : list A.

Lemma startswith_prefix p s : startswith p s = true <-> p `prefix_of` s.
Proof.
  revert s; induction p as [|a p IH]; intros [|b s]; simpl.
  - split; [intros _; apply prefix_nil | done].
  - split; [intros _; apply prefix_nil | done].
  - split; [done | intros []%prefix_nil_not].
  - rewrite andb_true_iff, bool_decide_eq_true, IH. split.
    + intros [-> ?]. by apply prefix_cons.
    + intros Hp. split; [by eapply prefix_cons_inv_1 | by eapply prefix_cons_inv_2].
Qed.

Lemma startswith_app p s : startswith p (p ++ s) = true.
Proof. apply startswith_prefix. by apply prefix_app_r. Qed.

Lemma contains_infix sub s : contains sub s = true <-> infix sub s.
Proof.
  induction s as [|c t IH]; simpl.
  - rewrite orb_false_r, startswith_prefix. split.
    + intros [k ->]. by exists [], k.
    + intros (a & b & E). symmetry in E.
      apply app_eq_nil in E as [-> E]. apply app_eq_nil in E as [-> _]. done.
  - rewrite orb_true_iff, startswith_prefix, IH. split.
    + intros [[k ->] | (a & b & ->)]; [by exists [], k | by exists (c :: a), b].
    + intros ([|x a] & b & E); simpl in E.
      * left. exists b. done.
      * right. injection E as -> ->. by exists a, b.
Qed.

Lemma replace_scan_nil old new : replace_scan old new [] = [].
Proof. by simp replace_scan. Qed.

Lemma replace_scan_hit old new c t :
  startswith old (c :: t) = true ->
  replace_scan old new (c :: t) = new ++ replace_scan old new (drop (length old - 1) t).
Proof. intros E. simp replace_scan. rewrite E. done. Qed.

Lemma replace_scan_miss old new c t :
  startswith old (c :: t) = false ->
  replace_scan old new (c :: t) = c :: replace_scan old new t.
Proof. intros E. simp replace_scan. rewrite E. done. Qed.

End SeqFacts.

Section ReplaceFacts.
Context {A : Type} `{EqDecision A}.
Implicit Types old new s p q P T : list A.

Lemma replace_scan_hit_app old new s :
  old <> [] -> replace_scan old new (old ++ s) = new ++ replace_scan old new s.
Proof.
  destruct old as [|o old']; [done | intros _]. simpl.
  rewrite replace_scan_hit by apply (startswith_app (o :: old')).
  simpl. rewrite Nat.sub_0_r, drop_app_length. done.
Qed.

Lemma startswith_split old s :
  startswith old s = true -> exists s2, s = old ++ s2.
Proof. intros [k ->]%startswith_prefix. by exists k. Qed.

Lemma infix_cons_inv P c t :
  infix P (c :: t) -> P `prefix_of` (c :: t) \/ infix P t.
Proof.
  intros ([|x a] & b & E); simpl in E.
  - left. by exists b.
  - right. injection E as -> ->. by exists a, b.
Qed.

Lemma infix_cons P c t : infix P t -> infix P (c :: t).
Proof. intros (a & b & ->). by exists (c :: a), b. Qed.

Lemma infix_app_l P a b : infix P b -> infix P (a ++ b).
Proof. intros (x & y & ->). exists (a ++ x), y. by rewrite <- app_assoc. Qed.

Lemma infix_app_r P a b : infix P a -> infix P (a ++ b).
Proof. intros (x & y & ->). exists x, (y ++ b). by rewrite <- !app_assoc. Qed.

Lemma infix_refl P : infix P P.
Proof. exists [], []. by rewrite app_nil_r. Qed.

Lemma infix_elem P s x : infix P s -> x ∈ P -> x ∈ s.
Proof. intros (a & b & ->) ?. rewrite !elem_of_app. auto. Qed.

Lemma infix_app_inv P a b :
  infix P (a ++ b) ->
  infix P a \/ infix P b \/
  exists P1 P2, P = P1 ++ P2 /\ P1 <> [] /\ P2 <> [] /\
                P1 `suffix_of` a /\ P2 `prefix_of` b.
Proof.
  intros (x & y & E).
  apply app_eq_inv in E as [(k & -> & E) | (k & -> & ->)].
  - apply app_eq_inv in E as [(k2 & -> & ->) | (k2 & -> & ->)].
    + destruct k as [|k0 k]; [right; left; by exists [], y|].
      destruct k2 as [|k1 k2].
      * left. exists x, []. by rewrite !app_nil_r.
      * right; right. exists (k0 :: k), (k1 :: k2).
        repeat split; try done; [by exists x | by exists y].
    + left. exists x, k2. done.
  - right; left. by exists k, y.
Qed.

(** The scan produces an occurrence of [new] when [old] occurs. *)
Lemma replace_scan_has_new old new s :
  old <> [] -> infix old s -> infix new (replace_scan old new s).
Proof.
  intros Hold. induction s as [|c t IH]; intros Hin.
  - destruct Hin as (a & b & E). symmetry in E.
    apply app_eq_nil in E as [_ E]. apply app_eq_nil in E as [E _]. done.
  - destruct (startswith old (c :: t)) eqn:E.
    + rewrite replace_scan_hit by done. apply infix_app_r, infix_refl.
    + rewrite replace_scan_miss by done. apply infix_cons, IH.
      apply infix_cons_inv in Hin as [Hp | ?]; [|done].
      apply startswith_prefix in Hp. congruence.
Qed.

(** A prefix of the output that avoids the first character of [new] was
    copied from the input, and the input does not start with [old]. *)
Lemma replace_scan_prefix_copied old new h new' s Q :
  new = h :: new' -> Q <> [] -> h ∉ Q ->
  Q `prefix_of` replace_scan old new s ->
  Q `prefix_of` s /\ startswith old s = false.
Proof.
  intros -> . revert Q. induction s as [|c t IH]; intros Q HQ Hh Hp.
  - rewrite replace_scan_nil in Hp. apply prefix_nil_inv in Hp. done.
  - destruct Q as [|q Q]; [done|].
    destruct (startswith old (c :: t)) eqn:E.
    + rewrite replace_scan_hit in Hp by done. simpl in Hp.
      apply prefix_cons_inv_1 in Hp as ->. exfalso. apply Hh. left.
    + rewrite replace_scan_miss in Hp by done. split; [|done].
      pose proof (prefix_cons_inv_1 _ _ _ _ Hp) as ->.
      apply prefix_cons_inv_2 in Hp. apply prefix_cons.
      destruct Q as [|q' Q]; [apply prefix_nil|].
      apply (IH (q' :: Q)); [done | | done].
      intros ?. apply Hh. by right.
Qed.

(** Where [P] occurs in the output although it neither lies in, starts with
    the head of, nor straddles the end of a copy of [new], it was copied from
    a place of the input where the scan found no match. *)
Lemma replace_scan_infix_inv old new h new' P s :
  old <> [] -> new = h :: new' -> P <> [] -> h ∉ P ->
  ~ infix P new -> no_straddle new P ->
  infix P (replace_scan old new s) ->
  exists a b, s = a ++ b /\ P `prefix_of` b /\ startswith old b = false.
Proof.
  intros Hold Hnew HP Hh Hin Hst.
  remember (length s) as n eqn:Hn. revert s Hn.
  induction n as [n IH] using lt_wf_ind. intros s -> Hocc.
  destruct s as [|c t].
  - rewrite replace_scan_nil in Hocc. destruct Hocc as (a & b & E).
    symmetry in E. apply app_eq_nil in E as [_ E]. apply app_eq_nil in E as [E _]. done.
  - destruct (startswith old (c :: t)) eqn:E.
    + destruct (startswith_split _ _ E) as [s2 Es]. rewrite Es in Hocc |- *.
      rewrite replace_scan_hit_app in Hocc by done.
      apply infix_app_inv in Hocc as [? | [Hocc | (P1 & P2 & -> & ? & ? & ? & ?)]].
      * done.
      * destruct (IH (length s2)) with (s := s2) as (a & b & -> & ? & ?); [|done|done|].
        { rewrite Es, length_app. destruct old; [done | simpl; lia]. }
        exists (old ++ a), b. by rewrite <- app_assoc.
      * exfalso. by eapply Hst.
    + rewrite replace_scan_miss in Hocc by done.
      apply infix_cons_inv in Hocc as [Hp | Hocc].
      * rewrite <- (replace_scan_miss old new) in Hp by done.
        eapply replace_scan_prefix_copied in Hp as [? ?]; [|done..].
        by exists [], (c :: t).
      * destruct (IH (length t)) with (s := t) as (a & b & -> & ? & ?); [simpl; lia|done|done|].
        by exists (c :: a), b.
Qed.

Lemma replace_scan_removes old new h new' s :
  old <> [] -> new = h :: new' -> h ∉ old ->
  ~ infix old new -> no_straddle new old ->
  ~ infix old (replace_scan old new s).
Proof.
  intros ? ? ? ? ? Hocc.
  eapply replace_scan_infix_inv in Hocc as (a & b & -> & Hp & E); [|done..].
  apply startswith_prefix in Hp. congruence.
Qed.

Lemma replace_scan_no_new_infix old new h new' P s :
  old <> [] -> new = h :: new' -> P <> [] -> h ∉ P ->
  ~ infix P new -> no_straddle new P ->
  infix P (replace_scan old new s) -> infix P s.
Proof.
  intros ? ? ? ? ? ? Hocc.
  eapply replace_scan_infix_inv in Hocc as (a & b & -> & [k ->] & E); [|done..].
  by exists a, k.
Qed.

(** Side conditions from disjoint alphabets. *)
Lemma disjoint_no_infix new P :
  P <> [] -> (forall x, x ∈ new -> x ∉ P) -> ~ infix P new.
Proof.
  intros HP Hd Hin. destruct P as [|x P]; [done|].
  apply (Hd x); [|left]. eapply infix_elem; [done | left].
Qed.

Lemma disjoint_no_straddle new P :
  (forall x, x ∈ new -> x ∉ P) -> no_straddle new P.
Proof.
  intros Hd P1 P2 -> HP1 _ [k ->]. destruct P1 as [|x P1]; [done|].
  apply (Hd x); rewrite !elem_of_app; [right | left]; left.
Qed.

End ReplaceFacts.

Section KeepFacts.
Context {A : Type} `{EqDecision A}.
Implicit Types old new s p q P T : list A.

Lemma agreeb_agree (x y : list A) : agree x y -> agreeb x y = true.
Proof.
  revert y; induction x as [|a x IH]; intros [|b y]; simpl; try done.
  intros [Hp | Hp]; pose proof (prefix_cons_inv_1 _ _ _ _ Hp) as ->;
    apply prefix_cons_inv_2 in Hp; rewrite bool_decide_eq_true_2 by done;
    apply IH; [by left | by right].
Qed.

Lemma all_tails_spec (f : list A -> bool) (l : list A) :
  all_tails f l = true -> forall l1 l2, l = l1 ++ l2 -> l2 <> [] -> f l2 = true.
Proof.
  induction l as [|c t IH]; simpl; intros Hf l1 l2 E Hl2.
  - symmetry in E. apply app_eq_nil in E as [_ ->]. done.
  - apply andb_true_iff in Hf as [Hc Ht]. destruct l1 as [|x l1]; simpl in E.
    + by subst.
    + injection E as -> ->. by eapply IH.
Qed.

Lemma clashb_clash old T : clashb old T = true -> clash old T.
Proof.
  unfold clashb. intros [H1 H2]%andb_true_iff. split.
  - intros T1 T2 E HT2 Ha%agreeb_agree.
    pose proof (all_tails_spec _ _ H1 _ _ E HT2) as Hn. simpl in Hn.
    rewrite Ha in Hn. done.
  - intros o1 o2 E Ho2 Ha%agreeb_agree.
    pose proof (all_tails_spec _ _ H2 _ _ E Ho2) as Hn. simpl in Hn.
    rewrite Ha in Hn. done.
Qed.

Lemma startswith_agree old T2 b :
  startswith old (T2 ++ b) = true -> agree old T2.
Proof.
  intros Hp%startswith_prefix.
  eapply prefix_weak_total; [done | by apply prefix_app_r].
Qed.

Lemma replace_scan_copy old new T b :
  (forall T1 T2, T = T1 ++ T2 -> T2 <> [] -> ~ agree old T2) ->
  replace_scan old new (T ++ b) = T ++ replace_scan old new b.
Proof.
  induction T as [|c T IH]; intros Hc; [done|]. simpl.
  rewrite replace_scan_miss.
  - f_equal. apply IH. intros T1 T2 -> ?. by apply (Hc (c :: T1) T2).
  - destruct (startswith old (c :: T ++ b)) eqn:E; [|done].
    exfalso. apply (Hc [] (c :: T)); [done..|].
    by apply (startswith_agree old (c :: T) b).
Qed.

(** An occurrence of [T] that no match of [old] can touch is still there
    after the replacement. *)
Lemma replace_scan_keeps old new T s :
  old <> [] -> clash old T -> infix T s -> infix T (replace_scan old new s).
Proof.
  intros Hold [Hc1 Hc2].
  remember (length s) as n eqn:Hn. revert s Hn.
  induction n as [n IH] using lt_wf_ind. intros s -> (a & b & ->).
  destruct a as [|c a].
  - simpl. rewrite replace_scan_copy by done. exists [], (replace_scan old new b). done.
  - simpl. destruct (startswith old (c :: a ++ T ++ b)) eqn:E.
    + destruct (startswith_split _ _ E) as [s2 Es].
      change (c :: a ++ T ++ b) with ((c :: a) ++ T ++ b) in Es |- *.
      assert (infix T s2) as Hs2.
      { apply app_eq_inv in Es as [(k & Ek & ->) | (k & -> & Ek)].
        - by exists k, b.
        - destruct k as [|k0 k].
          + simpl in Ek. subst s2. by exists [], b.
          + exfalso. apply (Hc2 (c :: a) (k0 :: k)); [done..|].
            apply (prefix_weak_total _ _ (T ++ b)); [rewrite Ek|]; by eexists. }
      rewrite Es, replace_scan_hit_app by done. apply infix_app_l.
      apply (IH (length s2)); [|done..].
      rewrite Es, length_app. destruct old; [done | simpl; lia].
    + rewrite replace_scan_miss by done. apply infix_cons.
      apply (IH (length (a ++ T ++ b))); [simpl; lia | done |].
      by exists a, b.
Qed.

End KeepFacts.

Lemma advance_0 w : advance 0 w = w.
Proof. by destruct w. Qed.

Lemma advance_advance j k w : advance j (advance k w) = advance (j + k) w.
Proof. unfold advance; simpl. f_equal. lia. Qed.

Lemma randbelow_spec n w :
  0 < n -> exists r, randbelow n w = (Ok r, advance 1 w) /\ 0 <= r < n.
Proof.
  intros Hn. exists (tape w (cursor w) mod n). split; [done|].
  by apply Z.mod_pos_bound.
Qed.

Lemma randint_spec a b w :
  a <= b -> exists r, randint a b w = (Ok r, advance 1 w) /\ a <= r <= b.
Proof.
  intros Hab. unfold randint. destruct (Z.ltb_spec b a); [lia|].
  destruct (randbelow_spec (b - a + 1) w) as (r & E & Hr); [lia|].
  exists (a + r). unfold bind. rewrite E. split; [done | lia].
Qed.

Lemma choice_spec {A} (seq : list A) w :
  seq <> [] -> exists x, choice seq w = (Ok x, advance 1 w) /\ x ∈ seq.
Proof.
  destruct seq as [|y seq']; [done | intros _]. unfold choice.
  set (seq := y :: seq').
  destruct (randbelow_spec (len seq) w) as (r & E & Hr); [unfold len; simpl; lia|].
  destruct (lookup_lt_is_Some_2 seq (Z.to_nat r)) as [x Hx]; [unfold len in Hr; lia|].
  exists x. unfold bind. rewrite E, Hx. split; [done|].
  by eapply list_elem_of_lookup_2.
Qed.

Lemma choices_spec {A} (pop : list A) k w :
  pop <> [] ->
  exists xs, choices pop k w = (Ok xs, advance k w) /\
             length xs = k /\ Forall (fun x => x ∈ pop) xs.
Proof.
  intros Hpop. revert w. induction k as [|k IH]; intros w; simpl.
  - exists []. by rewrite advance_0.
  - destruct (choice_spec pop w Hpop) as (x & Ex & Hx).
    destruct (IH (advance 1 w)) as (xs & Exs & Hlen & Hall).
    exists (x :: xs). unfold bind. rewrite Ex, Exs, advance_advance.
    replace (k + 1)%nat with (S k) by lia. split; [done|]. split; [simpl; lia|].
    by constructor.
Qed.

Lemma lowalnumb_spec c : lowalnumb c = true <-> lowalnum c.
Proof. unfold lowalnumb, lowalnum. lia. Qed.

Lemma alphabet_lowalnum : Forall lowalnum ascii_lowercase_digits.
Proof.
  apply Forall_forall. intros x Hx%list_elem_of_In. apply lowalnumb_spec.
  revert x Hx. apply forallb_forall. by vm_compute.
Qed.

Lemma alphabet_nonempty : ascii_lowercase_digits <> [].
Proof. intros H. vm_compute in H. discriminate. Qed.

Lemma gen_flag_spec w :
  exists flag, gen_flag w = (Ok flag, advance 12 w) /\ is_flag_token flag.
Proof.
  destruct (choices_spec ascii_lowercase_digits 12 w alphabet_nonempty)
    as (body & E & Hlen & Hall).
  exists (lit "flag{" ++ body ++ lit "}"). unfold gen_flag, bind. rewrite E.
  split; [done|]. exists body. split; [done|]. split; [done|].
  eapply Forall_impl; [done|]. intros x Hx.
  pose proof alphabet_lowalnum as Ha. rewrite Forall_forall in Ha. by apply Ha.
Qed.

(** *** Characters of the substituted texts *)

Lemma replace_nonempty {A} `{EqDecision A} (old new s : list A) :
  old <> [] -> replace old new s = replace_scan old new s.
Proof. by destruct old. Qed.

Lemma agree_head {A} (a b : A) x y : agree (a :: x) (b :: y) -> a = b.
Proof. intros [Hp | Hp]; by apply prefix_cons_inv_1 in Hp. Qed.

Lemma agree_tail {A} (a b : A) x y : agree (a :: x) (b :: y) -> agree x y.
Proof. intros [Hp | Hp]; apply prefix_cons_inv_2 in Hp; [by left | by right]. Qed.

Lemma no_straddle_last {A} (new P : list A) x :
  last new = Some x -> x ∉ removelast P -> no_straddle new P.
Proof.
  intros Hl Hx P1 P2 -> HP1 HP2 [k ->]. apply Hx.
  rewrite removelast_app by done. apply elem_of_app. left.
  destruct (exists_last HP1) as (P1' & z & ->).
  rewrite app_assoc, last_snoc in Hl. injection Hl as ->.
  apply elem_of_app. right. left.
Qed.

Lemma flag_token_elem t x :
  is_flag_token t -> x ∈ t -> x ∈ [102; 108; 97; 103; 123; 125] \/ lowalnum x.
Proof.
  intros (body & -> & _ & Hb) Hx. rewrite !elem_of_app in Hx.
  destruct Hx as [Hx | [Hx | Hx]].
  - left. vm_compute in Hx. set_solver.
  - right. rewrite Forall_forall in Hb. auto.
  - left. vm_compute in Hx. set_solver.
Qed.

Lemma flag_token_head t : is_flag_token t -> exists t', t = 102 :: t'.
Proof. intros (body & -> & _). by eexists. Qed.

Lemma flag_token_last t : is_flag_token t -> last t = Some 125.
Proof. intros (body & -> & _). by rewrite app_assoc, (last_snoc 125). Qed.

Lemma flag_token_ascii t : is_flag_token t -> Forall (fun c => 0 <= c < 128) t.
Proof.
  intros Ht. apply Forall_forall. intros x Hx.
  destruct (flag_token_elem _ _ Ht Hx) as [H | [H | H]]; [|lia..].
  set_solver by lia.
Qed.

(** A placeholder ["{U..."] with [U] no lower-case letter or digit cannot
    overlap a flag token. *)
Lemma clash_flag_token old o1 rest t :
  old = 123 :: o1 :: rest -> ~ lowalnum o1 -> 102 ∉ old ->
  is_flag_token t -> clash old t.
Proof.
  intros -> Ho1 Hf (body & -> & Hlen & Hb). split.
  - intros T1 T2 E HT2 Ha.
    destruct T2 as [|x T2]; [done|]. pose proof (agree_head _ _ _ _ Ha) as <-.
    change (lit "flag{") with [102; 108; 97; 103; 123] in E.
    change (lit "}") with [125] in E.
    destruct T1 as [|? [|? [|? [|? [|? T1]]]]]; simpl in E; try (injection E; intros; lia).
    + destruct body as [|b0 body]; [done|]. simplify_eq/=.
      apply agree_tail, agree_head in Ha as ->.
      apply Ho1. by inversion Hb.
    + injection E as _ _ _ _ _ E.
      assert (123 ∈ body ++ [125]) as Hin by (rewrite E; set_solver).
      apply elem_of_app in Hin as [Hin | Hin].
      * rewrite Forall_forall in Hb. apply Hb in Hin. unfold lowalnum in Hin. lia.
      * set_solver by lia.
  - intros p1 [|y p2] E Hp2 Ha; [done|].
    change (lit "flag{") with [102; 108; 97; 103; 123] in Ha. simpl in Ha.
    apply agree_head in Ha as ->. apply Hf. rewrite E. set_solver.
Qed.

(** *** Decimal and hexadecimal renderings, by exhaustion of the range *)

Lemma decimal_ok_range :
  forallb (fun k => decimal_ok (Z.of_nat k)) (seq 1 (Z.to_nat 10000)) = true.
Proof. by vm_compute. Qed.

Lemma str_of_int_digits n :
  1 <= n <= 10000 ->
  str_of_int n <> [] /\ forall x, x ∈ str_of_int n -> is_digit x = true.
Proof.
  intros Hn. pose proof decimal_ok_range as H.
  rewrite forallb_forall in H. specialize (H (Z.to_nat n)).
  rewrite Z2Nat.id in H by lia. unfold decimal_ok in H.
  destruct (str_of_int n) as [|c s] eqn:E.
  - discriminate H. apply in_seq. lia.
  - split; [done|]. intros x Hx%list_elem_of_In.
    eapply forallb_forall in H; [done | apply in_seq; lia | done].
Qed.

Lemma hex_ok_range : forallb (fun k => hex_ok (Z.of_nat k)) (seq 0 256) = true.
Proof. by vm_compute. Qed.

Lemma format_02x_byte b :
  0 <= b < 256 ->
  exists h1 h2, format_02x b = [h1; h2] /\
    is_esc_char h1 = true /\ is_esc_char h2 = true /\
    hexval h1 = Some (b / 16) /\ hexval h2 = Some (b mod 16).
Proof.
  intros Hb. pose proof hex_ok_range as H.
  rewrite forallb_forall in H. specialize (H (Z.to_nat b)).
  rewrite Z2Nat.id in H by lia. unfold hex_ok in H.
  destruct (format_02x b) as [|h1 [|h2 [|? ?]]];
    try (discriminate H; apply in_seq; lia).
  exists h1, h2. split; [done|].
  assert (In (Z.to_nat b) (seq 0 256)) as Hin by (apply in_seq; lia).
  apply H in Hin. rewrite !andb_true_iff, !bool_decide_eq_true in Hin. tauto.
Qed.

Lemma escape_bytes_cons x b :
  escape_bytes (x :: b) = 92 :: 120 :: format_02x x ++ escape_bytes b.
Proof. reflexivity. Qed.

Lemma unescape_escape b :
  Forall (fun x => 0 <= x < 256) b -> unescape (escape_bytes b) = Some b.
Proof.
  induction 1 as [|x b Hx _ IH]; [done|].
  destruct (format_02x_byte x Hx) as (h1 & h2 & E & _ & _ & E1 & E2).
  rewrite escape_bytes_cons, E. simpl. rewrite E1, E2, IH. simpl. do 2 f_equal.
  pose proof (Z.div_mod x 16). lia.
Qed.

Lemma escape_bytes_chars b x :
  Forall (fun x => 0 <= x < 256) b -> x ∈ escape_bytes b -> is_esc_char x = true.
Proof.
  induction 1 as [|y b Hy _ IH].
  - by intros ?%elem_of_nil.
  - destruct (format_02x_byte y Hy) as (h1 & h2 & E & ? & ? & _).
    rewrite escape_bytes_cons, E. simpl.
    rewrite !elem_of_cons. intros [-> | [-> | [-> | [-> | Hx]]]]; auto.
Qed.

(** *** ASCII text and the XOR *)

Lemma utf8_encode_ascii s :
  Forall (fun c => 0 <= c < 128) s -> utf8_encode s = Some s.
Proof.
  induction 1 as [|c s Hc _ IH]; [done|]. simpl. rewrite IH. unfold utf8_encode_char.
  destruct (Z.ltb_spec c 0); [lia|]. destruct (Z.ltb_spec c 128); [done | lia].
Qed.

Lemma utf8_decode_ascii s :
  Forall (fun c => 0 <= c < 128) s -> utf8_decode s = Some s.
Proof.
  induction 1 as [|c s Hc _ IH]; [done|]. simpl. rewrite IH.
  destruct (Z.leb_spec 0 c); [|lia]. destruct (Z.ltb_spec c 128); [done | lia].
Qed.

Lemma lxor_byte a b : 0 <= a < 256 -> 0 <= b < 256 -> 0 <= Z.lxor a b < 256.
Proof.
  intros Ha Hb. split; [apply Z.lxor_nonneg; lia|].
  destruct (Z.eq_dec (Z.lxor a b) 0) as [-> | Hne]; [lia|].
  apply (Z.log2_lt_pow2 _ 8); [pose proof (Z.lxor_nonneg a b); lia|].
  eapply Z.le_lt_trans; [apply Z.log2_lxor; lia|].
  apply Z.max_lub_lt.
  - destruct (Z.eq_dec a 0) as [-> | ?]; [done|]. apply Z.log2_lt_pow2; lia.
  - destruct (Z.eq_dec b 0) as [-> | ?]; [done|]. apply Z.log2_lt_pow2; lia.
Qed.

Lemma lxor_involutive a k : Z.lxor (Z.lxor a k) k = a.
Proof. by rewrite Z.lxor_assoc, Z.lxor_nilpotent, Z.lxor_0_r. Qed.

(** *** The content generator *)

Lemma FLAG_TOKEN_eq : FLAG_TOKEN = [123; 70; 76; 65; 71; 125].
Proof. reflexivity. Qed.

Lemma esc_char_not_in_FLAG x : is_esc_char x = true -> x ∉ FLAG_TOKEN.
Proof.
  rewrite FLAG_TOKEN_eq, !elem_of_cons, elem_of_nil.
  intros H [-> | [-> | [-> | [-> | [-> | [-> | []]]]]]]; by vm_compute in H.
Qed.

Lemma digit_esc_char x : is_digit x = true -> is_esc_char x = true.
Proof. unfold is_esc_char. intros ->. by rewrite orb_true_r. Qed.

Lemma xor_encode_bytes_spec s w :
  Forall (fun c => 0 <= c < 128) s ->
  exists key,
    1 <= key <= 255 /\
    xor_encode_bytes s w =
      (Ok (escape_bytes (map (fun b => Z.lxor b key) s), key), advance 1 w) /\
    Forall (fun x => 0 <= x < 256) (map (fun b => Z.lxor b key) s).
Proof.
  intros Hs. destruct (randint_spec 1 255 w) as (key & E & Hk); [lia|].
  assert (Forall (fun x => 0 <= x < 256) (map (fun b => Z.lxor b key) s)) as Hr.
  { apply Forall_map. eapply Forall_impl; [done|]. intros c Hc. simpl in *.
    apply lxor_byte; lia. }
  exists key. split; [done|]. split; [|done].
  unfold xor_encode_bytes, bind. rewrite E, (utf8_encode_ascii s Hs). simpl.
  unfold bytes_of_ints.
  replace (forallb _ _) with true; [done|]. symmetry. apply forallb_forall.
  intros x Hx%list_elem_of_In. rewrite Forall_forall in Hr. apply Hr in Hx. lia.
Qed.

Lemma flag_stage flag tpl :
  is_flag_token flag -> infix FLAG_TOKEN tpl ->
  substituted flag (replace FLAG_TOKEN flag tpl).
Proof.
  intros Hf Hin. rewrite replace_nonempty by done.
  destruct (flag_token_head _ Hf) as [t' Et]. split.
  - by apply replace_scan_has_new.
  - eapply replace_scan_removes; [done | exact Et | | |].
    + rewrite FLAG_TOKEN_eq. set_solver by lia.
    + intros Hin'. assert (70 ∈ flag) as H70.
      { eapply infix_elem; [done|]. rewrite FLAG_TOKEN_eq. set_solver. }
      destruct (flag_token_elem _ _ Hf H70) as [H | [H | H]]; [set_solver by lia | lia..].
    + eapply no_straddle_last; [by apply flag_token_last|].
      rewrite FLAG_TOKEN_eq. simpl. set_solver by lia.
Qed.

Lemma later_stage old o1 rest new flag program :
  old = 123 :: o1 :: rest -> ~ lowalnum o1 -> 102 ∉ old ->
  new <> [] -> (forall x, x ∈ new -> is_esc_char x = true) ->
  is_flag_token flag -> substituted flag program ->
  substituted flag (replace old new program).
Proof.
  intros Hold Ho1 H102 Hnew Hchars Hf [Hin Hout].
  assert (old <> []) as Hne by (by subst old).
  rewrite replace_nonempty by done. split.
  - apply replace_scan_keeps; [done | | done]. by eapply clash_flag_token.
  - intros Hocc. apply Hout. destruct new as [|h new'] eqn:En; [done|].
    rewrite <- En in *.
    eapply (replace_scan_no_new_infix old new h new'); [done.. | | | | done].
    + apply esc_char_not_in_FLAG, Hchars. rewrite En. left.
    + apply disjoint_no_infix; [done|]. intros x Hx. by apply esc_char_not_in_FLAG, Hchars.
    + apply disjoint_no_straddle. intros x Hx. by apply esc_char_not_in_FLAG, Hchars.
Qed.

Lemma subst_xor_substituted flag program w :
  is_flag_token flag -> substituted flag program ->
  exists program' w',
    subst_xor program flag w = (Ok program', w') /\ substituted flag program'.
Proof.
  intros Hf Hs. unfold subst_xor.
  destruct (contains XOR_ENC_TOKEN program); [|by exists program, w].
  destruct (xor_encode_bytes_spec flag w (flag_token_ascii _ Hf)) as (key & Hk & E & Hr).
  unfold bind. rewrite E. simpl. eexists _, _. split; [done|].
  eapply (later_stage KEY_TOKEN 75); [reflexivity | unfold lowalnum; lia | | | | done |].
  - change KEY_TOKEN with [123; 75; 69; 89; 125]. set_solver by lia.
  - apply str_of_int_digits. lia.
  - intros x Hx. apply digit_esc_char. by apply (str_of_int_digits key); [lia|].
  - eapply (later_stage XOR_ENC_TOKEN 88); [reflexivity | unfold lowalnum; lia | | | | done | done].
    + change XOR_ENC_TOKEN with [123; 88; 79; 82; 95; 69; 78; 67; 125]. set_solver by lia.
    + destruct Hf as (body & -> & _). done.
    + intros x Hx. by eapply escape_bytes_chars.
Qed.

Lemma subst_random_int_substituted flag program w :
  is_flag_token flag -> substituted flag program ->
  exists program' w',
    subst_random_int program w = (Ok program', w') /\ substituted flag program'.
Proof.
  intros Hf Hs. unfold subst_random_int.
  destruct (contains RANDOM_INT_TOKEN program); [|by exists program, w].
  destruct (randint_spec 1 10000 w) as (ri & E & Hri); [lia|].
  unfold bind. rewrite E. eexists _, _. split; [done|].
  eapply (later_stage RANDOM_INT_TOKEN 82); [reflexivity | unfold lowalnum; lia | | | | done | done].
  - change RANDOM_INT_TOKEN with [123; 82; 65; 78; 68; 79; 77; 95; 73; 78; 84; 125].
    set_solver by lia.
  - by apply str_of_int_digits.
  - intros x Hx. apply digit_esc_char. by apply (str_of_int_digits ri).
Qed.

(** C2: for a template that contains [{FLAG}], the generated source contains
    a token [flag{c1..c12}] with twelve lowercase letters or digits, and
    [{FLAG}] occurs in it no more. *)
Theorem flag_placeholder_substituted tpl w :
  contains FLAG_TOKEN tpl = true ->
  exists flag w1 program w2,
    gen_flag w = (Ok flag, w1) /\
    prepare_program_from_template tpl flag w1 = (Ok program, w2) /\
    is_flag_token flag /\
    contains flag program = true /\
    contains FLAG_TOKEN program = false.
Proof.
  intros Hin%contains_infix.
  destruct (gen_flag_spec w) as (flag & Eg & Hf).
  pose proof (flag_stage flag tpl Hf Hin) as H1.
  destruct (subst_xor_substituted flag _ (advance 12 w) Hf H1) as (p2 & w2 & E2 & H2).
  destruct (subst_random_int_substituted flag p2 w2 Hf H2) as (p3 & w3 & E3 & [H3 H3']).
  exists flag, (advance 12 w), p3, w3. split; [done|]. split.
  - unfold prepare_program_from_template, bind. by rewrite E2.
  - split; [done|]. split; [by apply contains_infix|].
    destruct (contains FLAG_TOKEN p3) eqn:E; [|done].
    by apply contains_infix in E.
Qed.

Lemma xor_token_survives flag tpl :
  infix XOR_ENC_TOKEN tpl -> infix XOR_ENC_TOKEN (replace FLAG_TOKEN flag tpl).
Proof.
  intros Hin. rewrite replace_nonempty by done.
  apply replace_scan_keeps; [done | | done]. apply clashb_clash. by vm_compute.
Qed.

(** C1: for a template that contains [{XOR_ENC}], the key drawn in the same
    generation lies in [1, 255]; the text put for [{XOR_ENC}] is the
    two-hex-digit escape rendering of the flag's UTF-8 bytes, each XORed with
    the key (the decimal key goes for [{KEY}]); and undoing the escapes,
    XORing with the key and reading the bytes as UTF-8 gives back the flag
    that replaced [{FLAG}]. *)
Theorem xor_obfuscation_roundtrip tpl w :
  contains XOR_ENC_TOKEN tpl = true ->
  exists flag w1 key enc w2 raw,
    gen_flag w = (Ok flag, w1) /\
    contains XOR_ENC_TOKEN (replace FLAG_TOKEN flag tpl) = true /\
    xor_encode_bytes flag w1 = (Ok (enc, key), w2) /\
    prepare_program_from_template tpl flag w1 =
      subst_random_int
        (replace KEY_TOKEN (str_of_int key)
           (replace XOR_ENC_TOKEN enc (replace FLAG_TOKEN flag tpl))) w2 /\
    1 <= key <= 255 /\
    utf8_encode flag = Some raw /\
    enc = escape_bytes (map (fun b => Z.lxor b key) raw) /\
    (unescape enc ≫= fun b => utf8_decode (xor_decode key b)) = Some flag.
Proof.
  intros Hin%contains_infix.
  destruct (gen_flag_spec w) as (flag & Eg & Hf).
  pose proof (flag_token_ascii _ Hf) as Hascii.
  destruct (xor_encode_bytes_spec flag (advance 12 w) Hascii) as (key & Hk & Ex & Hr).
  pose proof (xor_token_survives flag tpl Hin) as Hx%contains_infix.
  exists flag, (advance 12 w), key, (escape_bytes (map (fun b => Z.lxor b key) flag)),
    (advance 1 (advance 12 w)), flag.
  split; [done|]. split; [done|]. split; [done|]. split.
  { unfold prepare_program_from_template, subst_xor, bind. rewrite Hx, Ex. done. }
  split; [done|]. split; [by apply utf8_encode_ascii|]. split; [done|].
  rewrite unescape_escape by done. simpl. unfold xor_decode.
  rewrite map_map.
  rewrite (map_ext _ id), map_id; [by apply utf8_decode_ascii|].
  intros a. apply lxor_involutive.
Qed.

(** * Reasoning about computations *)

Section PostRules.
Context {A B : Type}.

Lemma post_ret (a : A) (R : A -> Prop) : R a -> post (ret a) R.
Proof. intros ? w a' w' [= <- _]. done. Qed.

Lemma post_raise e (R : A -> Prop) : post (raise e) R.
Proof. intros w a w' [=]. Qed.

Lemma post_weaken (c : IO A) (R R' : A -> Prop) :
  post c R -> (forall a, R a -> R' a) -> post c R'.
Proof. intros Hc HR w a w' E. eauto. Qed.

Lemma post_true (c : IO A) : post c (fun _ => True).
Proof. done. Qed.

Lemma post_bind (c : IO A) (k : A -> IO B) (R : A -> Prop) (Q : B -> Prop) :
  post c R -> (forall a, R a -> post (k a) Q) -> post (bind c k) Q.
Proof.
  intros Hc Hk w b w'. unfold bind. destruct (c w) as [[a|e] w1] eqn:E; [|done].
  intros Ek. eapply Hk; [|done]. by eapply Hc.
Qed.

Lemma post_try_except (body : IO A) H (handler : exn -> IO A) (R : A -> Prop) :
  post body R -> (forall e, post (handler e) R) -> post (try_except body H handler) R.
Proof.
  intros Hb Hh w a w'. unfold try_except.
  destruct (body w) as [[a'|e] w1] eqn:E.
  - intros [= <- <-]. by eapply Hb.
  - destruct (H e); [|done]. apply Hh.
Qed.

End PostRules.

Lemma post_locate p : post (locate p) (located p).
Proof.
  intros w k w'. unfold locate, located.
  destruct (bool_decide_reflect (dotdot ∈ parts p)) as [|Hd]; [done|].
  destruct (is_absolute p).
  - intros [= <- _]. done.
  - unfold bind, getcwd. destruct (cwd_ok w); [|done]. intros [= <- _].
    split; [done|]. split; [by eexists | done].
Qed.

Lemma post_resolve p : post (resolve p) (resolved p).
Proof.
  intros w r w'. unfold resolve, resolved, bind.
  destruct (is_absolute p); [|done]. simpl. by intros [= <- _].
Qed.

Section InvRules.
Context `{Invariant}.
Context {A B : Type}.

Lemma inv_ret (a : A) : inv (ret a).
Proof. intros w. reflexivity. Qed.

Lemma inv_raise e : inv (raise (A:=A) e).
Proof. intros w. reflexivity. Qed.

Lemma inv_bind_post (c : IO A) (k : A -> IO B) (R : A -> Prop) :
  inv c -> post c R -> (forall a, R a -> inv (k a)) -> inv (bind c k).
Proof.
  intros Hc Hp Hk w. unfold bind. pose proof (Hc w) as H1.
  destruct (c w) as [[a|e] w1] eqn:E; simpl in *; [|done].
  etrans; [done|]. apply Hk. by eapply Hp.
Qed.

Lemma inv_bind (c : IO A) (k : A -> IO B) :
  inv c -> (forall a, inv (k a)) -> inv (bind c k).
Proof. intros Hc Hk. apply (inv_bind_post c k (fun _ => True)); auto using post_true. Qed.

Lemma inv_try_except (body : IO A) Hd (handler : exn -> IO A) :
  inv body -> (forall e, inv (handler e)) -> inv (try_except body Hd handler).
Proof.
  intros Hb Hh w. unfold try_except. pose proof (Hb w) as H1.
  destruct (body w) as [[a|e] w1] eqn:E; simpl in *; [done|].
  destruct (Hd e); [|done]. etrans; [done|]. apply Hh.
Qed.

Lemma inv_try_finally (body : IO A) (cleanup : IO unit) :
  inv body -> inv cleanup -> inv (try_finally body cleanup).
Proof.
  intros Hb Hc w. unfold try_finally. pose proof (Hb w) as H1.
  destruct (body w) as [r w1] eqn:E; simpl in *.
  pose proof (Hc w1) as H2. destruct (cleanup w1) as [[[]|e] w2]; simpl in *; by etrans.
Qed.

Lemma inv_of_option (o : option A) e : inv (of_option o e).
Proof. destruct o; [apply inv_ret | apply inv_raise]. Qed.

End InvRules.

Section InvPrimitives.
Context `{Invariant}.

Lemma inv_get_world : inv get_world.
Proof. intros w. reflexivity. Qed.

Lemma inv_getcwd : inv getcwd.
Proof. intros w. unfold getcwd. destruct (cwd_ok w); reflexivity. Qed.

Lemma inv_insert_node k n : may_insert k -> inv (insert_node k n).
Proof. intros ? w. by apply insert_ok. Qed.

Lemma inv_remove_tree k : may_remove k -> inv (remove_tree k).
Proof. intros ? w. by apply remove_ok. Qed.

Lemma inv_print e : may_print e -> inv (print e).
Proof. intros ? w. by apply print_ok. Qed.

Lemma inv_draw : may_draw -> inv draw.
Proof. intros ? w. by apply draw_ok. Qed.

Lemma inv_randbelow n : may_draw -> inv (randbelow n).
Proof. intros. apply inv_bind; [by apply inv_draw | intros; apply inv_ret]. Qed.

Lemma inv_randint a b : may_draw -> inv (randint a b).
Proof.
  intros. unfold randint. destruct (b <? a); [apply inv_raise|].
  apply inv_bind; [by apply inv_randbelow | intros; apply inv_ret].
Qed.

Lemma inv_choice {A} (l : list A) : may_draw -> inv (choice l).
Proof.
  intros. destruct l; [apply inv_raise|].
  apply inv_bind; [by apply inv_randbelow | intros; apply inv_of_option].
Qed.

Lemma inv_choices {A} (l : list A) k : may_draw -> inv (choices l k).
Proof.
  intros. induction k; simpl; [apply inv_ret|].
  apply inv_bind; [by apply inv_choice | intros].
  apply inv_bind; [done | intros; apply inv_ret].
Qed.

Lemma inv_urandom n : may_draw -> inv (urandom n).
Proof.
  intros. unfold urandom. destruct (n <? 0); [apply inv_raise|].
  induction (Z.to_nat n); simpl; [apply inv_ret|].
  apply inv_bind; [by apply inv_randbelow | intros].
  apply inv_bind; [done | intros; apply inv_ret].
Qed.

Lemma inv_locate p : inv (locate p).
Proof.
  unfold locate. destruct (bool_decide _); [apply inv_raise|].
  destruct (is_absolute p); [apply inv_ret|].
  apply inv_bind; [apply inv_getcwd | intros; apply inv_ret].
Qed.

Lemma inv_stat p : inv (stat p).
Proof.
  apply inv_bind; [apply inv_locate | intros].
  apply inv_bind; [apply inv_get_world | intros; apply inv_of_option].
Qed.

Lemma inv_exists p : inv (exists_ p).
Proof.
  apply inv_try_except; [|intros; apply inv_ret].
  apply inv_bind; [apply inv_stat | intros; apply inv_ret].
Qed.

Lemma inv_is_file p : inv (is_file p).
Proof.
  apply inv_try_except; [|intros; apply inv_ret].
  apply inv_bind; [apply inv_stat | intros; apply inv_ret].
Qed.

Lemma inv_is_dir p : inv (is_dir p).
Proof.
  apply inv_try_except; [|intros; apply inv_ret].
  apply inv_bind; [apply inv_stat | intros; apply inv_ret].
Qed.

Lemma inv_resolve p : inv (resolve p).
Proof.
  apply inv_bind; [|intros; apply inv_ret].
  destruct (is_absolute p); [apply inv_ret | apply inv_getcwd].
Qed.

Lemma inv_with_suffix p s : inv (with_suffix p s).
Proof. unfold with_suffix. destruct (name p); [apply inv_raise | apply inv_ret]. Qed.

Lemma inv_st_mode p : inv (st_mode p).
Proof. apply inv_bind; [apply inv_stat | intros; apply inv_ret]. Qed.

Lemma inv_read_bytes p : inv (read_bytes p).
Proof.
  apply inv_bind; [apply inv_stat | intros []; [apply inv_ret | apply inv_raise]].
Qed.

Lemma inv_read_text p : inv (read_text p).
Proof.
  apply inv_bind; [apply inv_read_bytes | intros].
  apply inv_bind; [apply inv_of_option | intros; apply inv_ret].
Qed.

Lemma inv_os_mkdir p :
  (forall k, located p k -> may_insert k) -> inv (os_mkdir p).
Proof.
  intros Hk. eapply inv_bind_post; [apply inv_locate | apply post_locate | intros k Hl].
  apply inv_bind; [apply inv_get_world | intros w].
  destruct (lookup_node _ k); [apply inv_raise|].
  destruct (lookup_node _ _) as [[]|]; try apply inv_raise.
  apply inv_insert_node. auto.
Qed.

Lemma inv_mkdir_one ok p :
  (forall k, located p k -> may_insert k) -> inv (mkdir_one ok p).
Proof.
  intros Hk. apply inv_try_except; [by apply inv_os_mkdir | intros e].
  apply inv_bind; [apply inv_is_dir | intros d].
  destruct (_ || _); [apply inv_raise | apply inv_ret].
Qed.

Lemma inv_open_write keep k : may_insert k -> inv (open_write keep k).
Proof.
  intros Hk. apply inv_bind; [apply inv_get_world | intros w].
  destruct (lookup_node _ k) as [[]|].
  - apply inv_bind; [by apply inv_insert_node | intros; apply inv_ret].
  - apply inv_raise.
  - destruct (lookup_node _ _) as [[]|]; try apply inv_raise.
    apply inv_bind; [by apply inv_insert_node | intros; apply inv_ret].
Qed.

Lemma inv_open_owned keep k : may_insert k -> inv (open_owned keep k).
Proof.
  intros Hk. apply inv_bind; [apply inv_get_world | intros w].
  destruct (lookup_node _ k) as [[c m|]|]; try by apply inv_open_write.
  destruct (owner_writes m); [by apply inv_open_write | apply inv_raise].
Qed.

Lemma inv_put_content k c : may_insert k -> inv (put_content k c).
Proof.
  intros Hk. apply inv_bind; [apply inv_get_world | intros w].
  destruct (_ !! _) as [[]|]; try apply inv_raise. by apply inv_insert_node.
Qed.

Lemma inv_write_text p s :
  (forall k, located p k -> may_insert k) -> inv (write_text p s).
Proof.
  intros Hk. eapply inv_bind_post; [apply inv_locate | apply post_locate | intros k Hl].
  apply inv_bind; [apply inv_open_write; auto | intros].
  apply inv_bind; [apply inv_of_option | intros]. apply inv_put_content; auto.
Qed.

Lemma inv_chmod p m :
  (forall k, located p k -> may_insert k) -> inv (chmod p m).
Proof.
  intros Hk. eapply inv_bind_post; [apply inv_locate | apply post_locate | intros k Hl].
  apply inv_bind; [apply inv_stat | intros []; [|apply inv_ret]].
  apply inv_insert_node; auto.
Qed.

Lemma inv_rmtree p :
  (forall k, located p k -> may_remove k) -> inv (rmtree p).
Proof.
  intros Hk. eapply inv_bind_post; [apply inv_locate | apply post_locate | intros k Hl].
  apply inv_bind; [apply inv_stat | intros []; [apply inv_raise|]].
  apply inv_remove_tree; auto.
Qed.

Lemma inv_copy2 src dst :
  (forall k, located dst k \/ located (joinpath dst (MkPath false [name src])) k ->
             may_insert k) ->
  inv (copy2 src dst).
Proof.
  intros Hk. apply inv_bind; [apply inv_is_dir | intros d].
  apply inv_bind; [apply inv_locate | intros ks].
  eapply inv_bind_post; [apply inv_locate | apply post_locate | intros kd Hl].
  apply inv_bind; [apply inv_stat | intros n].
  destruct (bool_decide _); [apply inv_raise|].
  destruct n; [|apply inv_raise].
  assert (may_insert kd) by (apply Hk; destruct d; auto).
  destruct (negb _); [apply inv_raise|].
  apply inv_bind; [by apply inv_open_owned | intros]. by apply inv_insert_node.
Qed.

Lemma inv_iterdir p : inv (iterdir p).
Proof.
  apply inv_bind; [apply inv_locate | intros k].
  apply inv_bind; [apply inv_stat | intros []; [apply inv_raise|]].
  apply inv_bind; [apply inv_get_world | intros; apply inv_ret].
Qed.

End InvPrimitives.

Lemma removelast_prefix {A} (l : list A) : removelast l `prefix_of` l.
Proof.
  destruct l as [|x l] using rev_ind; [done|].
  rewrite removelast_last. by apply prefix_app_r.
Qed.

Section InvMkdir.
Context `{Invariant}.

Lemma inv_mkdir_parents fuel ok p :
  (forall q k, parts q `prefix_of` parts p -> is_absolute q = is_absolute p ->
               located q k -> may_insert k) ->
  inv (mkdir_parents fuel ok p).
Proof.
  revert ok p. induction fuel as [|fuel IH]; intros ok p Hk; simpl.
  - apply inv_try_except; [apply inv_mkdir_one; intros; by eapply Hk|].
    intros e. apply inv_raise.
  - apply inv_try_except; [apply inv_mkdir_one; intros; by eapply Hk|].
    intros e. destruct (parts p) as [|x ps] eqn:Ep; [apply inv_raise|].
    apply inv_bind.
    + apply IH. intros q k Hq Ha Hl. apply (Hk q k); [|done..].
      etrans; [done|]. simpl. rewrite Ep. apply removelast_prefix.
    + intros _. apply inv_mkdir_one. intros k Hl. apply (Hk p k); [by rewrite Ep | done..].
Qed.

Lemma inv_mkdir par ok p :
  (forall q k, parts q `prefix_of` parts p -> is_absolute q = is_absolute p ->
               located q k -> may_insert k) ->
  inv (mkdir par ok p).
Proof.
  intros Hk. unfold mkdir. destruct par; [by apply inv_mkdir_parents|].
  apply inv_mkdir_one. intros; by eapply Hk.
Qed.

End InvMkdir.

(** ** Exceptions other than a failed build *)

Section QuietRules.
Context {A B : Type}.

Lemma quiet_ret (a : A) : quiet (ret a).
Proof. intros w e w' [=]. Qed.

Lemma quiet_raise e :
  Gen.handles_CalledProcessError e = false -> quiet (raise (A:=A) e).
Proof. intros ? w e' w' [= <- _]. done. Qed.

Lemma quiet_bind (c : IO A) (k : A -> IO B) :
  quiet c -> (forall a, quiet (k a)) -> quiet (bind c k).
Proof.
  intros Hc Hk w e w'. unfold bind. destruct (c w) as [[a|e'] w1] eqn:E.
  - apply Hk.
  - intros [= <- <-]. by eapply Hc.
Qed.

Lemma quiet_try_except (body : IO A) H (handler : exn -> IO A) :
  quiet body -> (forall e, H e = true -> quiet (handler e)) ->
  quiet (try_except body H handler).
Proof.
  intros Hb Hh w e w'. unfold try_except. destruct (body w) as [[a|e'] w1] eqn:E; [done|].
  destruct (H e') eqn:He; [by apply Hh|]. intros [= <- <-]. by eapply Hb.
Qed.

(** Whatever the body raises, a handler of [CalledProcessError] lets none
    through. *)
Lemma quiet_catch (body : IO A) (handler : exn -> IO A) :
  (forall e, quiet (handler e)) ->
  quiet (try_except body Gen.handles_CalledProcessError handler).
Proof.
  intros Hh w e w'. unfold try_except. destruct (body w) as [[a|e'] w1] eqn:E; [done|].
  destruct (Gen.handles_CalledProcessError e') eqn:Ee; [apply Hh|].
  by intros [= <- <-].
Qed.

Lemma quiet_try_finally (body : IO A) (cleanup : IO unit) :
  quiet body -> quiet cleanup -> quiet (try_finally body cleanup).
Proof.
  intros Hb Hc w e w'. unfold try_finally. destruct (body w) as [r w1] eqn:E.
  destruct (cleanup w1) as [[[]|e'] w2] eqn:E'.
  - intros [= -> <-]. by eapply Hb.
  - intros [= <- <-]. by eapply Hc.
Qed.

Lemma quiet_of_option (o : option A) e :
  Gen.handles_CalledProcessError e = false -> quiet (of_option o e).
Proof. destruct o; [intros; apply quiet_ret | apply quiet_raise]. Qed.

Lemma quiet_total (c : IO A) : (forall w, exists a w', c w = (Ok a, w')) -> quiet c.
Proof. intros Hc w e w' E. destruct (Hc w) as (a & w1 & E'). congruence. Qed.

End QuietRules.

Create HintDb quiet discriminated.

Ltac quiet_step :=
  match goal with
  | |- quiet (bind _ _) => apply quiet_bind; [|intros]
  | |- quiet (ret _) => apply quiet_ret
  | |- quiet (raise ?e) =>
      apply quiet_raise; first [reflexivity | by destruct e]
  | |- quiet (try_except _ _ _) => apply quiet_try_except; [|intros]
  | |- quiet (try_finally _ _) => apply quiet_try_finally
  | |- quiet (of_option _ _) => apply quiet_of_option; reflexivity
  | |- quiet (if ?b then _ else _) => destruct b
  | |- quiet (match ?x with _ => _ end) => destruct x
  | |- quiet _ => solve [auto with quiet]
  end.

Ltac quiet_tac := repeat quiet_step.

Lemma quiet_get_world : quiet get_world.
Proof. apply quiet_total. intros w. by eexists _, _. Qed.

Lemma quiet_insert_node k n : quiet (insert_node k n).
Proof. apply quiet_total. intros w. by eexists _, _. Qed.

Lemma quiet_remove_tree k : quiet (remove_tree k).
Proof. apply quiet_total. intros w. by eexists _, _. Qed.

Lemma quiet_print e : quiet (print e).
Proof. apply quiet_total. intros w. by eexists _, _. Qed.

Lemma quiet_draw : quiet draw.
Proof. apply quiet_total. intros w. by eexists _, _. Qed.

Lemma quiet_getcwd : quiet getcwd.
Proof. intros w e w'. unfold getcwd. destruct (cwd_ok w); [done|]. by intros [= <- _]. Qed.

#[global] Hint Resolve quiet_get_world quiet_insert_node quiet_remove_tree quiet_print
  quiet_draw quiet_getcwd : quiet.

Lemma quiet_randbelow n : quiet (randbelow n).
Proof. unfold randbelow. quiet_tac. Qed.
#[global] Hint Resolve quiet_randbelow : quiet.

Lemma quiet_randint a b : quiet (randint a b).
Proof. unfold randint. quiet_tac. Qed.

Lemma quiet_choice {A} (l : list A) : quiet (choice l).
Proof. unfold choice. quiet_tac. Qed.
#[global] Hint Resolve quiet_randint quiet_choice : quiet.

Lemma quiet_choices {A} (l : list A) k : quiet (choices l k).
Proof. induction k; simpl; quiet_tac. Qed.

Lemma quiet_urandom n : quiet (urandom n).
Proof.
  unfold urandom. destruct (n <? 0); [quiet_tac|].
  induction (Z.to_nat n); simpl; quiet_tac.
Qed.

Lemma quiet_locate p : quiet (locate p).
Proof. unfold locate. quiet_tac. Qed.
#[global] Hint Resolve quiet_choices quiet_urandom quiet_locate : quiet.

Lemma quiet_stat p : quiet (stat p).
Proof. unfold stat. quiet_tac. Qed.
#[global] Hint Resolve quiet_stat : quiet.

Lemma quiet_exists p : quiet (exists_ p).
Proof. unfold exists_. quiet_tac. Qed.

Lemma quiet_is_file p : quiet (is_file p).
Proof. unfold is_file. quiet_tac. Qed.

Lemma quiet_is_dir p : quiet (is_dir p).
Proof. unfold is_dir. quiet_tac. Qed.

Lemma quiet_resolve p : quiet (resolve p).
Proof. unfold resolve. quiet_tac. Qed.

Lemma quiet_with_suffix p s : quiet (with_suffix p s).
Proof. unfold with_suffix. quiet_tac. Qed.
#[global] Hint Resolve quiet_exists quiet_is_file quiet_is_dir quiet_resolve
  quiet_with_suffix : quiet.

Lemma quiet_os_mkdir p : quiet (os_mkdir p).
Proof. unfold os_mkdir. quiet_tac. Qed.
#[global] Hint Resolve quiet_os_mkdir : quiet.

Lemma quiet_mkdir_one ok p : quiet (mkdir_one ok p).
Proof. unfold mkdir_one. quiet_tac. Qed.
#[global] Hint Resolve quiet_mkdir_one : quiet.

Lemma quiet_mkdir_parents fuel ok p : quiet (mkdir_parents fuel ok p).
Proof. revert ok p. induction fuel; intros; simpl; quiet_tac. Qed.
#[global] Hint Resolve quiet_mkdir_parents : quiet.

Lemma quiet_mkdir par ok p : quiet (mkdir par ok p).
Proof. unfold mkdir. quiet_tac. Qed.

Lemma quiet_rmtree p : quiet (rmtree p).
Proof. unfold rmtree. quiet_tac. Qed.

Lemma quiet_read_bytes p : quiet (read_bytes p).
Proof. unfold read_bytes. quiet_tac. Qed.
#[global] Hint Resolve quiet_mkdir quiet_rmtree quiet_read_bytes : quiet.

Lemma quiet_read_text p : quiet (read_text p).
Proof. unfold read_text. quiet_tac. Qed.

Lemma quiet_open_write keep k : quiet (open_write keep k).
Proof. unfold open_write. quiet_tac. Qed.

Lemma quiet_put_content k c : quiet (put_content k c).
Proof. unfold put_content. quiet_tac. Qed.
#[global] Hint Resolve quiet_read_text quiet_open_write quiet_put_content : quiet.

Lemma quiet_write_text p s : quiet (write_text p s).
Proof. unfold write_text. quiet_tac. Qed.
#[global] Hint Resolve quiet_write_text : quiet.

(** ** Particular invariants *)

(** ** Taking a computation apart *)

Lemma bind_inv {A B} (c : IO A) (k : A -> IO B) w r w' :
  bind c k w = (r, w') ->
  (exists a w1, c w = (Ok a, w1) /\ k a w1 = (r, w')) \/
  (exists e, c w = (Raise e, w') /\ r = Raise e).
Proof.
  unfold bind. destruct (c w) as [[a|e] w1]; [left; by eexists _, _|].
  intros [= <- <-]. right. by eexists.
Qed.

Lemma bind_inv_Ok {A B} (c : IO A) (k : A -> IO B) w b w' :
  bind c k w = (Ok b, w') -> exists a w1, c w = (Ok a, w1) /\ k a w1 = (Ok b, w').
Proof. intros H. apply bind_inv in H as [?|(e & _ & ?)]; [done | discriminate]. Qed.

Lemma try_finally_inv {A} (body : IO A) cleanup w r w' :
  try_finally body cleanup w = (r, w') ->
  exists r1 w1, body w = (r1, w1) /\
    ((cleanup w1 = (Ok tt, w') /\ r = r1) \/
     (exists e, cleanup w1 = (Raise e, w') /\ r = Raise e)).
Proof.
  unfold try_finally. destruct (body w) as [r1 w1]. intros E. exists r1, w1. split; [done|].
  destruct (cleanup w1) as [[[]|e] w2]; injection E as <- <-; [by left | right; by eexists].
Qed.

Lemma try_except_inv {A} (body : IO A) H handler w r w' :
  try_except body H handler w = (r, w') ->
  (exists a, body w = (Ok a, w') /\ r = Ok a) \/
  (exists e, body w = (Raise e, w') /\ H e = false /\ r = Raise e) \/
  (exists e w1, body w = (Raise e, w1) /\ H e = true /\ handler e w1 = (r, w')).
Proof.
  unfold try_except. destruct (body w) as [[a|e] w1].
  - intros [= <- <-]. left. by eexists.
  - destruct (H e) eqn:He.
    + intros Hh. right; right. by eexists _, _.
    + intros [= <- <-]. right; left. by eexists.
Qed.

(** Read-only computations. *)
Lemma reads_only_world {A} (c : IO A) w r w' :
  inv (H:=reads_only) c -> c w = (r, w') ->
  files w' = files w /\ cwd w' = cwd w /\ cwd_ok w' = cwd_ok w.
Proof. intros Hc E. specialize (Hc w). rewrite E in Hc. done. Qed.

(** ** The file system *)

Lemma lookup_node_ne f k : k <> [] -> lookup_node f k = f !! k.
Proof. by destruct k. Qed.

Lemma lookup_node_snoc f k x : lookup_node f (k ++ [x]) = f !! (k ++ [x]).
Proof. apply lookup_node_ne. by destruct k. Qed.

Lemma closed_ancestor f t o :
  closed f -> is_Some (f !! o) -> t `prefix_of` o -> t <> [] -> is_Some (f !! t).
Proof.
  intros Hc Ho [r ->] Ht. induction r as [|x r IH] using rev_ind.
  - by rewrite app_nil_r in Ho.
  - apply IH. rewrite app_assoc in Ho. apply Hc in Ho.
    rewrite lookup_node_ne in Ho by (by destruct t). by rewrite Ho.
Qed.

Lemma closed_insert_dir f k :
  closed f -> lookup_node f (removelast k) = Some Dir -> closed (<[k := Dir]> f).
Proof.
  intros Hc Hp k' x Hs.
  assert (lookup_node f k' = Some Dir) as Hk'.
  { destruct (decide (k = k' ++ [x])) as [-> | Hne].
    - by rewrite removelast_last in Hp.
    - rewrite lookup_insert_ne in Hs by done. by apply Hc in Hs. }
  destruct k' as [|y k']; [done|]. simpl in *.
  destruct (decide (k = y :: k')) as [-> | ?]; [by rewrite lookup_insert_eq|].
  by rewrite lookup_insert_ne.
Qed.

Lemma locate_abs p w :
  is_absolute p = true -> dotdot ∉ parts p -> locate p w = (Ok (parts p), w).
Proof.
  intros Ha Hd. unfold locate. rewrite bool_decide_eq_false_2 by done. by rewrite Ha.
Qed.

Lemma locate_world p w r w' : locate p w = (r, w') -> w' = w.
Proof.
  unfold locate. destruct (bool_decide _); [by intros [= _ <-]|].
  destruct (is_absolute p); [by intros [= _ <-]|].
  unfold bind, getcwd. destruct (cwd_ok w); by intros [= _ <-].
Qed.

Lemma locate_same p w w' :
  cwd w' = cwd w -> cwd_ok w' = cwd_ok w -> (locate p w').1 = (locate p w).1.
Proof.
  intros Hc Ho. unfold locate. destruct (bool_decide _); [done|].
  destruct (is_absolute p); [done|]. unfold bind, getcwd. rewrite Hc, Ho.
  by destruct (cwd_ok w).
Qed.

Lemma locate_transfer p w w' r :
  cwd w' = cwd w -> cwd_ok w' = cwd_ok w ->
  locate p w = (r, w) -> locate p w' = (r, w').
Proof.
  intros Hc Ho E. destruct (locate p w') as [r' w2] eqn:E2.
  pose proof (locate_world _ _ _ _ E2) as ->.
  pose proof (locate_same p w w' Hc Ho) as Hs. rewrite E2, E in Hs. simpl in Hs.
  by subst.
Qed.

Lemma stat_world p w r w' : stat p w = (r, w') -> w' = w.
Proof.
  unfold stat, bind. destruct (locate p w) as [[k|e] w1] eqn:E;
    apply locate_world in E as ->; [|by intros [= _ <-]].
  simpl. destruct (lookup_node _ _); by intros [= _ <-].
Qed.

Lemma stat_Ok p w n w' :
  stat p w = (Ok n, w') ->
  exists k, locate p w = (Ok k, w) /\ lookup_node (files w) k = Some n.
Proof.
  unfold stat, bind. destruct (locate p w) as [[k|e] w1] eqn:E; [|done].
  pose proof (locate_world _ _ _ _ E) as ->. simpl.
  destruct (lookup_node _ _) as [n'|] eqn:El; [|done]. intros [= <- _]. by exists k.
Qed.

Lemma stat_intro p w k n :
  locate p w = (Ok k, w) -> lookup_node (files w) k = Some n -> stat p w = (Ok n, w).
Proof. intros E El. unfold stat, bind. rewrite E. simpl. by rewrite El. Qed.

(** What [os_mkdir] does. *)
Lemma os_mkdir_inv p w r w' :
  os_mkdir p w = (r, w') ->
  (r = Ok tt /\ exists k, locate p w = (Ok k, w) /\
     lookup_node (files w) k = None /\
     lookup_node (files w) (removelast k) = Some Dir /\
     w' = (insert_node k Dir w).2) \/
  ((exists e, r = Raise e) /\ w' = w).
Proof.
  unfold os_mkdir, bind. destruct (locate p w) as [[k|e] w1] eqn:E;
    pose proof (locate_world _ _ _ _ E) as ->.
  - simpl. destruct (lookup_node (files w) k) eqn:Ek.
    { intros [= <- <-]. right. split; [by eexists | done]. }
    destruct (lookup_node (files w) (removelast k)) as [[]|] eqn:Ep;
      try (intros [= <- <-]; right; split; [by eexists | done]).
    intros [= <- <-]. left. split; [done|]. by exists k.
  - intros [= <- <-]. right. split; [by eexists | done].
Qed.

Lemma is_dir_world p w r w' : is_dir p w = (r, w') -> w' = w.
Proof.
  unfold is_dir, try_except, bind. destruct (stat p w) as [[n|e] w1] eqn:E;
    apply stat_world in E as ->.
  - by intros [= _ <-].
  - destruct (handles_FileNotFound e); by intros [= _ <-].
Qed.

Lemma is_dir_true p w w' :
  is_dir p w = (Ok true, w') -> stat p w = (Ok Dir, w).
Proof.
  unfold is_dir, try_except, bind. destruct (stat p w) as [[n|e] w1] eqn:E;
    pose proof (stat_world _ _ _ _ E) as ->.
  - destruct n; [done|]. done.
  - destruct (handles_FileNotFound e); done.
Qed.

Lemma mkdir_one_inv ok p w r w' :
  mkdir_one ok p w = (r, w') -> w' = w \/ os_mkdir p w = (Ok tt, w').
Proof.
  intros [(a & E & ->) | [(e & E & _ & ->) | (e & w1 & E & _ & Hh)]]%try_except_inv.
  - right. by destruct a.
  - apply os_mkdir_inv in E as [[[=] _] | [_ ->]]. by left.
  - apply os_mkdir_inv in E as [[[=] _] | [_ ->]]. left.
    apply bind_inv in Hh as [(d & w2 & Ed & Hh) | (e' & Ed & _)].
    + apply is_dir_world in Ed as ->. destruct (_ || _); by injection Hh as _ <-.
    + by apply is_dir_world in Ed.
Qed.

Lemma os_mkdir_closed p w r w' :
  os_mkdir p w = (r, w') -> closed (files w) -> closed (files w').
Proof.
  intros [(_ & k & _ & _ & Hp & ->) | [_ ->]]%os_mkdir_inv; [|done].
  intros Hc. simpl. by apply closed_insert_dir.
Qed.

Lemma mkdir_one_closed ok p w r w' :
  mkdir_one ok p w = (r, w') -> closed (files w) -> closed (files w').
Proof. intros [-> | E]%mkdir_one_inv; [done | by eapply os_mkdir_closed]. Qed.

Lemma mkdir_parents_closed fuel ok p w r w' :
  mkdir_parents fuel ok p w = (r, w') -> closed (files w) -> closed (files w').
Proof.
  revert ok p w r w'. induction fuel as [|fuel IH]; intros ok p w r w'; simpl;
    intros [(a & E & ->) | [(e & E & _ & ->) | (e & w1 & E & _ & Hh)]]%try_except_inv Hc;
    try (by eapply mkdir_one_closed).
  - injection Hh as _ <-. by eapply mkdir_one_closed.
  - pose proof (mkdir_one_closed _ _ _ _ _ E Hc) as Hc1.
    destruct (parts p); [injection Hh as _ <-; done|].
    apply bind_inv in Hh as [(a & w2 & E2 & Hh) | (e' & E2 & _)].
    + eapply mkdir_one_closed; [done|]. by eapply IH.
    + by eapply IH.
Qed.

Lemma mkdir_closed par ok p w r w' :
  mkdir par ok p w = (r, w') -> closed (files w) -> closed (files w').
Proof.
  unfold mkdir. destruct par; [apply mkdir_parents_closed | apply mkdir_one_closed].
Qed.

(** A directory that [mkdir] reports created is there. *)
Lemma mkdir_one_Ok ok p w w' :
  mkdir_one ok p w = (Ok tt, w') -> stat p w' = (Ok Dir, w').
Proof.
  intros [(a & E & _) | [(e & _ & _ & [=]) | (e & w1 & E & _ & Hh)]]%try_except_inv.
  - apply os_mkdir_inv in E as [(_ & k & El & _ & _ & ->) | [[e [=]] _]].
    apply stat_intro with (k := k).
    + by apply (locate_transfer p w).
    + simpl. destruct k; [done|]. simpl. by rewrite lookup_insert_eq.
  - apply os_mkdir_inv in E as [[[=] _] | [_ ->]].
    apply bind_inv in Hh as [(d & w2 & Ed & Hh) | (e' & _ & [=])].
    pose proof (is_dir_world _ _ _ _ Ed) as ->.
    destruct d; [|by destruct ok]. destruct ok; [|done]. injection Hh as <-.
    by eapply is_dir_true.
Qed.

Lemma mkdir_Ok par ok p w w' :
  mkdir par ok p w = (Ok tt, w') -> stat p w' = (Ok Dir, w').
Proof.
  unfold mkdir. destruct par; [|apply mkdir_one_Ok].
  destruct (length (parts p)) as [|fuel]; simpl;
    intros [(a & E & _) | [(e & _ & _ & [=]) | (e & w1 & E & _ & Hh)]]%try_except_inv;
    try (destruct a; by eapply mkdir_one_Ok); [done|].
  destruct (parts p); [done|].
  apply bind_inv_Ok in Hh as (a & w2 & _ & Hh). by eapply mkdir_one_Ok.
Qed.

(** ** Invariants of the generator *)

Section GenInv.
Context `{Invariant} (E : env).

Lemma inv_gen_flag : may_draw -> inv gen_flag.
Proof. intros. apply inv_bind; [by apply inv_choices | intros; apply inv_ret]. Qed.

Lemma inv_xor_encode_bytes s : may_draw -> inv (xor_encode_bytes s).
Proof.
  intros. apply inv_bind; [by apply inv_randint | intros].
  apply inv_bind; [apply inv_of_option | intros].
  apply inv_bind; [apply inv_of_option | intros; apply inv_ret].
Qed.

Lemma inv_prepare tpl f : may_draw -> inv (prepare_program_from_template tpl f).
Proof.
  intros. apply inv_bind.
  - unfold subst_xor. destruct (contains _ _); [|apply inv_ret].
    apply inv_bind; [by apply inv_xor_encode_bytes | intros; apply inv_ret].
  - intros p. unfold subst_random_int. destruct (contains _ _); [|apply inv_ret].
    apply inv_bind; [by apply inv_randint | intros; apply inv_ret].
Qed.

Lemma inv_dict_get d k v : inv (dict_get d k v).
Proof. destruct d; try apply inv_raise. apply inv_ret. Qed.

Lemma inv_as_int v : inv (as_int v).
Proof. destruct v; try apply inv_raise; apply inv_ret. Qed.

Lemma inv_gt_zero v : inv (gt_zero v).
Proof. apply inv_bind; [apply inv_as_int | intros; apply inv_ret]. Qed.

Lemma inv_choice_json v : may_draw -> inv (choice_json v).
Proof.
  intros. destruct v as [| | | |l|[|? m]]; simpl; try apply inv_raise.
  - apply inv_bind; [by apply inv_choice | intros; apply inv_ret].
  - by apply inv_choice.
  - apply inv_bind; [by apply inv_randbelow | intros; apply inv_raise].
Qed.

Lemma inv_load_metadata tpl :
  (forall p e, may_print (PrintMetadataFailed p e)) -> inv (load_metadata E tpl).
Proof.
  intros Hp. apply inv_bind; [apply inv_with_suffix | intros mp].
  apply inv_bind; [apply inv_exists | intros []; [|apply inv_ret]].
  apply inv_try_except.
  - apply inv_bind; [apply inv_read_text | intros; apply inv_of_option].
  - intros e. apply inv_bind; [by apply inv_print | intros; apply inv_ret].
Qed.

Lemma inv_mkdtemp_loop fuel dir prefix :
  may_draw ->
  (forall nm k, located (joinpath dir (MkPath false [prefix ++ nm])) k -> may_insert k) ->
  inv (mkdtemp_loop fuel dir prefix).
Proof.
  intros Hd Hk. induction fuel as [|fuel IH]; cbn [mkdtemp_loop]; [apply inv_raise|].
  apply inv_bind; [by apply inv_choices | intros nm].
  apply inv_try_except; [|done].
  apply inv_bind; [apply inv_os_mkdir; eauto | intros; apply inv_ret].
Qed.

Lemma inv_build_prologue base tpl idx :
  prologue_permissions E base tpl idx -> inv (build_prologue E base tpl idx).
Proof.
  intros (Hd & Hp & Hout & Htmp). unfold build_prologue.
  apply inv_bind; [by apply inv_load_metadata | intros meta].
  do 4 (apply inv_bind; [apply inv_dict_get | intros ?]).
  apply inv_bind; [apply inv_mkdir; intros; by eapply Hout | intros _].
  apply inv_bind; [|intros; apply inv_ret].
  by apply inv_mkdtemp_loop.
Qed.

Lemma inv_subprocess_run_docker cmd r :
  may_insert (parts r ++ [lit "challenge"]) -> inv (subprocess_run_docker E cmd r).
Proof.
  intros Hk. apply inv_bind; [apply inv_get_world | intros w].
  destruct (docker _ _ _) as [rc [b|]|]; try apply inv_raise;
    destruct (rc =? 0); try apply inv_raise; try apply inv_ret.
  by apply inv_insert_node.
Qed.

Lemma inv_build_stage tpl j :
  build_permissions j -> inv (build_stage E tpl j).
Proof.
  intros (Hd & Hp1 & Hprog & Hdock & Hch). unfold build_stage.
  apply inv_bind; [apply inv_read_text | intros text].
  apply inv_bind; [by apply inv_gen_flag | intros f].
  apply inv_bind; [by apply inv_prepare | intros prog].
  apply inv_bind; [by apply inv_write_text | intros _].
  apply inv_bind; [by apply inv_write_text | intros _].
  apply inv_bind; [by apply inv_choice_json | intros cf].
  eapply inv_bind_post; [apply inv_resolve | apply post_resolve | intros r Hr].
  apply inv_bind; [apply inv_resolve | intros r'].
  apply inv_bind; [by apply inv_print | intros _].
  apply inv_bind; [apply inv_subprocess_run_docker; auto | intros; apply inv_ret].
Qed.

Lemma inv_pad_stage j : pad_permissions j -> inv (pad_stage j).
Proof.
  intros (Hd & Hch). unfold pad_stage.
  apply inv_bind; [apply inv_exists | intros ex].
  apply inv_bind; [destruct (_ && _); [apply inv_gt_zero | apply inv_ret] | intros []];
    [|apply inv_ret].
  apply inv_bind; [apply inv_as_int | intros hi].
  apply inv_bind; [by apply inv_randint | intros n].
  apply inv_bind; [|intros; apply inv_ret].
  destruct (negb _); [|apply inv_ret].
  eapply inv_bind_post; [apply inv_locate | apply post_locate | intros k Hl].
  apply inv_bind; [apply inv_open_write; auto | intros c].
  apply inv_bind; [by apply inv_urandom | intros b]. apply inv_put_content; auto.
Qed.

Lemma inv_record_stage tpl j f cf n :
  record_permissions j -> inv (record_stage E tpl j f cf n).
Proof.
  intros (Hp & Hm). unfold record_stage.
  apply inv_bind; [by apply inv_write_text | intros _].
  apply inv_bind; [by apply inv_print | intros; apply inv_ret].
Qed.

Lemma inv_build_body tpl j :
  build_permissions j -> pad_permissions j -> record_permissions j ->
  inv (build_body E tpl j).
Proof.
  intros. apply inv_bind; [by apply inv_build_stage | intros fc].
  apply inv_bind; [by apply inv_pad_stage | intros n]. by apply inv_record_stage.
Qed.

Lemma inv_build_cleanup j : cleanup_permissions j -> inv (build_cleanup j).
Proof.
  intros (Hp & Hr).
  apply inv_try_except; [by apply inv_rmtree | intros; by apply inv_print].
Qed.

End GenInv.

(** ** Quiet parts of the generator *)

Lemma quiet_dict_get d k v : quiet (dict_get d k v).
Proof. unfold dict_get. quiet_tac. Qed.

Lemma quiet_as_int v : quiet (as_int v).
Proof. unfold as_int. quiet_tac. Qed.
#[global] Hint Resolve quiet_dict_get quiet_as_int : quiet.

Lemma quiet_gt_zero v : quiet (gt_zero v).
Proof. unfold gt_zero. quiet_tac. Qed.
#[global] Hint Resolve quiet_gt_zero : quiet.

Lemma quiet_load_metadata E tpl : quiet (load_metadata E tpl).
Proof. unfold load_metadata, empty_dict. quiet_tac. Qed.

Lemma quiet_mkdtemp_loop fuel dir prefix : quiet (mkdtemp_loop fuel dir prefix).
Proof. induction fuel; cbn [mkdtemp_loop]; quiet_tac. Qed.
#[global] Hint Resolve quiet_load_metadata quiet_mkdtemp_loop : quiet.

Lemma quiet_build_prologue E base tpl idx : quiet (build_prologue E base tpl idx).
Proof. unfold build_prologue, mkdtemp. quiet_tac. Qed.

Lemma quiet_pad_stage j : quiet (pad_stage j).
Proof. unfold pad_stage. quiet_tac. Qed.

Lemma quiet_record_stage E tpl j f cf n : quiet (record_stage E tpl j f cf n).
Proof. unfold record_stage. quiet_tac. Qed.

Lemma quiet_build_cleanup j : quiet (build_cleanup j).
Proof. unfold build_cleanup. quiet_tac. Qed.

(** ** The prologue of a job *)

Lemma locate_Ok p w k w' : locate p w = (Ok k, w') -> located p k /\ w' = w.
Proof. intros E. split; [by eapply post_locate | by eapply locate_world]. Qed.

Lemma mkdtemp_loop_Ok fuel dir prefix w p w' :
  is_absolute dir = true ->
  mkdtemp_loop fuel dir prefix w = (Ok p, w') ->
  (exists nm, p = joinpath dir (MkPath false [prefix ++ nm])) /\
  (dotdot ∉ parts p) /\
  files w !! parts p = None /\
  files w' = <[parts p := Dir]> (files w).
Proof.
  intros Ha. revert w. induction fuel as [|fuel IH]; intros w; cbn [mkdtemp_loop]; [done|].
  intros (nm & w1 & Ec & Hb)%bind_inv_Ok.
  pose proof (reads_only_world _ _ _ _ (inv_choices (H:=reads_only) _ _ I) Ec) as (Hf & _ & _).
  rewrite <- Hf.
  apply try_except_inv in Hb as [(a & Hb & [= <-]) | [(e & _ & _ & [=]) | (e & w2 & Hb & _ & Hh)]].
  - apply bind_inv_Ok in Hb as ([] & w2 & Em & [= <- <-]).
    apply os_mkdir_inv in Em as [(_ & k & El & Hn & _ & ->) | [[e [=]] _]].
    apply locate_Ok in El as [(Hd & _ & Hk) _].
    rewrite Hk in * by done. split; [by eexists|]. split; [done|]. split; [|done].
    rewrite lookup_node_ne in Hn; [done|]. simpl. by destruct (parts dir).
  - apply bind_inv in Hb as [(a & w3 & Em & [=]) | (e' & Em & _)].
    apply os_mkdir_inv in Em as [[[=] _] | [_ ->]]. by apply IH.
Qed.

Lemma job_out_dir_absolute b tpl idx :
  is_absolute (job_out_dir (MkPath true b) tpl idx) = true.
Proof. unfold job_out_dir, joinpath. by destruct (is_absolute (parse_path _)) eqn:E. Qed.

Lemma dict_get_world d k v w r w' : dict_get d k v w = (r, w') -> w' = w.
Proof. destruct d; by intros [= _ <-]. Qed.

Lemma build_prologue_Ok E b tpl idx w j w1 :
  build_prologue E (MkPath true b) tpl idx w = (Ok j, w1) ->
  out_dir j = job_out_dir (MkPath true b) tpl idx /\
  (dotdot ∉ parts (out_dir j)) /\
  lookup_node (files w1) (parts (out_dir j)) = Some Dir /\
  is_absolute (tmp j) = true /\
  (dotdot ∉ parts (tmp j)) /\
  (exists nm, parts (tmp j) = tmpdir E ++ [tmp_prefix tpl idx ++ nm]) /\
  files w !! parts (tmp j) = None /\
  files w1 !! parts (tmp j) = Some Dir /\
  (closed (files w) -> ~ parts (tmp j) `prefix_of` parts (out_dir j)).
Proof.
  unfold build_prologue.
  intros (meta & wa & Em & H)%bind_inv_Ok.
  apply bind_inv_Ok in H as (cf & w2 & E1 & H). apply dict_get_world in E1 as ->.
  apply bind_inv_Ok in H as (pd & w2 & E1 & H). apply dict_get_world in E1 as ->.
  apply bind_inv_Ok in H as (pm & w2 & E1 & H). apply dict_get_world in E1 as ->.
  apply bind_inv_Ok in H as (df & w2 & E1 & H). apply dict_get_world in E1 as ->.
  apply bind_inv_Ok in H as ([] & wm & Emk & H).
  apply bind_inv_Ok in H as (t & w3 & Et & [= <- <-]). simpl.
  pose proof (reads_only_world _ _ _ _ (inv_load_metadata (H:=reads_only) E tpl (fun _ _ => I)) Em)
    as (Hfa & _ & _).
  assert (forall k, files wm !! k = None -> files w !! k = None) as Hgrow.
  { intros k Hk. rewrite <- Hfa.
    pose proof (inv_mkdir (H:=grows) true true (job_out_dir (MkPath true b) tpl idx)
                  (fun _ _ _ _ _ => I) wa) as (Hg & _).
    rewrite Emk in Hg. by apply Hg. }
  pose proof (mkdir_Ok _ _ _ _ _ Emk) as (o & Eo & Ho)%stat_Ok.
  apply locate_Ok in Eo as [(Hdo & _ & Hko) _]. rewrite Hko in Ho by apply job_out_dir_absolute.
  apply mkdtemp_loop_Ok in Et as ((nm & ->) & Hdt & Hfresh & Hins); [|done].
  assert (parts (joinpath (MkPath true (tmpdir E))
            (MkPath false [tmp_prefix tpl idx ++ nm]))
          <> []) as Hne by (simpl; by destruct (tmpdir E)).
  assert (closed (files w) ->
          ~ parts (joinpath (MkPath true (tmpdir E))
              (MkPath false [tmp_prefix tpl idx ++ nm]))
            `prefix_of` parts (job_out_dir (MkPath true b) tpl idx)) as Hnp.
  { intros Hc Hp. rewrite <- Hfa in Hc. apply (mkdir_closed _ _ _ _ _ _ Emk) in Hc.
    destruct (parts (job_out_dir (MkPath true b) tpl idx)) as [|x o'] eqn:Eparts.
    - by apply prefix_nil_inv in Hp.
    - simpl in Ho. eapply closed_ancestor in Hp; [|done| by rewrite Ho |done].
      rewrite Hfresh in Hp. by destruct Hp. }
  repeat split; try done.
  - rewrite Hins. destruct (parts (job_out_dir (MkPath true b) tpl idx)) as [|x o'] eqn:Eparts; [done|].
    simpl in *. rewrite lookup_insert_ne; [done|]. intros Heq.
    rewrite <- Heq, Hfresh in Ho. done.
  - by eexists.
  - by apply Hgrow.
  - rewrite Hins. by rewrite lookup_insert_eq.
Qed.

Lemma rmtree_dir p k w :
  locate p w = (Ok k, w) -> lookup_node (files w) k = Some Dir ->
  rmtree p w = (Ok tt, (remove_tree k w).2).
Proof.
  intros El Hk. unfold rmtree, bind. rewrite El. simpl.
  rewrite (stat_intro p w k Dir El Hk). done.
Qed.

Lemma normalize_fold acc ps :
  dotdot ∉ ps ->
  fold_left (fun acc c => if bool_decide (c = dotdot) then removelast acc else acc ++ [c])
    ps acc = acc ++ ps.
Proof.
  revert acc. induction ps as [|c ps IH]; intros acc Hd; simpl.
  - by rewrite app_nil_r.
  - rewrite bool_decide_eq_false_2 by (intros ->; apply Hd; left).
    rewrite IH by (intros ?; apply Hd; by right). by rewrite <- app_assoc.
Qed.

Lemma normalize_id ps : dotdot ∉ ps -> normalize ps = ps.
Proof. intros. unfold normalize. by rewrite normalize_fold. Qed.

Lemma prefix_snoc_inv {A} (t o : list A) x :
  t `prefix_of` o ++ [x] -> t = o ++ [x] \/ t `prefix_of` o.
Proof.
  intros [r E]. destruct r as [|y r _] using rev_ind.
  - left. by rewrite app_nil_r in E.
  - right. rewrite app_assoc in E. apply app_inj_tail in E as [-> _]. by eexists.
Qed.

Lemma snoc_ne_last {A} (k o : list A) x y : x <> y -> k ++ [x] <> o ++ [y].
Proof. intros Hn E. by apply app_inj_tail in E as [_ ?]. Qed.

Lemma snoc_ne_self {A} (o : list A) x : o ++ [x] <> o.
Proof. intros E. apply (f_equal length) in E. rewrite length_app in E. simpl in E. lia. Qed.

Lemma tmp_name_not_reserved tpl idx nm x :
  x ∈ [lit "program.c"; lit "Dockerfile"; lit "challenge"; lit "meta.json"] ->
  tmp_prefix tpl idx ++ nm <> x.
Proof.
  unfold tmp_prefix. rewrite !elem_of_cons, elem_of_nil.
  intros [-> | [-> | [-> | [-> | []]]]]; by intros [=].
Qed.

Lemma parse_program_c : parse_path (lit "program.c") = MkPath false [lit "program.c"].
Proof. reflexivity. Qed.
Lemma parse_Dockerfile : parse_path (lit "Dockerfile") = MkPath false [lit "Dockerfile"].
Proof. reflexivity. Qed.
Lemma parse_challenge : parse_path (lit "challenge") = MkPath false [lit "challenge"].
Proof. reflexivity. Qed.
Lemma parse_meta_json : parse_path (lit "meta.json") = MkPath false [lit "meta.json"].
Proof. reflexivity. Qed.

Lemma located_join_last p x k :
  located (joinpath p (MkPath false [x])) k -> exists k', k = k' ++ [x].
Proof.
  intros (_ & [k' ->] & _). simpl. exists (k' ++ parts p). by rewrite <- app_assoc.
Qed.

Lemma located_join_abs p x k :
  is_absolute p = true -> located (joinpath p (MkPath false [x])) k -> k = parts p ++ [x].
Proof. intros Ha (_ & _ & Hk). by apply Hk. Qed.

Lemma reserved_ne_tmp t tpl idx nm k x :
  last t = Some (tmp_prefix tpl idx ++ nm) -> x ∈ reserved_names -> k ++ [x] <> t.
Proof.
  intros Hl Hx <-. rewrite last_snoc in Hl. apply (inj Some) in Hl.
  symmetry in Hl. revert Hl. by apply tmp_name_not_reserved.
Qed.

Lemma bin_path_located j k : located (bin_path j) k -> exists k', k = k' ++ [lit "challenge"].
Proof. unfold bin_path. rewrite parse_challenge. apply located_join_last. Qed.

Lemma meta_path_located j k : located (meta_path j) k -> exists k', k = k' ++ [lit "meta.json"].
Proof. unfold meta_path. rewrite parse_meta_json. apply located_join_last. Qed.

(** The [try] block of a job leaves its temporary directory in place. *)
Lemma build_body_keeps_tmp E tpl j tpl' idx nm w r w' :
  is_absolute (tmp j) = true ->
  last (parts (tmp j)) = Some (tmp_prefix tpl' idx ++ nm) ->
  build_body E tpl j w = (r, w') ->
  files w' !! parts (tmp j) = files w !! parts (tmp j).
Proof.
  intros Ha Hl Hb.
  assert (inv (H:=keeps (parts (tmp j))) (build_body E tpl j)) as Hk.
  { apply inv_build_body.
    - split; [done|]. split; [done|]. simpl.
      rewrite parse_program_c, parse_Dockerfile. repeat split.
      + intros k ->%located_join_abs; [|done]. apply snoc_ne_self.
      + intros k ->%located_join_abs; [|done]. apply snoc_ne_self.
      + intros r' _. eapply reserved_ne_tmp; [done|]. unfold reserved_names. set_solver.
    - split; [done|]. intros k [k' ->]%bin_path_located.
      eapply reserved_ne_tmp; [done|]. unfold reserved_names. set_solver.
    - split; [done|]. intros k [k' ->]%meta_path_located.
      eapply reserved_ne_tmp; [done|]. unfold reserved_names. set_solver. }
  specialize (Hk w). by rewrite Hb in Hk.
Qed.

(** The [finally] block removes an existing temporary directory. *)
Lemma build_cleanup_removes j w :
  is_absolute (tmp j) = true -> dotdot ∉ parts (tmp j) ->
  lookup_node (files w) (parts (tmp j)) = Some Dir ->
  build_cleanup j w = (Ok tt, (remove_tree (parts (tmp j)) w).2).
Proof.
  intros Ha Hd Hl. unfold build_cleanup, try_except.
  by rewrite (rmtree_dir _ (parts (tmp j)) w (locate_abs _ _ Ha Hd) Hl).
Qed.

Lemma remove_tree_gone k w q :
  k `prefix_of` q -> files (remove_tree k w).2 !! q = None.
Proof.
  intros Hp. simpl. apply map_lookup_filter_None_2. right. intros n _ Hn. by apply Hn.
Qed.

Lemma remove_tree_other k w q :
  ~ k `prefix_of` q -> files (remove_tree k w).2 !! q = files w !! q.
Proof. intros Hp. by apply (remove_ok (Invariant:=keeps q)). Qed.

(** C6: the temporary build context of a job did not exist before the job,
    is created by its prologue, and whatever the outcome of the job, nothing
    is left at or below it when [build_one] is over. *)
Theorem temporary_context_removed E b tpl idx w j w1 r w' :
  build_prologue E (MkPath true b) tpl idx w = (Ok j, w1) ->
  build_one E (MkPath true b) tpl idx w = (r, w') ->
  files w !! parts (tmp j) = None /\
  files w1 !! parts (tmp j) = Some Dir /\
  forall q, parts (tmp j) `prefix_of` q -> files w' !! q = None.
Proof.
  intros Hpro Hone.
  destruct (build_prologue_Ok _ _ _ _ _ _ _ Hpro)
    as (_ & _ & _ & Hta & Hdt & (nm & Ht) & Hfresh & Htdir & _).
  split; [done|]. split; [done|].
  unfold build_one, bind in Hone. rewrite Hpro in Hone.
  apply try_finally_inv in Hone as (r1 & w2 & Hbody & Hclean).
  assert (last (parts (tmp j)) = Some (tmp_prefix tpl idx ++ nm)) as Hl
    by (by rewrite Ht, last_snoc).
  pose proof (build_body_keeps_tmp _ _ _ _ _ _ _ _ _ Hta Hl Hbody) as Hk.
  rewrite Htdir in Hk.
  assert (lookup_node (files w2) (parts (tmp j)) = Some Dir) as Hn.
  { rewrite lookup_node_ne; [done|]. rewrite Ht. by destruct (tmpdir E). }
  rewrite (build_cleanup_removes j w2 Hta Hdt Hn) in Hclean.
  destruct Hclean as [[[= <-] _] | (e & [=] & _)].
  intros q Hq. by apply remove_tree_gone.
Qed.

(** ** A job whose build fails *)

Lemma build_one_failed_inv E base tpl idx w rc w' :
  build_one E base tpl idx w = (Raise (CalledProcessError rc), w') ->
  exists j w1 w2,
    build_prologue E base tpl idx w = (Ok j, w1) /\
    build_stage E tpl j w1 = (Raise (CalledProcessError rc), w2) /\
    build_cleanup j w2 = (Ok tt, w').
Proof.
  intros [(j & w1 & Hpro & Hf) | (e & Hpro & [= <-])]%bind_inv;
    [|by apply quiet_build_prologue in Hpro].
  apply try_finally_inv in Hf as (r1 & w2 & Hbody & [[Hc <-] | (e & Hc & [= <-])]);
    [|by apply quiet_build_cleanup in Hc].
  exists j, w1, w2. split; [done|]. split; [|done].
  apply bind_inv in Hbody as [(fc & w3 & _ & Hrest) | (e & Hs & [= <-])]; [|done].
  exfalso. assert (quiet (pad_len <- pad_stage j ;; record_stage E tpl j fc.1 fc.2 pad_len)) as Hq.
  { apply quiet_bind; [apply quiet_pad_stage | intros; apply quiet_record_stage]. }
  by apply Hq in Hrest.
Qed.

(** After a job whose build failed, its output directory is there and the
    metadata file in it is what it was before the job. *)
Lemma build_one_failed_frame E b tpl idx w rc w' :
  closed (files w) ->
  build_one E (MkPath true b) tpl idx w = (Raise (CalledProcessError rc), w') ->
  lookup_node (files w') (parts (job_out_dir (MkPath true b) tpl idx)) = Some Dir /\
  files w' !! (parts (job_out_dir (MkPath true b) tpl idx) ++ [lit "meta.json"]) =
  files w !! (parts (job_out_dir (MkPath true b) tpl idx) ++ [lit "meta.json"]).
Proof.
  intros Hc (j & w1 & w2 & Hpro & Hstage & Hclean)%build_one_failed_inv.
  destruct (build_prologue_Ok _ _ _ _ _ _ _ Hpro)
    as (Ho & Hdo & Hol & Hta & Hdt & (nm & Ht) & Hfresh & Htdir & Hnp).
  specialize (Hnp Hc). rewrite Ho in *.
  set (o := parts (job_out_dir (MkPath true b) tpl idx)) in *.
  assert (last (parts (tmp j)) = Some (tmp_prefix tpl idx ++ nm)) as Hl
    by (by rewrite Ht, last_snoc).
  assert (parts (tmp j) <> []) as Htne by (rewrite Ht; by destruct (tmpdir E)).
  (* the build stage keeps every node that is not below the temporary
     directory and is not the exported binary *)
  assert (forall m, ~ parts (tmp j) `prefix_of` m -> m <> o ++ [lit "challenge"] ->
                    files w2 !! m = files w1 !! m) as Hstage_keeps.
  { intros m Hm Hch.
    assert (inv (H:=keeps m) (build_stage E tpl j)) as Hk.
    { apply inv_build_stage. split; [done|]. split; [done|]. simpl.
      rewrite parse_program_c, parse_Dockerfile. repeat split.
      - intros k ->%located_join_abs; [|done]. intros <-. apply Hm. by eexists.
      - intros k ->%located_join_abs; [|done]. intros <-. apply Hm. by eexists.
      - intros r' Hr. rewrite Ho in Hr. rewrite (Hr (job_out_dir_absolute _ _ _)). simpl.
        fold o. rewrite normalize_id by done. done. }
    specialize (Hk w1). by rewrite Hstage in Hk. }
  assert (lookup_node (files w2) (parts (tmp j)) = Some Dir) as Htmp2.
  { rewrite lookup_node_ne by done. rewrite <- Htdir.
    assert (inv (H:=keeps (parts (tmp j))) (build_stage E tpl j)) as Hk.
    { apply inv_build_stage. split; [done|]. split; [done|]. simpl.
      rewrite parse_program_c, parse_Dockerfile. repeat split.
      - intros k ->%located_join_abs; [|done]. apply snoc_ne_self.
      - intros k ->%located_join_abs; [|done]. apply snoc_ne_self.
      - intros r' _. eapply reserved_ne_tmp; [done|]. unfold reserved_names. set_solver. }
    specialize (Hk w1). by rewrite Hstage in Hk. }
  rewrite (build_cleanup_removes j w2 Hta Hdt Htmp2) in Hclean.
  assert (w' = (remove_tree (parts (tmp j)) w2).2) as -> by congruence. clear Hclean.
  split.
  - destruct o as [|x o'] eqn:Eo; [done|]. cbn [lookup_node] in *.
    rewrite remove_tree_other by done. rewrite Hstage_keeps; [done | done |].
    rewrite <- Eo. intros E'. symmetry in E'. by apply snoc_ne_self in E'.
  - assert (~ parts (tmp j) `prefix_of` o ++ [lit "meta.json"]) as Hnm.
    { intros [Hp | Hp]%prefix_snoc_inv; [|done].
      symmetry in Hp. revert Hp. eapply reserved_ne_tmp; [done|].
      unfold reserved_names. set_solver. }
    rewrite remove_tree_other by done.
    rewrite Hstage_keeps; [|done | by apply snoc_ne_last].
    (* the prologue *)
    assert (inv (H:=keeps (o ++ [lit "meta.json"]))
              (build_prologue E (MkPath true b) tpl idx)) as Hk.
    { apply inv_build_prologue. split; [done|]. split; [done|]. split.
      - intros q k Hq Ha (_ & _ & Hk). rewrite job_out_dir_absolute in Ha.
        rewrite (Hk Ha). simpl. intros E'. rewrite E' in Hq. fold o in Hq.
        apply prefix_length in Hq. rewrite length_app in Hq. simpl in Hq. lia.
      - intros nm' k ->%located_join_abs; [|done]. simpl.
        apply snoc_ne_last. apply tmp_name_not_reserved. set_solver. }
    specialize (Hk w). by rewrite Hpro in Hk.
Qed.

(** C9: after a job whose build failed with [CalledProcessError], the output
    directory of the job is a directory, and the [meta.json] in it is what it
    was before the job: none, where there was none. *)
Theorem failed_build_keeps_output_directory E b tpl idx w rc w' :
  closed (files w) ->
  build_one E (MkPath true b) tpl idx w = (Raise (CalledProcessError rc), w') ->
  is_dir (job_out_dir (MkPath true b) tpl idx) w' = (Ok true, w') /\
  files w' !! (parts (job_out_dir (MkPath true b) tpl idx) ++ [lit "meta.json"]) =
  files w !! (parts (job_out_dir (MkPath true b) tpl idx) ++ [lit "meta.json"]).
Proof.
  intros Hc Hb. pose proof Hb as (j & w1 & _ & Hpro & _)%build_one_failed_inv.
  destruct (build_prologue_Ok _ _ _ _ _ _ _ Hpro) as (Ho & Hdo & _).
  destruct (build_one_failed_frame _ _ _ _ _ _ _ Hc Hb) as [Hdir Hmeta].
  split; [|done]. rewrite Ho in Hdo.
  unfold is_dir, try_except, bind.
  by rewrite (stat_intro _ w' _ Dir (locate_abs _ _ (job_out_dir_absolute _ _ _) Hdo) Hdir).
Qed.

Lemma choice_world {A} (l : list A) w x w0 :
  choice l w = (Ok x, w0) ->
  files w0 = files w /\ stdout w0 = stdout w /\ x ∈ l.
Proof.
  destruct l as [|y l']; [done|]. unfold choice, bind, randbelow, bind, draw. simpl.
  destruct (_ !! _) as [x'|] eqn:El; [|done]. intros [= <- <-]. simpl.
  split; [done|]. split; [done|]. by eapply list_elem_of_lookup_2.
Qed.

(** C4: when the build of a job fails with [CalledProcessError], the
    iteration of the driver catches it, prints the failure message once,
    leaves the list of results as it was, writes no [meta.json] for the job
    (the file in the job's directory is what it was before the iteration),
    and the loop goes on with the remaining indices. *)
Theorem failed_build_is_caught_and_logged E b templates i results w tpl w0 rc w1 :
  closed (files w) ->
  choice templates w = (Ok tpl, w0) ->
  build_one E (MkPath true b) tpl i w0 = (Raise (CalledProcessError rc), w1) ->
  exists w2,
    main_step E (MkPath true b) templates i results w = (Ok results, w2) /\
    stdout w2 = stdout w1 ++ [PrintDockerFailed (name tpl) (CalledProcessError rc)] /\
    files w2 = files w1 /\
    files w2 !! (parts (job_out_dir (MkPath true b) tpl i) ++ [lit "meta.json"]) =
    files w !! (parts (job_out_dir (MkPath true b) tpl i) ++ [lit "meta.json"]) /\
    forall rest,
      main_loop E (MkPath true b) templates (i :: rest) results w =
      main_loop E (MkPath true b) templates rest results w2.
Proof.
  intros Hc Hch Hb. destruct (choice_world _ _ _ _ Hch) as (Hf & _ & _).
  rewrite <- Hf in Hc. destruct (build_one_failed_frame _ _ _ _ _ _ _ Hc Hb) as [_ Hmeta].
  eexists. split; [|split; [|split; [|split]]].
  - unfold main_step, bind. rewrite Hch. unfold try_except, bind. rewrite Hb. simpl.
    reflexivity.
  - done.
  - done.
  - simpl. by rewrite Hmeta, Hf.
  - intros rest. simpl. unfold bind at 1. unfold main_step, bind. rewrite Hch.
    unfold try_except, bind. rewrite Hb. done.
Qed.

(** ** The driver loop *)

Lemma reports_none_build_one E base tpl idx :
  inv (H:=reports_none) (build_one E base tpl idx).
Proof.
  unfold build_one. apply inv_bind.
  - apply inv_build_prologue. by repeat split.
  - intros j. apply inv_try_finally.
    + apply inv_build_body; by repeat split.
    + apply inv_build_cleanup. by repeat split.
Qed.

Lemma reports_none_filter_templates ps : inv (H:=reports_none) (filter_templates ps).
Proof.
  induction ps as [|p ps IH]; simpl; [apply inv_ret|].
  apply inv_bind; [apply inv_is_file | intros f].
  apply inv_bind; [apply IH | intros; apply inv_ret].
Qed.

Lemma reports_none_list_templates base : inv (H:=reports_none) (list_templates base).
Proof.
  unfold list_templates. apply inv_bind; [apply inv_exists | intros ex].
  destruct (negb ex); [apply inv_raise|].
  apply inv_bind; [apply inv_iterdir | intros ps].
  apply inv_bind; [apply reports_none_filter_templates | intros; apply inv_ret].
Qed.

Lemma reports_none_print_all rs : inv (H:=reports_none) (print_all rs).
Proof.
  induction rs as [|r rs IH]; simpl; [apply inv_ret|].
  apply inv_bind; [by apply inv_print | intros; apply IH].
Qed.

Lemma quiet_filter_templates ps : quiet (filter_templates ps).
Proof. induction ps as [|p ps IH]; simpl; quiet_tac. Qed.

Lemma quiet_list_templates base : quiet (list_templates base).
Proof.
  unfold list_templates. pose proof quiet_filter_templates. quiet_tac.
  unfold iterdir. quiet_tac.
Qed.

Lemma quiet_print_all rs : quiet (print_all rs).
Proof. induction rs as [|r rs IH]; simpl; quiet_tac. Qed.

Lemma main_step_counted E base templates i results w :
  counted 1 results w (main_step E base templates i results w).
Proof.
  unfold main_step, bind.
  pose proof (quiet_choice templates w) as Hq.
  pose proof (inv_choice (H:=reports_none) templates I w) as Hi.
  destruct (choice templates w) as [[tpl|e] w0]; [|by eapply Hq].
  simpl in Hi. unfold try_except, bind.
  pose proof (reports_none_build_one E base tpl i w0) as Hb.
  destruct (build_one E base tpl i w0) as [[r|e] w1]; simpl in *.
  - rewrite length_app. simpl. lia.
  - destruct (handles_CalledProcessError e) eqn:He; simpl; [|done].
    unfold failed_logged in *. simpl. rewrite List.filter_app, length_app. simpl. lia.
Qed.

Lemma main_loop_counted E base templates idxs results w :
  counted (length idxs) results w (main_loop E base templates idxs results w).
Proof.
  revert results w. induction idxs as [|i rest IH]; intros results w; simpl.
  - lia.
  - unfold bind. pose proof (main_step_counted E base templates i results w) as Hs.
    destruct (main_step E base templates i results w) as [[rs1|e] w1]; [|done].
    pose proof (IH rs1 w1) as Hl.
    destruct (main_loop E base templates rest rs1 w1) as [[rs2|e] w2]; [|done].
    simpl in *. lia.
Qed.

Lemma counted_bind {A} (c : IO A) (k : A -> IO (list meta_out)) n rs w :
  quiet c -> inv (H:=reports_none) c ->
  (forall a w1, counted n rs w1 (k a w1)) ->
  counted n rs w (bind c k w).
Proof.
  intros Hq Hi Hk. unfold bind. specialize (Hi w). specialize (Hq w).
  destruct (c w) as [[a|e] w1]; [|by eapply Hq].
  specialize (Hk a w1). simpl in Hi. unfold counted in *.
  destruct (k a w1) as [[rs'|e] w2]; [|done]. by rewrite <- Hi.
Qed.

Lemma counted_then {A} (c : IO A) n rs w rs' w1 :
  quiet c -> inv (H:=reports_none) c ->
  counted n rs w (Ok rs', w1) ->
  counted n rs w ((_ <- c ;; ret rs') w1).
Proof.
  intros Hq Hi Hc. unfold bind. specialize (Hi w1). specialize (Hq w1).
  destruct (c w1) as [[a|e] w2]; [|by eapply Hq].
  simpl in *. by rewrite Hi.
Qed.


(** ** Padding and the metadata record *)

Lemma exists_true p w n : stat p w = (Ok n, w) -> exists_ p w = (Ok true, w).
Proof. intros E. unfold exists_, try_except, bind. by rewrite E. Qed.

Lemma urandom_loop_spec n w :
  exists bs w', urandom_loop n w = (Ok bs, w') /\ length bs = n /\
    files w' = files w /\ cwd w' = cwd w /\ cwd_ok w' = cwd_ok w.
Proof.
  revert w. induction n as [|n IH]; intros w; simpl.
  - by exists [], w.
  - unfold bind at 1. unfold randbelow, bind, draw. simpl.
    match goal with |- context [urandom_loop n ?w0] => destruct (IH w0) as (bs & w' & E & Hl & Hf) end.
    unfold bind. rewrite E. eexists _, _. split; [done|]. simpl. split; [by rewrite Hl | done].
Qed.

(** Writing text to a file: the key gets the encoded text, everything else
    stays. *)
Lemma write_text_Ok p s w w' :
  write_text p s w = (Ok tt, w') ->
  exists k b m,
    locate p w = (Ok k, w) /\ utf8_encode s = Some b /\
    files w' = <[k := File b m]> (files w) /\ cwd w' = cwd w /\ cwd_ok w' = cwd_ok w.
Proof.
  unfold write_text. intros (k & w1 & Ek & H)%bind_inv_Ok.
  pose proof (locate_world _ _ _ _ Ek) as ->.
  apply bind_inv_Ok in H as (c & w2 & Eo & H).
  apply bind_inv_Ok in H as (b & w3 & Eb & H).
  unfold of_option in Eb. destruct (utf8_encode s) as [b'|] eqn:Eu; [|done].
  injection Eb as <- <-.
  assert (exists m, files w2 = <[k := File [] m]> (files w) /\ cwd w2 = cwd w /\
                    cwd_ok w2 = cwd_ok w) as (m & Hf & Hc & Ho).
  { unfold open_write, bind, get_world in Eo. simpl in Eo.
    destruct (lookup_node (files w) k) as [[c0 m0|]|] eqn:El.
    - injection Eo as <- <-. by exists m0.
    - done.
    - destruct (lookup_node (files w) (removelast k)) as [[|]|]; [done| |done].
      injection Eo as <- <-. by eexists. }
  unfold put_content, bind, get_world in H. simpl in H.
  rewrite Hf, lookup_insert_eq in H. injection H as <-. simpl.
  exists k, b', m. rewrite Hf, insert_insert_eq. done.
Qed.

Lemma bind_Ok {A B} (c : IO A) (k : A -> IO B) w a w1 :
  c w = (Ok a, w1) -> bind c k w = k a w1.
Proof. intros E. unfold bind. by rewrite E. Qed.

Lemma randint_Ok a b w :
  a <= b ->
  exists n w', randint a b w = (Ok n, w') /\ a <= n <= b /\
    files w' = files w /\ cwd w' = cwd w /\ cwd_ok w' = cwd_ok w.
Proof.
  intros Hab. unfold randint. replace (b <? a) with false by (symmetry; apply Z.ltb_ge; lia).
  unfold bind, randbelow, bind, draw. simpl. eexists _, _. split; [done|]. simpl.
  split; [|done]. pose proof (Z.mod_pos_bound (tape w (cursor w)) (b - a + 1)). lia.
Qed.

Lemma urandom_Ok n w :
  0 <= n ->
  exists bs w', urandom n w = (Ok bs, w') /\ len bs = n /\
    files w' = files w /\ cwd w' = cwd w /\ cwd_ok w' = cwd_ok w.
Proof.
  intros Hn. unfold urandom. replace (n <? 0) with false by (symmetry; apply Z.ltb_ge; lia).
  destruct (urandom_loop_spec (Z.to_nat n) w) as (bs & w' & E & Hl & H).
  exists bs, w'. split; [done|]. split; [|done]. unfold len. lia.
Qed.

(** Appending to a file that is there. *)
Lemma open_append_Ok k w c m :
  files w !! k = Some (File c m) -> k <> [] ->
  exists w', open_write true k w = (Ok c, w') /\
    files w' = files w /\ cwd w' = cwd w /\ cwd_ok w' = cwd_ok w.
Proof.
  intros Hl Hk. unfold open_write, bind, get_world. simpl.
  rewrite lookup_node_ne, Hl by done. simpl. eexists. split; [done|]. simpl.
  split; [|done]. by apply insert_id.
Qed.

Lemma put_content_Ok k w c c0 m :
  files w !! k = Some (File c0 m) ->
  exists w', put_content k c w = (Ok tt, w') /\
    files w' = <[k := File c m]> (files w) /\ cwd w' = cwd w /\ cwd_ok w' = cwd_ok w.
Proof.
  intros Hl. unfold put_content, bind, get_world. simpl. rewrite Hl. by eexists.
Qed.

(** The padding step on a binary that is there, with a positive ceiling. *)
Lemma pad_stage_Ok j w b m c :
  stat (bin_path j) w = (Ok (File b m), w) ->
  pad_max j = JInt c -> 0 < c ->
  exists n extra w',
    pad_stage j w = (Ok n, w') /\ 0 <= n <= c /\ len extra = n /\
    stat (bin_path j) w' = (Ok (File (b ++ extra) m), w') /\
    cwd w' = cwd w /\ cwd_ok w' = cwd_ok w.
Proof.
  intros Hs Hp Hc. pose proof Hs as (k & Hk & Hl)%stat_Ok.
  assert (exists k', k = k' ++ [lit "challenge"]) as [k' ->].
  { eapply bin_path_located. by eapply post_locate. }
  rewrite lookup_node_snoc in Hl.
  unfold pad_stage. rewrite (bind_Ok _ _ _ _ _ (exists_true _ _ _ Hs)).
  rewrite Hp. simpl truthy. replace (negb (c =? 0)) with true
    by (symmetry; apply negb_true_iff, Z.eqb_neq; lia).
  simpl andb. cbv iota. unfold gt_zero, as_int.
  rewrite (bind_Ok _ _ w (0 <? c) w) by done.
  replace (0 <? c) with true by (symmetry; apply Z.ltb_lt; lia).
  rewrite (bind_Ok _ _ w c w) by done.
  destruct (randint_Ok 0 c w ltac:(lia)) as (n & w0 & Er & Hn & Hf0 & Hc0 & Ho0).
  rewrite (bind_Ok _ _ _ _ _ Er).
  assert (locate (bin_path j) w0 = (Ok (k' ++ [lit "challenge"]), w0)) as Hk0
    by (by apply (locate_transfer _ w)).
  destruct (n =? 0) eqn:En; simpl negb; cbv iota.
  - apply Z.eqb_eq in En. exists n, [], w0. unfold bind, ret.
    split; [done|]. split; [lia|]. split; [by rewrite En|].
    rewrite app_nil_r. split; [|done].
    apply (stat_intro _ _ _ _ Hk0). by rewrite lookup_node_snoc, Hf0.
  - apply Z.eqb_neq in En. rewrite <- Hf0 in Hl.
    destruct (open_append_Ok _ _ _ _ Hl ltac:(by destruct k')) as (w1 & Eo & Hf1 & Hc1 & Ho1).
    destruct (urandom_Ok n w1 ltac:(lia)) as (bs & w2 & Eu & Hlen & Hf2 & Hc2 & Ho2).
    rewrite <- Hf1, <- Hf2 in Hl.
    destruct (put_content_Ok _ _ (b ++ bs) _ _ Hl) as (w3 & Ep & Hf3 & Hc3 & Ho3).
    exists n, bs, w3. split.
    { rewrite (bind_Ok _ _ w0 tt w3); [done|].
      rewrite (bind_Ok _ _ _ _ _ Hk0), (bind_Ok _ _ _ _ _ Eo), (bind_Ok _ _ _ _ _ Eu).
      done. }
    split; [lia|]. split; [done|]. split; [|split; congruence].
    apply (stat_intro _ _ (k' ++ [lit "challenge"])).
    + apply (locate_transfer _ w); [congruence..|done].
    + by rewrite lookup_node_snoc, Hf3, lookup_insert_eq.
Qed.

(** C3: in a job whose build left a binary and whose padding ceiling is a
    positive integer, the padding step succeeds; the binary afterwards is the
    binary before followed by [n] more bytes, [n] lies in [0, ceiling], and
    the metadata record of the job (also as written to [meta.json]) has [n]
    as its pad count. *)
Theorem padding_is_additive E tpl j w fc w1 b m c :
  build_stage E tpl j w = (Ok fc, w1) ->
  stat (bin_path j) w1 = (Ok (File b m), w1) ->
  pad_max j = JInt c -> 0 < c ->
  exists n extra w2,
    pad_stage j w1 = (Ok n, w2) /\
    build_body E tpl j w = record_stage E tpl j fc.1 fc.2 n w2 /\
    0 <= n <= c /\ len extra = n /\
    stat (bin_path j) w2 = (Ok (File (b ++ extra) m), w2) /\
    len (b ++ extra) = len b + n /\
    forall r w3,
      build_body E tpl j w = (Ok r, w3) ->
      pad r = n /\
      stat (bin_path j) w3 = (Ok (File (b ++ extra) m), w3) /\
      exists text,
        utf8_encode (json_dumps E (meta_json r)) = Some text /\
        read_bytes (meta_path j) w3 = (Ok text, w3).
Proof.
  intros Hb Hs Hp Hc.
  destruct (pad_stage_Ok _ _ _ _ _ Hs Hp Hc) as (n & extra & w2 & Epad & Hn & Hlen & Hs2 & Hc2 & Ho2).
  exists n, extra, w2.
  assert (build_body E tpl j w = record_stage E tpl j fc.1 fc.2 n w2) as Hbody.
  { unfold build_body. by rewrite (bind_Ok _ _ _ _ _ Hb), (bind_Ok _ _ _ _ _ Epad). }
  split; [done|]. split; [done|]. split; [done|]. split; [done|]. split; [done|].
  split. { unfold len in *. rewrite length_app. lia. }
  intros r w3. rewrite Hbody. unfold record_stage.
  intros ([] & w4 & Ew & H)%bind_inv_Ok.
  apply bind_inv_Ok in H as ([] & w5 & Epr & H). injection H as <- <-.
  injection Epr as <-.
  apply write_text_Ok in Ew as (km & text & mm & Ekm & Ht & Hf & Hcw & Hok).
  split; [done|].
  pose proof Hs2 as (k & Hk & Hl)%stat_Ok.
  assert (exists k', k = k' ++ [lit "challenge"]) as [k' ->].
  { eapply bin_path_located. by eapply post_locate. }
  assert (exists k2, km = k2 ++ [lit "meta.json"]) as [k2 ->].
  { eapply meta_path_located. by eapply post_locate. }
  set (w5 := MkWorld _ _ _ _ _ _).
  split.
  - apply (stat_intro _ _ (k' ++ [lit "challenge"])).
    + by apply (locate_transfer _ w2).
    + rewrite lookup_node_snoc in *. simpl. rewrite Hf, lookup_insert_ne; [done|].
      intros [_ [=]]%app_inj_tail.
  - exists text. split; [done|]. unfold read_bytes.
    rewrite (bind_Ok _ _ w5 (File text mm) w5); [done|].
    apply (stat_intro _ _ (k2 ++ [lit "meta.json"])).
    + by apply (locate_transfer _ w2).
    + rewrite lookup_node_snoc. simpl. by rewrite Hf, lookup_insert_eq.
Qed.

(** ** Keys *)

Lemma locate_key p w k w' : locate p w = (Ok k, w') -> k = key_of p w /\ w' = w.
Proof.
  unfold locate, key_of. destruct (bool_decide _); [done|].
  destruct (is_absolute p); [by intros [= <- <-]|].
  unfold bind, getcwd. destruct (cwd_ok w); [|done]. by intros [= <- <-].
Qed.

Lemma key_of_parent p w : key_of (parent p) w `prefix_of` key_of p w.
Proof.
  unfold key_of, parent. simpl. apply prefix_app.
  destruct (parts p) as [|x l] using rev_ind; [done|].
  rewrite removelast_last. by eexists.
Qed.

Lemma key_of_same p w w' : cwd w' = cwd w -> key_of p w' = key_of p w.
Proof. unfold key_of. by intros ->. Qed.

Lemma key_of_join p x w : key_of (joinpath p (MkPath false [x])) w = key_of p w ++ [x].
Proof. unfold key_of, joinpath. simpl. by rewrite app_assoc. Qed.

(** ** What [mkdir] changes *)

Lemma dirs_added_refl ko w : dirs_added ko w w.
Proof. split; [by left | done]. Qed.

Lemma dirs_added_trans ko w1 w2 w3 :
  dirs_added ko w1 w2 -> dirs_added ko w2 w3 -> dirs_added ko w1 w3.
Proof.
  intros (H1 & Ha1 & Hb1 & Hc1) (H2 & Ha2 & Hb2 & Hc2).
  split; [|repeat split; congruence].
  intros q. destruct (H1 q) as [E1 | (E1 & E1' & ?)], (H2 q) as [E2 | (E2 & E2' & ?)].
  - left. congruence.
  - right. split; [congruence | done].
  - right. split; [done|]. split; [congruence | done].
  - congruence.
Qed.

Lemma os_mkdir_dirs p w r w' ko :
  os_mkdir p w = (r, w') -> key_of p w `prefix_of` ko -> dirs_added ko w w'.
Proof.
  intros [(_ & k & Ek & Hn & _ & ->) | [_ ->]]%os_mkdir_inv Hp; [|apply dirs_added_refl].
  apply locate_key in Ek as [-> _]. split; [|done]. intros q. simpl.
  destruct (decide (key_of p w = q)) as [<- | Hne].
  - right. rewrite lookup_insert_eq. split; [|done].
    by destruct (key_of p w).
  - left. by rewrite lookup_insert_ne.
Qed.

Lemma mkdir_one_dirs ok p w r w' ko :
  mkdir_one ok p w = (r, w') -> key_of p w `prefix_of` ko -> dirs_added ko w w'.
Proof.
  intros [-> | E]%mkdir_one_inv Hp; [apply dirs_added_refl | by eapply os_mkdir_dirs].
Qed.

Lemma mkdir_parents_dirs fuel ok p w r w' ko :
  mkdir_parents fuel ok p w = (r, w') -> key_of p w `prefix_of` ko -> dirs_added ko w w'.
Proof.
  revert ok p w r w'. induction fuel as [|fuel IH]; intros ok p w r w'; simpl;
    intros [(a & E & ->) | [(e & E & _ & ->) | (e & w1 & E & _ & Hh)]]%try_except_inv Hp;
    try (by eapply mkdir_one_dirs).
  - injection Hh as _ <-. by eapply mkdir_one_dirs.
  - pose proof (mkdir_one_dirs _ _ _ _ _ _ E Hp) as H1.
    destruct (parts p) eqn:Ep; [injection Hh as _ <-; done|].
    assert (key_of (parent p) w1 `prefix_of` ko) as Hpp.
    { destruct H1 as (_ & Hc & _). rewrite (key_of_same _ _ _ Hc).
      etrans; [apply key_of_parent | done]. }
    apply bind_inv in Hh as [(a & w2 & E2 & Hh) | (e' & E2 & _)].
    + pose proof (IH _ _ _ _ _ E2 Hpp) as H2.
      eapply dirs_added_trans; [done|]. eapply dirs_added_trans; [done|].
      eapply mkdir_one_dirs; [done|].
      destruct H1 as (_ & Hc1 & _), H2 as (_ & Hc2 & _).
      rewrite (key_of_same p w w2); [done | congruence].
    + eapply dirs_added_trans; [done|]. by eapply IH.
Qed.

Lemma mkdir_dirs par ok p w r w' :
  mkdir par ok p w = (r, w') -> dirs_added (key_of p w) w w'.
Proof.
  unfold mkdir. destruct par; intros E;
    [by eapply mkdir_parents_dirs | by eapply mkdir_one_dirs].
Qed.

(** ** [exists] *)

Lemma exists_inv p w b w' :
  exists_ p w = (Ok b, w') ->
  w' = w /\ if b then exists n, stat p w = (Ok n, w)
            else stat p w = (Raise FileNotFoundError, w).
Proof.
  unfold exists_, try_except, bind. destruct (stat p w) as [[n|e] w1] eqn:E;
    pose proof (stat_world _ _ _ _ E) as ->.
  - intros [= <- <-]. split; [done | by eexists].
  - destruct e; simpl; try done. by intros [= <- <-].
Qed.

Lemma stat_key p w n w' :
  stat p w = (Ok n, w') -> lookup_node (files w) (key_of p w) = Some n.
Proof. intros (k & [-> _]%locate_key & H)%stat_Ok. done. Qed.

Lemma stat_missing p w w' :
  stat p w = (Raise FileNotFoundError, w') ->
  cwd_ok w = true \/ is_absolute p = true ->
  lookup_node (files w) (key_of p w) = None.
Proof.
  unfold stat, bind, locate, key_of. destruct (bool_decide _); [done|].
  destruct (is_absolute p); simpl.
  - destruct (lookup_node _ _); done.
  - unfold bind, getcwd. intros H [Hc | ?]; [|done]. rewrite Hc in H. simpl in H.
    by destruct (lookup_node _ _).
Qed.

(** Below a directory that is not there, a closed file system has nothing. *)
Lemma closed_nothing_below f k x r :
  closed f -> lookup_node f k = None -> f !! (k ++ x :: r) = None.
Proof.
  intros Hc Hk. destruct (f !! (k ++ x :: r)) as [n0|] eqn:E; [|done].
  assert (is_Some (f !! k)) as [n Hn].
  { eapply closed_ancestor; [done | by eexists | by eexists | by destruct k]. }
  destruct k; [done|]. simpl in Hk. congruence.
Qed.

Lemma remove_tree_closed k w : closed (files w) -> closed (files (remove_tree k w).2).
Proof.
  intros Hc q x [n Hn]. simpl in *.
  apply map_lookup_filter_Some in Hn as [Hn Hk]. simpl in Hk.
  assert (lookup_node (files w) q = Some Dir) as Hq by (apply (Hc q x); by eexists).
  destruct q as [|y q]; [done|]. simpl in *.
  apply map_lookup_filter_Some. split; [done|]. simpl.
  intros Hp. apply Hk. etrans; [done|]. by exists [x].
Qed.

Lemma rmtree_Ok p w w' :
  rmtree p w = (Ok tt, w') ->
  lookup_node (files w) (key_of p w) = Some Dir /\ w' = (remove_tree (key_of p w) w).2.
Proof.
  unfold rmtree. intros (k & w1 & Ek & H)%bind_inv_Ok.
  apply locate_key in Ek as [-> ->].
  apply bind_inv_Ok in H as (n & w2 & En & H).
  pose proof (stat_world _ _ _ _ En) as ->. apply stat_key in En.
  destruct n; [done|]. split; [done|]. by injection H as <-.
Qed.

Lemma prepare_build_context_eq entries wsp out w :
  prepare_build_context entries wsp out w =
  (_ <- recreate out ;; copy_entries entries wsp out) w.
Proof.
  unfold prepare_build_context, recreate, bind.
  destruct (exists_ out w) as [[ex|e] w1]; [|done].
  destruct (if ex then rmtree out else ret tt) as [[[]|e] w2]; [|done].
  by destruct (mkdir true true out w2) as [[[]|e] w3].
Qed.

Lemma prefix_longer {A} (k : list A) x r : ~ (k ++ x :: r) `prefix_of` k.
Proof.
  intros H%prefix_length. rewrite length_app in H. simpl in H. lia.
Qed.

Lemma recreate_Ok out w w1 :
  wf w -> recreate out w = (Ok tt, w1) -> fresh (key_of out w) w w1.
Proof.
  intros [Hc Hcwd]. unfold recreate.
  intros (ex & w0 & [-> Hex]%exists_inv & H)%bind_inv_Ok.
  apply bind_inv_Ok in H as ([] & w0 & Erm & Emk).
  pose proof (mkdir_dirs _ _ _ _ _ _ Emk) as (Hd & Hdc & Hdo & Hds).
  pose proof (mkdir_closed _ _ _ _ _ _ Emk) as Hmc.
  pose proof (mkdir_Ok _ _ _ _ _ Emk) as Hst.
  pose proof Hst as Hdir%stat_key. rewrite (key_of_same _ _ _ Hdc) in Hdir.
  destruct ex.
  - apply rmtree_Ok in Erm as [Hko Ew0].
    assert (cwd w0 = cwd w) as Hcw by (by rewrite Ew0).
    rewrite (key_of_same out w w0 Hcw) in Hd, Hdir. subst w0.
    split; try done.
    + intros x r. destruct (Hd (key_of out w ++ x :: r)) as [-> | (_ & _ & Hp)].
      * apply remove_tree_gone. by eexists.
      * by apply prefix_longer in Hp.
    + apply Hmc. by apply remove_tree_closed.
    + rewrite Hdo. simpl. intros [? Hb%negb_true_iff]%andb_true_iff.
      split; [done|]. by apply bool_decide_eq_false in Hb.
    + intros q c m Hq. destruct (Hd q) as [Hq' | (_ & ? & _)]; [|congruence].
      rewrite Hq' in Hq. simpl in Hq. by apply map_lookup_filter_Some in Hq as [? _].
  - injection Erm as <-.
    assert (lookup_node (files w) (key_of out w) = None) as Hno.
    { eapply stat_missing; [done|]. rewrite <- Hdo.
      apply stat_Ok in Hst as (k & Hk & _). unfold locate in Hk.
      destruct (bool_decide _); [done|]. destruct (is_absolute out); [by right | left].
      unfold bind, getcwd in Hk. by destruct (cwd_ok w1). }
    split; try done.
    + intros x r. destruct (Hd (key_of out w ++ x :: r)) as [-> | (_ & _ & Hp)].
      * by apply closed_nothing_below.
      * by apply prefix_longer in Hp.
    + by apply Hmc.
    + rewrite Hdo. intros Hok. split; [done|]. intros [r Hp].
      specialize (Hcwd Hok). rewrite Hp in Hcwd. destruct r as [|x r].
      * rewrite app_nil_r in Hcwd. congruence.
      * rewrite lookup_node_ne in Hcwd by (by destruct (key_of out w)).
        rewrite closed_nothing_below in Hcwd; done.
    + intros q c m Hq. destruct (Hd q) as [Hq' | (_ & ? & _)]; congruence.
Qed.

(** ** Exceptions that end neither script *)

Section PlainRules.
Context {A B : Type}.

Lemma plain_ret (a : A) : plain (ret a).
Proof. intros w e w' [=]. Qed.

Lemma plain_raise e : fatal e = false -> plain (raise (A:=A) e).
Proof. intros ? w e' w' [= <- _]. done. Qed.

Lemma plain_bind (c : IO A) (k : A -> IO B) :
  plain c -> (forall a, plain (k a)) -> plain (bind c k).
Proof.
  intros Hc Hk w e w'. unfold bind. destruct (c w) as [[a|e'] w1] eqn:E.
  - apply Hk.
  - intros [= <- <-]. by eapply Hc.
Qed.

Lemma plain_try_except (body : IO A) H (handler : exn -> IO A) :
  plain body -> (forall e, H e = true -> plain (handler e)) ->
  plain (try_except body H handler).
Proof.
  intros Hb Hh w e w'. unfold try_except. destruct (body w) as [[a|e'] w1] eqn:E; [done|].
  destruct (H e') eqn:He; [by apply Hh|]. intros [= <- <-]. by eapply Hb.
Qed.

Lemma plain_total (c : IO A) : (forall w, exists a w', c w = (Ok a, w')) -> plain c.
Proof. intros Hc w e w' E. destruct (Hc w) as (a & w1 & E'). congruence. Qed.

End PlainRules.

Create HintDb plain discriminated.

Ltac plain_step :=
  match goal with
  | |- plain (bind _ _) => apply plain_bind; [|intros]
  | |- plain (ret _) => apply plain_ret
  | |- plain (raise ?e) => apply plain_raise; first [reflexivity | by destruct e]
  | |- plain (try_except _ _ _) => apply plain_try_except; [|intros]
  | |- plain (of_option _ _) => unfold of_option
  | |- plain (if ?b then _ else _) => destruct b
  | |- plain (match ?x with _ => _ end) => destruct x
  | |- plain _ => solve [auto with plain]
  end.

Ltac plain_tac := repeat plain_step.

Lemma plain_get_world : plain get_world.
Proof. apply plain_total. intros w. by eexists _, _. Qed.

Lemma plain_insert_node k n : plain (insert_node k n).
Proof. apply plain_total. intros w. by eexists _, _. Qed.

Lemma plain_remove_tree k : plain (remove_tree k).
Proof. apply plain_total. intros w. by eexists _, _. Qed.

Lemma plain_getcwd : plain getcwd.
Proof. intros w e w'. unfold getcwd. destruct (cwd_ok w); [done|]. by intros [= <- _]. Qed.
#[global] Hint Resolve plain_get_world plain_insert_node plain_remove_tree plain_getcwd : plain.

Lemma plain_locate p : plain (locate p).
Proof. unfold locate. plain_tac. Qed.
#[global] Hint Resolve plain_locate : plain.

Lemma plain_stat p : plain (stat p).
Proof. unfold stat. plain_tac. Qed.
#[global] Hint Resolve plain_stat : plain.

Lemma plain_exists p : plain (exists_ p).
Proof. unfold exists_. plain_tac. Qed.

Lemma plain_is_dir p : plain (is_dir p).
Proof. unfold is_dir. plain_tac. Qed.

Lemma plain_resolve p : plain (resolve p).
Proof. unfold resolve. plain_tac. Qed.
#[global] Hint Resolve plain_exists plain_is_dir plain_resolve : plain.

Lemma plain_os_mkdir p : plain (os_mkdir p).
Proof. unfold os_mkdir. plain_tac. Qed.
#[global] Hint Resolve plain_os_mkdir : plain.

Lemma plain_mkdir_one ok p : plain (mkdir_one ok p).
Proof. unfold mkdir_one. plain_tac. Qed.
#[global] Hint Resolve plain_mkdir_one : plain.

Lemma plain_mkdir_parents fuel ok p : plain (mkdir_parents fuel ok p).
Proof. revert ok p. induction fuel; intros; simpl; plain_tac. Qed.
#[global] Hint Resolve plain_mkdir_parents : plain.

Lemma plain_mkdir par ok p : plain (mkdir par ok p).
Proof. unfold mkdir. plain_tac. Qed.

Lemma plain_rmtree p : plain (rmtree p).
Proof. unfold rmtree. plain_tac. Qed.

Lemma plain_open_write keep k : plain (open_write keep k).
Proof. unfold open_write. plain_tac. Qed.
#[global] Hint Resolve plain_mkdir plain_rmtree plain_open_write : plain.

Lemma plain_open_owned keep k : plain (open_owned keep k).
Proof. unfold open_owned. plain_tac. Qed.
#[global] Hint Resolve plain_open_owned : plain.

Lemma plain_copy2 src dst : plain (copy2 src dst).
Proof. unfold copy2. plain_tac. Qed.

Lemma plain_st_mode p : plain (st_mode p).
Proof. unfold st_mode. plain_tac. Qed.

Lemma plain_chmod p m : plain (chmod p m).
Proof. unfold chmod. plain_tac. Qed.

Lemma plain_recreate out : plain (recreate out).
Proof. unfold recreate. plain_tac. Qed.
#[global] Hint Resolve plain_copy2 plain_st_mode plain_chmod plain_recreate : plain.

(** ** One entry of the manifest *)

Lemma resolve_world p w r w' : resolve p w = (r, w') -> w' = w.
Proof.
  unfold resolve, bind. destruct (is_absolute p); simpl; [by intros [= _ <-]|].
  unfold getcwd. destruct (cwd_ok w); by intros [= _ <-].
Qed.

Lemma exists_world p w r w' : exists_ p w = (r, w') -> w' = w.
Proof.
  unfold exists_, try_except, bind. destruct (stat p w) as [[n|e] w1] eqn:E;
    apply stat_world in E as ->; [by intros [= _ <-]|].
  destruct (handles_FileNotFound e); by intros [= _ <-].
Qed.

Lemma copy_entries_cons nm rel rest wsp out w src :
  resolve (joinpath wsp rel) w = (Ok src, w) ->
  copy_entries ((nm, rel) :: rest) wsp out w =
  (ex <- exists_ src ;;
   if negb ex then raise (SystemExit (lit "Source file not found: " ++ path_str src))
   else _ <- install src (joinpath out (parse_path nm)) ;; copy_entries rest wsp out) w.
Proof.
  intros Er. simpl. rewrite (bind_Ok _ _ _ _ _ Er). unfold bind, install.
  destruct (exists_ src w) as [[[]|e] w1]; [|done..]. simpl.
  unfold bind. destruct (copy2 _ _ w1) as [[[]|e] w2]; [|done].
  destruct (st_mode _ w2) as [[m|e] w3]; [|done].
  by destruct (chmod _ _ w3) as [[[]|e] w4].
Qed.

Lemma copy_entries_step nm rel rest wsp out w src w1 :
  resolve (joinpath wsp rel) w = (Ok src, w) ->
  exists_ src w = (Ok true, w) ->
  install src (joinpath out (parse_path nm)) w = (Ok tt, w1) ->
  copy_entries ((nm, rel) :: rest) wsp out w = copy_entries rest wsp out w1.
Proof.
  intros Er Ee Ei. rewrite (copy_entries_cons _ _ _ _ _ _ _ Er).
  rewrite (bind_Ok _ _ _ _ _ Ee). simpl. by rewrite (bind_Ok _ _ _ _ _ Ei).
Qed.

Lemma copy_entries_cons_Ok nm rel rest wsp out w w' :
  copy_entries ((nm, rel) :: rest) wsp out w = (Ok tt, w') ->
  exists src w1,
    resolve (joinpath wsp rel) w = (Ok src, w) /\
    exists_ src w = (Ok true, w) /\
    install src (joinpath out (parse_path nm)) w = (Ok tt, w1) /\
    copy_entries rest wsp out w1 = (Ok tt, w').
Proof.
  intros H. destruct (resolve (joinpath wsp rel) w) as [[src|e] w0] eqn:Er.
  2: { simpl in H. unfold bind at 1 in H. by rewrite Er in H. }
  pose proof (resolve_world _ _ _ _ Er) as ->.
  rewrite (copy_entries_cons _ _ _ _ _ _ _ Er) in H.
  apply bind_inv_Ok in H as (ex & w0 & Ee & H).
  pose proof (exists_world _ _ _ _ Ee) as ->.
  destruct ex; [|done]. simpl in H.
  apply bind_inv_Ok in H as ([] & w1 & Ei & H). by exists src, w1.
Qed.

(** A run of the loop that ends with [SystemExit] has met a missing source,
    after the entries before it were installed. *)
Lemma copy_entries_exit entries wsp out w msg w' :
  copy_entries entries wsp out w = (Raise (SystemExit msg), w') ->
  exists pre nm rel post src,
    entries = pre ++ (nm, rel) :: post /\
    copy_entries pre wsp out w = (Ok tt, w') /\
    resolve (joinpath wsp rel) w' = (Ok src, w') /\
    exists_ src w' = (Ok false, w') /\
    msg = lit "Source file not found: " ++ path_str src.
Proof.
  revert w. induction entries as [|[nm rel] rest IH]; intros w H; [done|].
  destruct (resolve (joinpath wsp rel) w) as [[src|e] w0] eqn:Er.
  2: { simpl in H. unfold bind at 1 in H. rewrite Er in H. injection H as -> _.
       by apply plain_resolve in Er. }
  pose proof (resolve_world _ _ _ _ Er) as ->.
  pose proof H as H'. rewrite (copy_entries_cons _ _ _ _ _ _ _ Er) in H.
  apply bind_inv in H as [(ex & w0 & Ee & H) | (e & Ee & [= <-])];
    [|by apply plain_exists in Ee].
  pose proof (exists_world _ _ _ _ Ee) as ->. destruct ex; simpl in H.
  - apply bind_inv in H as [([] & w1 & Ei & H) | (e & Ei & [= <-])].
    + destruct (IH _ H) as (pre & nm' & rel' & post & src' & -> & Hpre & Hr & Hx & ->).
      exists ((nm, rel) :: pre), nm', rel', post, src'. split; [done|].
      split; [|done]. by rewrite (copy_entries_step _ _ _ _ _ _ _ _ Er Ee Ei).
    + assert (plain (install src (joinpath out (parse_path nm)))) as Hp
        by (unfold install; plain_tac).
      by apply Hp in Ei.
  - injection H as <- <-. by exists [], nm, rel, rest, src.
Qed.

(** ** Installing into a flat directory *)

Lemma open_write_Ok keep k w c w' :
  open_write keep k w = (Ok c, w') ->
  exists m, files w' = <[k := File c m]> (files w) /\
            cwd w' = cwd w /\ cwd_ok w' = cwd_ok w /\ stdout w' = stdout w.
Proof.
  unfold open_write, bind, get_world. simpl.
  destruct (lookup_node (files w) k) as [[c0 m0|]|] eqn:El.
  - intros [= <- <-]. by exists m0.
  - done.
  - destruct (lookup_node (files w) (removelast k)) as [[|]|]; [done| |done].
    intros [= <- <-]. by eexists.
Qed.

Lemma open_owned_Ok keep k w c w' :
  open_owned keep k w = (Ok c, w') ->
  (forall c0 m0, files w !! k = Some (File c0 m0) -> owner_writes m0 = true) /\
  exists m, files w' = <[k := File c m]> (files w) /\
            cwd w' = cwd w /\ cwd_ok w' = cwd_ok w /\ stdout w' = stdout w.
Proof.
  destruct k as [|x k]; [done|].
  unfold open_owned. unfold bind at 1. unfold get_world at 1.
  rewrite lookup_node_ne by done.
  destruct (files w !! (x :: k)) as [[c0 m0|]|] eqn:El.
  - destruct (owner_writes m0) eqn:Ew; [|done]. intros H%open_write_Ok.
    split; [|done]. by intros c1 m1 [= _ <-].
  - intros H%open_write_Ok. by split.
  - intros H%open_write_Ok. by split.
Qed.

Lemma stat_same p w w' n :
  cwd w' = cwd w -> cwd_ok w' = cwd_ok w ->
  lookup_node (files w') (key_of p w) = Some n ->
  (exists k, locate p w = (Ok k, w)) ->
  stat p w' = (Ok n, w').
Proof.
  intros Hc Ho Hl [k Hk]. pose proof Hk as [-> _]%locate_key.
  apply (stat_intro _ _ (key_of p w)); [|done]. by apply (locate_transfer _ w).
Qed.

Lemma install_flat src out x w w' :
  flat (key_of out w) (files w) ->
  install src (joinpath out (MkPath false [x])) w = (Ok tt, w') ->
  exists c m,
    stat src w = (Ok (File c m), w) /\
    key_of src w <> key_of out w ++ [x] /\
    files w' = <[key_of out w ++ [x] := File c (exec_mode m)]> (files w) /\
    cwd w' = cwd w /\ cwd_ok w' = cwd_ok w /\ stdout w' = stdout w /\
    x <> dotdot.
Proof.
  intros Hflat. set (dest := joinpath out (MkPath false [x])).
  set (ko := key_of out w) in *.
  assert (key_of dest w = ko ++ [x]) as Hkd by apply key_of_join.
  unfold install. intros ([] & w3 & Ecp & H)%bind_inv_Ok.
  apply bind_inv_Ok in H as (md & w4 & Emd & Ech).
  unfold copy2 in Ecp. apply bind_inv_Ok in Ecp as (d & w0 & Ed & Ecp).
  pose proof (is_dir_world _ _ _ _ Ed) as ->.
  destruct d.
  { apply is_dir_true, stat_key in Ed. fold dest in Ed. rewrite Hkd, lookup_node_snoc in Ed.
    apply (Hflat x []) in Ed as [_ (c & m & [=])]. }
  apply bind_inv_Ok in Ecp as (ks & w0 & Eks & Ecp). apply locate_key in Eks as [-> ->].
  apply bind_inv_Ok in Ecp as (kd & w0 & Ekd & Ecp). pose proof Ekd as [-> ->]%locate_key.
  apply bind_inv_Ok in Ecp as (n & w0 & En & Ecp).
  pose proof (stat_world _ _ _ _ En) as ->.
  fold dest in Ecp, Ekd. rewrite Hkd in Ecp.
  destruct (bool_decide_reflect (key_of src w = ko ++ [x])) as [|Hne]; [done|].
  destruct n as [c m|]; [|done].
  destruct (owner_reads m) eqn:Hrd; [|done]. simpl in Ecp.
  apply bind_inv_Ok in Ecp as (c0 & w1 & Eo & Ecp).
  apply open_owned_Ok in Eo as (Hwr & m0 & Hf1 & Hc1 & Ho1 & Hs1).
  injection Ecp as <-.
  set (w3 := MkWorld _ _ _ _ _ _) in *.
  assert (stat dest w3 = (Ok (File c m), w3)) as Hst.
  { apply (stat_same _ w); [done | done | | by eexists].
    fold dest. rewrite Hkd, lookup_node_snoc. simpl. by rewrite lookup_insert_eq. }
  unfold st_mode in Emd. rewrite (bind_Ok _ _ _ _ _ Hst) in Emd. injection Emd as <- <-.
  unfold chmod in Ech.
  rewrite (bind_Ok _ _ w3 (ko ++ [x]) w3) in Ech
    by (rewrite <- Hkd; by apply (locate_transfer _ w)).
  rewrite (bind_Ok _ _ _ _ _ Hst) in Ech. injection Ech as <-.
  exists c, m. split; [done|]. split; [done|]. simpl.
  rewrite Hf1, !insert_insert_eq. do 4 (split; [done|]).
  apply post_locate in Ekd as (Hdd & _). intros ->. apply Hdd.
  unfold dest, joinpath. simpl. apply elem_of_app. right. by left.
Qed.

Lemma flat_insert ko f x c m : flat ko f -> flat ko (<[ko ++ [x] := File c m]> f).
Proof.
  intros Hf y r n. destruct (decide (ko ++ [x] = ko ++ y :: r)) as [E | Hne].
  - rewrite <- E, lookup_insert_eq. intros [= <-]. apply app_inv_head in E.
    injection E as _ <-. split; [done | by eexists _, _].
  - rewrite lookup_insert_ne by done. apply Hf.
Qed.

(** What the loop leaves in a flat output directory. *)
Lemma copy_entries_flat entries wsp out w w' :
  flat (key_of out w) (files w) ->
  Forall (fun e => simple e.1) entries ->
  copy_entries entries wsp out w = (Ok tt, w') ->
  flat (key_of out w) (files w') /\
  cwd w' = cwd w /\ cwd_ok w' = cwd_ok w /\ stdout w' = stdout w /\
  (forall q, (forall e, e ∈ entries -> q <> key_of out w ++ [e.1]) ->
             files w' !! q = files w !! q) /\
  (forall pre nm rel post,
     entries = pre ++ (nm, rel) :: post -> nm ∉ post.*1 ->
     exists wi src c m,
       copy_entries pre wsp out w = (Ok tt, wi) /\
       resolve (joinpath wsp rel) wi = (Ok src, wi) /\
       stat src wi = (Ok (File c m), wi) /\
       key_of src wi <> key_of out w ++ [nm] /\
       nm <> dotdot /\
       files w' !! (key_of out w ++ [nm]) = Some (File c (exec_mode m))).
Proof.
  revert w. induction entries as [|[nm rel] rest IH]; intros w Hflat Hs H.
  { injection H as <-. do 5 (split; [done|]).
    intros pre nm rel post E. by destruct pre. }
  apply Forall_cons in Hs as [Hnm Hs]. simpl in Hnm.
  apply copy_entries_cons_Ok in H as (src & w1 & Er & Ee & Ei & H).
  pose proof Ei as Ei'. rewrite Hnm in Ei'.
  apply install_flat in Ei' as (c & m & Hst & Hne & Hf1 & Hc1 & Ho1 & Hs1 & Hdd); [|done].
  assert (key_of out w1 = key_of out w) as Hk by (by apply key_of_same).
  destruct (IH w1) as (Hflat' & Hc' & Ho' & Hs' & Hother & Hlast); [|done..|].
  { rewrite Hk, Hf1. by apply flat_insert. }
  rewrite Hk in *.
  split; [done|]. split; [congruence|]. split; [congruence|]. split; [congruence|].
  split.
  - intros q Hq. rewrite Hother by (intros e He; apply Hq; by right).
    rewrite Hf1, lookup_insert_ne; [done|]. intros E. by apply (Hq (nm, rel)); [left|].
  - intros pre nm' rel' post E Hnot. destruct pre as [|e pre].
    + injection E as <- <- <-. exists w, src, c, m.
      do 5 (split; [done|]).
      rewrite Hother, Hf1, lookup_insert_eq; [done|].
      intros e He E. apply app_inv_head in E. injection E as E. apply Hnot.
      rewrite E. by apply list_elem_of_fmap_2.
    + injection E as <- ->.
      destruct (Hlast pre nm' rel' post eq_refl Hnot) as (wi & src' & c' & m' & Hpre & H').
      exists wi, src', c', m'. split; [|done].
      by rewrite (copy_entries_step _ _ _ _ _ _ _ _ Er Ee Ei).
Qed.

Lemma last_occurrence {A B} `{EqDecision A} (l : list (A * B)) x :
  x ∈ l.*1 -> exists pre y post, l = pre ++ (x, y) :: post /\ x ∉ post.*1.
Proof.
  induction l as [|[a b] l IH]; simpl; [by intros ?%elem_of_nil|].
  destruct (decide (x ∈ l.*1)) as [Hin | Hnot].
  - intros _. destruct (IH Hin) as (pre & y & post & -> & Hp).
    by exists ((a, b) :: pre), y, post.
  - intros [-> | ?]%elem_of_cons; [|done]. by exists [], b, l.
Qed.

Lemma copy_entries_listing entries wsp out w w' :
  flat (key_of out w) (files w) ->
  Forall (fun e => simple e.1) entries ->
  copy_entries entries wsp out w = (Ok tt, w') ->
  forall x r,
    is_Some (files w' !! (key_of out w ++ x :: r)) <->
    is_Some (files w !! (key_of out w ++ x :: r)) \/ (r = [] /\ x ∈ entries.*1).
Proof.
  intros Hflat Hs H x r.
  destruct (copy_entries_flat _ _ _ _ _ Hflat Hs H) as (Hflat' & _ & _ & _ & Hother & Hlast).
  destruct (decide (r = [] /\ x ∈ entries.*1)) as [[-> Hin] | Hno].
  - split; [by right; split|]. intros _.
    destruct (last_occurrence _ _ Hin) as (pre & y & post & E & Hp).
    destruct (Hlast _ _ _ _ E Hp) as (? & ? & ? & ? & _ & _ & _ & _ & _ & ->). by eexists.
  - rewrite Hother; [split; [by left | by intros [? | ?]]|].
    intros e He E. apply app_inv_head in E. injection E as E1 E2. apply Hno.
    split; [done|]. rewrite E1. by apply list_elem_of_fmap_2.
Qed.

(** ** Sources *)

Lemma normalize_snoc l x : x <> dotdot -> normalize (l ++ [x]) = normalize l ++ [x].
Proof.
  intros Hx. unfold normalize. rewrite fold_left_app. simpl.
  by rewrite bool_decide_eq_false_2.
Qed.

Lemma parts_name p : parts p <> [] -> parts p = removelast (parts p) ++ [name p].
Proof. intros Hp. unfold name. by apply app_removelast_last. Qed.

(** A resolved path ends with the name of what was resolved. *)
Lemma resolve_last wsp rel w src w' :
  resolve (joinpath wsp rel) w = (Ok src, w') ->
  parts rel <> [] -> name rel <> dotdot ->
  is_absolute src = true /\ exists X, parts src = X ++ [name rel].
Proof.
  intros H Hp Hn.
  assert (exists Y, parts (joinpath wsp rel) = Y ++ [name rel]) as [Y HY].
  { unfold joinpath. destruct (is_absolute rel); simpl.
    - eexists. by apply parts_name.
    - exists (parts wsp ++ removelast (parts rel)).
      by rewrite <- app_assoc, <- parts_name. }
  unfold resolve in H. apply bind_inv_Ok in H as (base & w1 & _ & H).
  injection H as <- _. simpl. split; [done|].
  rewrite HY, app_assoc, normalize_snoc by done. by eexists.
Qed.

Lemma resolve_transfer p w w' r :
  cwd w' = cwd w -> (cwd_ok w = true -> cwd_ok w' = true) ->
  resolve p w = (Ok r, w) -> resolve p w' = (Ok r, w').
Proof.
  intros Hc Ho. unfold resolve, bind. destruct (is_absolute p); simpl; [by intros [= <-]|].
  unfold getcwd. destruct (cwd_ok w); [|done]. rewrite Ho, Hc by done. by intros [= <-].
Qed.

Lemma key_of_abs p w : is_absolute p = true -> key_of p w = parts p.
Proof. unfold key_of. by intros ->. Qed.

Lemma lookup_node_insert_ne f k n q :
  k <> q -> lookup_node (<[k := n]> f) q = lookup_node f q.
Proof. intros Hne. destruct q; [done|]. simpl. by rewrite lookup_insert_ne. Qed.

(** ** The build context *)

Lemma simple_nonempty x : simple x -> x <> [].
Proof. by intros H ->. Qed.

Lemma named_parts e : named_by_path e -> parts e.2 <> [].
Proof.
  intros [Hs Hn] Hp. apply simple_nonempty in Hs. unfold name in Hn.
  rewrite Hp in Hn. simpl in Hn. congruence.
Qed.

Lemma prepare_build_context_Ok entries wsp out w w' :
  wf w -> Forall named_by_path entries ->
  prepare_build_context entries wsp out w = (Ok tt, w') ->
  prepared entries wsp (key_of out w) w w'.
Proof.
  intros Hwf Hnamed. rewrite prepare_build_context_eq.
  intros ([] & w0 & Erec & Ecp)%bind_inv_Ok.
  pose proof (recreate_Ok _ _ _ Hwf Erec) as Hfr.
  set (ko := key_of out w) in *.
  assert (key_of out w0 = ko) as Hk by (apply key_of_same, Hfr).
  assert (flat (key_of out w0) (files w0)) as Hflat.
  { rewrite Hk. intros y r n Hn. by rewrite (fresh_empty _ _ _ Hfr) in Hn. }
  assert (Forall (fun e => simple e.1) entries) as Hsimple.
  { eapply Forall_impl; [done|]. by intros e [? _]. }
  destruct (copy_entries_flat _ _ _ _ _ Hflat Hsimple Ecp)
    as (Hflat' & Hc' & Ho' & Hs' & Hother & Hlast).
  pose proof (copy_entries_listing _ _ _ _ _ Hflat Hsimple Ecp) as Hlist.
  rewrite Hk in *.
  split.
  - destruct ko as [|y ko'] eqn:Eko; [done|]. rewrite <- Eko in *.
    rewrite lookup_node_ne by (by rewrite Eko).
    rewrite Hother by (intros e _; symmetry; apply snoc_ne_self).
    pose proof (fresh_dir _ _ _ Hfr) as Hd. by rewrite lookup_node_ne in Hd by (by rewrite Eko).
  - intros x r. rewrite Hlist, (fresh_empty _ _ _ Hfr).
    split; [intros [[? [=]] | ?]; done | by right].
  - intros pre nm rel post E Hnot.
    destruct (Hlast pre nm rel post E Hnot)
      as (wi & src & c & m & Hpre & Hres & Hst & Hne & Hdd & Hfin).
    exists src, c, m.
    assert (named_by_path (nm, rel)) as [_ Hnm].
    { eapply Forall_forall; [done|]. rewrite E. apply elem_of_app. right. by left. }
    simpl in Hnm.
    assert (Forall (fun e => simple e.1) pre) as Hsimple_pre.
    { rewrite E in Hsimple. by apply Forall_app in Hsimple as [? _]. }
    rewrite <- Hk in Hflat.
    destruct (copy_entries_flat _ _ _ _ _ Hflat Hsimple_pre Hpre)
      as (_ & Hci & Hoi & _ & Hother_pre & _).
    rewrite Hk in *.
    destruct (resolve_last _ _ _ _ _ Hres) as (Habs & X & HX).
    { apply (named_parts (nm, rel)).
      eapply Forall_forall; [done|]. rewrite E. apply elem_of_app. right. by left. }
    { by rewrite Hnm. }
    rewrite Hnm in HX. rewrite (key_of_abs _ _ Habs), HX in Hne.
    pose proof Hst as Hl%stat_key. rewrite (key_of_abs _ _ Habs), HX, lookup_node_snoc in Hl.
    rewrite Hother_pre in Hl.
    2: { intros e _ Eq. apply app_inj_tail in Eq as [-> Eq]. by rewrite Eq in Hne. }
    apply (fresh_files _ _ _ Hfr) in Hl.
    split; [|split; [|done]].
    + apply (resolve_transfer _ wi); [|intros Hok|done].
      * rewrite Hci. symmetry. apply Hfr.
      * rewrite Hoi in Hok. by apply (fresh_cwd_ok _ _ _ Hfr) in Hok as [? _].
    + apply (stat_intro _ _ (parts src)).
      * apply locate_abs; [done|]. apply stat_Ok in Hst as (k & Hk' & _).
        by apply post_locate in Hk' as (? & _).
      * by rewrite HX, lookup_node_snoc.
  - rewrite Hc'. apply Hfr.
  - rewrite Ho'. apply Hfr.
  - rewrite Hs'. apply Hfr.
Qed.

(** ** Path components *)

Lemma split_on_no_sep sep s x : x ∈ split_on sep s -> sep ∉ x.
Proof.
  revert x. induction s as [|c t IH]; intros x; simpl.
  - intros ->%list_elem_of_singleton. apply not_elem_of_nil.
  - destruct (bool_decide_reflect (c = sep)) as [-> | Hc].
    + intros [-> | ?]%elem_of_cons; [apply not_elem_of_nil | by apply IH].
    + destruct (split_on sep t) as [|w0 ws].
      * intros ->%list_elem_of_singleton. by intros [? | []%elem_of_nil]%elem_of_cons.
      * intros [-> | ?]%elem_of_cons; [|apply IH; by right].
        intros [? | ?]%elem_of_cons; [done|]. apply (IH w0); [by left | done].
Qed.

Lemma split_on_id sep x : sep ∉ x -> split_on sep x = [x].
Proof.
  induction x as [|c t IH]; intros Hx; simpl; [done|].
  rewrite bool_decide_eq_false_2 by (intros ->; apply Hx; by left).
  rewrite IH; [done|]. intros ?. apply Hx. by right.
Qed.

Lemma component_simple s x : x ∈ parts (parse_path s) -> simple x.
Proof.
  unfold parse_path. simpl. intros [[Hne Hdot] Hx%split_on_no_sep]%list_elem_of_filter.
  unfold simple, parse_path. rewrite (split_on_id _ _ Hx). f_equal.
  - destruct x as [|c x]; [done|]. simpl.
    rewrite bool_decide_eq_false_2; [done|]. intros <-. apply Hx. by left.
  - rewrite filter_cons_True by done. done.
Qed.

Lemma name_simple s : parts (parse_path s) <> [] -> simple (name (parse_path s)).
Proof.
  intros Hp. apply (component_simple s). rewrite (parts_name _ Hp).
  apply elem_of_app. right. by left.
Qed.

(** ** List manifests *)

Lemma entries_of_list_strings ps w :
  entries_of_list (JStr <$> ps) w = (Ok (basename_entry <$> ps), w).
Proof.
  induction ps as [|p ps IH]; [done|].
  rewrite !fmap_cons. cbn [entries_of_list]. unfold bind. by rewrite IH.
Qed.

(** ** Directory listings *)

Lemma NoDup_omap {A B} (f : A -> option B) (l : list A) :
  (forall x y z, x ∈ l -> y ∈ l -> f x = Some z -> f y = Some z -> x = y) ->
  NoDup l -> NoDup (omap f l).
Proof.
  induction l as [|a l IH]; simpl; intros Hinj Hnd; [constructor|].
  apply NoDup_cons in Hnd as [Ha Hnd].
  assert (NoDup (omap f l)) as IH'.
  { apply IH; [|done]. intros x y z Hx Hy. apply Hinj; by right. }
  destruct (f a) as [b|] eqn:Ea; [|done].
  apply NoDup_cons. split; [|done].
  intros (y & Hy & Ey)%list_elem_of_omap.
  assert (a = y) as -> by (apply (Hinj a y b); [by left | by right | done..]). done.
Qed.

Lemma elem_of_children f k x : x ∈ children f k <-> is_Some (f !! (k ++ [x])).
Proof.
  unfold children. rewrite list_elem_of_omap. split.
  - intros ([q n] & Hin%elem_of_map_to_list & Hg). simpl in Hg.
    destruct (drop (length k) q) as [|y [|]] eqn:Ed; try done.
    destruct (bool_decide_reflect (k `prefix_of` q)) as [[r ->]|]; [|done].
    injection Hg as ->. rewrite drop_app_length in Ed. subst r. by eexists.
  - intros [n Hn]. exists (k ++ [x], n). split; [by apply elem_of_map_to_list|].
    simpl. rewrite drop_app_length, bool_decide_eq_true_2; [done | by eexists].
Qed.

Lemma NoDup_children f k : NoDup (children f k).
Proof.
  apply NoDup_omap; [|apply NoDup_map_to_list].
  intros [q n] [q' n'] x Hin%elem_of_map_to_list Hin'%elem_of_map_to_list. simpl.
  intros Hg Hg'.
  assert (forall q0, match drop (length k) q0 with
                     | [y] => if bool_decide (k `prefix_of` q0) then Some y else None
                     | _ => None
                     end = Some x -> q0 = k ++ [x]) as Hkey.
  { intros q0 H. destruct (drop (length k) q0) as [|y [|]] eqn:Ed; try done.
    destruct (bool_decide_reflect (k `prefix_of` q0)) as [[r ->]|]; [|done].
    injection H as ->. rewrite drop_app_length in Ed. by subst r. }
  apply Hkey in Hg as ->. apply Hkey in Hg' as ->. congruence.
Qed.

(** A listing is known by its members. *)
Lemma children_Permutation f k l :
  NoDup l -> (forall x, is_Some (f !! (k ++ [x])) <-> x ∈ l) -> children f k ≡ₚ l.
Proof.
  intros Hl Hm. apply NoDup_Permutation; [apply NoDup_children | done|].
  intros x. by rewrite elem_of_children.
Qed.

Lemma remove_dups_shorter {A} `{EqDecision A} (l : list A) :
  ~ NoDup l -> (length (remove_dups l) < length l)%nat.
Proof.
  intros Hnd.
  assert (remove_dups l ⊆+ l) as Hsub.
  { apply NoDup_submseteq; [apply NoDup_remove_dups|].
    intros x. by rewrite elem_of_remove_dups. }
  pose proof (submseteq_length _ _ Hsub) as Hle.
  destruct (decide (length l <= length (remove_dups l))%nat) as [Hge|]; [|lia].
  exfalso. apply Hnd. rewrite <- (submseteq_length_Permutation _ _ Hsub Hge).
  apply NoDup_remove_dups.
Qed.

Lemma basename_entries_names ps : (basename_entry <$> ps).*1 = (name ∘ parse_path) <$> ps.
Proof. by rewrite <- list_fmap_compose. Qed.

(** The build context of a list manifest, when the run returns. *)
Lemma list_manifest_context ps wsp out w w' :
  wf w ->
  Forall (fun p => parts (parse_path p) <> []) ps ->
  (entries <- normalize_entries (JArr (JStr <$> ps)) ;;
   prepare_build_context entries wsp out) w = (Ok tt, w') ->
  normalize_entries (JArr (JStr <$> ps)) w = (Ok (basename_entry <$> ps), w) /\
  lookup_node (files w') (key_of out w) = Some Dir /\
  (forall x r, is_Some (files w' !! (key_of out w ++ x :: r)) <->
               r = [] /\ x ∈ (name ∘ parse_path) <$> ps) /\
  (forall ps1 p ps2,
     ps = ps1 ++ p :: ps2 ->
     name (parse_path p) ∉ (name ∘ parse_path) <$> ps2 ->
     exists src c m,
       resolve (joinpath wsp (parse_path p)) w = (Ok src, w) /\
       stat src w = (Ok (File c m), w) /\
       files w' !! (key_of out w ++ [name (parse_path p)]) =
         Some (File c (exec_mode m))) /\
  children (files w') (key_of out w) ≡ₚ remove_dups ((name ∘ parse_path) <$> ps) /\
  (~ NoDup ((name ∘ parse_path) <$> ps) ->
   (length (children (files w') (key_of out w)) < length ps)%nat).
Proof.
  intros Hwf Hps H.
  assert (normalize_entries (JArr (JStr <$> ps)) w = (Ok (basename_entry <$> ps), w)) as Hn
    by apply entries_of_list_strings.
  rewrite (bind_Ok _ _ _ _ _ Hn) in H.
  assert (Forall named_by_path (basename_entry <$> ps)) as Hnamed.
  { apply Forall_fmap. eapply Forall_impl; [done|]. intros p Hp.
    split; [by apply name_simple | done]. }
  destruct (prepare_build_context_Ok _ _ _ _ _ Hwf Hnamed H)
    as [Hdir Hlist Hlast _ _ _].
  rewrite basename_entries_names in Hlist.
  assert (children (files w') (key_of out w) ≡ₚ remove_dups ((name ∘ parse_path) <$> ps))
    as Hperm.
  { apply children_Permutation; [apply NoDup_remove_dups|].
    intros x. rewrite elem_of_remove_dups, Hlist. naive_solver. }
  split; [done|]. split; [done|]. split; [done|]. split; [|split; [done|]].
  - intros ps1 p ps2 -> Hnot.
    apply (Hlast (basename_entry <$> ps1) _ _ (basename_entry <$> ps2)).
    + by rewrite fmap_app, fmap_cons.
    + by rewrite basename_entries_names.
  - intros Hnd. rewrite Hperm.
    pose proof (remove_dups_shorter _ Hnd) as Hlt. by rewrite length_fmap in Hlt.
Qed.

(** What has happened when [prepare_build_context] ends with [SystemExit]. *)
Lemma exit_after_recreating entries wsp out w msg w' :
  wf w ->
  prepare_build_context entries wsp out w = (Raise (SystemExit msg), w') ->
  exit_status (prepare_build_context entries wsp out w).1 = 1 /\
  exists pre nm rel post src w1,
    entries = pre ++ (nm, rel) :: post /\
    msg = lit "Source file not found: " ++ path_str src /\
    recreate out w = (Ok tt, w1) /\
    fresh (key_of out w) w w1 /\
    copy_entries pre wsp out w1 = (Ok tt, w') /\
    resolve (joinpath wsp rel) w' = (Ok src, w') /\
    exists_ src w' = (Ok false, w').
Proof.
  intros Hwf H. split; [by rewrite H|].
  rewrite prepare_build_context_eq in H.
  apply bind_inv in H as [([] & w1 & Erec & H) | (e & Erec & [= <-])];
    [|by apply plain_recreate in Erec].
  destruct (copy_entries_exit _ _ _ _ _ _ H) as (pre & nm & rel & post & src & -> & ? & ? & ? & ->).
  exists pre, nm, rel, post, src, w1. do 3 (split; [done|]).
  split; [by apply recreate_Ok | done].
Qed.

(** ** The mapping manifest *)

Lemma write_text_not_dir p s w w' :
  write_text p s w = (Ok tt, w') -> lookup_node (files w) (key_of p w) <> Some Dir.
Proof.
  unfold write_text. intros (k & w1 & Ek & H)%bind_inv_Ok.
  apply locate_key in Ek as [-> ->].
  apply bind_inv_Ok in H as (c & w2 & Eo & _).
  unfold open_write, bind, get_world in Eo. simpl in Eo. intros Hd. by rewrite Hd in Eo.
Qed.

Lemma write_text_key p s w w' :
  write_text p s w = (Ok tt, w') ->
  exists b m,
    locate p w = (Ok (key_of p w), w) /\ utf8_encode s = Some b /\
    files w' = <[key_of p w := File b m]> (files w) /\
    cwd w' = cwd w /\ cwd_ok w' = cwd_ok w /\ stdout w' = stdout w.
Proof.
  intros H. pose proof H as (k & b & m & Hk & Hb & Hf & Hc & Ho)%write_text_Ok.
  pose proof Hk as [-> _]%locate_key. exists b, m. do 5 (split; [done|]).
  unfold write_text in H. apply bind_inv_Ok in H as (k & w1 & Ek & H).
  apply locate_world in Ek as ->.
  apply bind_inv_Ok in H as (c & w2 & Eo & H).
  apply open_write_Ok in Eo as (? & _ & _ & _ & Hs2).
  apply bind_inv_Ok in H as (b' & w3 & Eb & H).
  unfold of_option in Eb. destruct (utf8_encode s); [|done]. injection Eb as _ <-.
  unfold put_content, bind, get_world in H. simpl in H.
  destruct (files w2 !! _) as [[]|]; [|done..]. injection H as <-. done.
Qed.

Lemma locate_relative p w k w' :
  locate p w = (Ok k, w') -> is_absolute p = false -> cwd_ok w = true.
Proof.
  unfold locate. destruct (bool_decide _); [done|]. intros H Ha. rewrite Ha in H.
  unfold bind, getcwd in H. by destruct (cwd_ok w).
Qed.

Lemma entries_ab_named : Forall named_by_path entries_ab.
Proof. repeat constructor. Qed.

Ltac lit_neq := let H := fresh in intros H; vm_compute in H; discriminate H.

(** The messages at the end of [main] change no file. *)
Lemma main_epilogue_reads out w r w' :
  (out_resolved <- resolve out ;;
   _ <- print (PrintWroteContext out_resolved) ;;
   compose_resolved <- resolve (parse_path COMPOSE_FILENAME) ;;
   _ <- print (PrintWroteCompose compose_resolved) ;;
   _ <- print PrintToBuild ;;
   print PrintToRun) w = (r, w') ->
  files w' = files w /\ cwd w' = cwd w /\ cwd_ok w' = cwd_ok w.
Proof.
  apply (reads_only_world _ w r w').
  apply inv_bind; [apply inv_resolve | intros ?].
  apply inv_bind; [by apply inv_print | intros ?].
  apply inv_bind; [apply inv_resolve | intros ?].
  apply inv_bind; [by apply inv_print | intros ?].
  apply inv_bind; [by apply inv_print | intros ?]. by apply inv_print.
Qed.

(** C7: for the manifest [{a.bin: bins/a.bin, b.bin: bins/b.bin}], a
    successful run of the packager leaves the output directory with exactly
    [a.bin], [b.bin] and [Dockerfile] in it, the two binaries with the
    content of their sources and the owner's executable bit, and a compose
    file whose text names the configured service and image and has the
    output directory as build context. *)
Theorem mapping_manifest_packaged E a w wsp jp w' :
  wf w ->
  resolve (parse_path (arg_workspace a)) w = (Ok wsp, w) ->
  json_path_of a wsp w = (Ok jp, w) ->
  load_json E jp w = (Ok manifest_ab, w) ->
  Pack.main E a w = (Ok tt, w') ->
  let out := parse_path (arg_out a) in
  let ko := key_of out w in
  lookup_node (files w') ko = Some Dir /\
  (forall x r, is_Some (files w' !! (ko ++ x :: r)) <->
               r = [] /\ x ∈ [lit "a.bin"; lit "b.bin"; DOCKERFILE_NAME]) /\
  children (files w') ko ≡ₚ [lit "a.bin"; lit "b.bin"; DOCKERFILE_NAME] /\
  (exists src c m,
     resolve (joinpath wsp (parse_path (lit "bins/a.bin"))) w = (Ok src, w) /\
     stat src w = (Ok (File c m), w) /\
     files w' !! (ko ++ [lit "a.bin"]) = Some (File c (exec_mode m))) /\
  (exists src c m,
     resolve (joinpath wsp (parse_path (lit "bins/b.bin"))) w = (Ok src, w) /\
     stat src w = (Ok (File c m), w) /\
     files w' !! (ko ++ [lit "b.bin"]) = Some (File c (exec_mode m))) /\
  (exists text m,
     utf8_encode (dockerfile_text (lit "/opt/binaries")) = Some text /\
     files w' !! (ko ++ [DOCKERFILE_NAME]) = Some (File text m)) /\
  (exists text,
     utf8_encode (compose_text (arg_service a) (arg_image a) (path_str out)) = Some text /\
     read_bytes (parse_path COMPOSE_FILENAME) w' = (Ok text, w')) /\
  compose_text (arg_service a) (arg_image a) (path_str out) =
    lit "version: '3.8'
services:
  " ++ arg_service a ++ lit ":
    build:
      context: " ++ path_str out ++ lit "
    image: " ++ arg_image a ++ lit "
    tty: true
".
Proof.
  intros Hwf Hres Hjp Hload H out ko. unfold Pack.main in H.
  rewrite (bind_Ok _ _ _ _ _ Hres), (bind_Ok _ _ _ _ _ Hjp) in H.
  apply bind_inv_Ok in H as (ex & w0 & Eex & H).
  pose proof (exists_world _ _ _ _ Eex) as ->. destruct ex; [|done].
  change (negb true) with false in H. cbv iota in H. rewrite (bind_Ok _ _ _ _ _ Hload) in H.
  rewrite (bind_Ok _ _ w entries_ab w) in H by reflexivity.
  fold out in H.
  apply bind_inv_Ok in H as ([] & w1 & Eprep & H).
  apply bind_inv_Ok in H as ([] & w2 & Edf & H).
  apply bind_inv_Ok in H as ([] & w3 & Ecf & H).
  apply main_epilogue_reads in H as (Hf' & Hc' & Ho').
  destruct (prepare_build_context_Ok _ _ _ _ _ Hwf entries_ab_named Eprep)
    as [Hdir Hlist Hlast Hc1 Ho1 _].
  fold ko in Hdir, Hlist, Hlast, Ho1.
  unfold write_dockerfile in Edf.
  pose proof Edf as (textD & mD & _ & HtD & Hf2 & Hc2 & Ho2 & _)%write_text_key.
  change (parse_path DOCKERFILE_NAME) with (MkPath false [DOCKERFILE_NAME]) in Hf2.
  rewrite key_of_join, (key_of_same _ _ _ Hc1) in Hf2. fold ko in Hf2.
  unfold write_compose in Ecf.
  pose proof Ecf as (textC & mC & HkC & HtC & Hf3 & Hc3 & Ho3 & _)%write_text_key.
  pose proof (write_text_not_dir _ _ _ _ Ecf) as HnoDir.
  set (kc := key_of (parse_path COMPOSE_FILENAME) w2) in *.
  assert (kc = cwd w ++ [COMPOSE_FILENAME]) as Ekc.
  { unfold kc, key_of. simpl. by rewrite Hc2, Hc1. }
  assert (~ ko `prefix_of` kc) as Hout.
  { apply locate_relative in HkC; [|done]. rewrite Ho2 in HkC.
    apply Ho1 in HkC as [_ Hnp]. rewrite Ekc.
    intros [Eq | ?]%prefix_snoc_inv; [|done].
    apply HnoDir. rewrite Ekc, <- Eq, Hf2.
    rewrite lookup_node_insert_ne by apply snoc_ne_self. done. }
  assert (forall q, ko `prefix_of` q -> files w' !! q = <[ko ++ [DOCKERFILE_NAME] :=
            File textD mD]> (files w1) !! q) as Hin.
  { intros q Hq. rewrite Hf', Hf3, lookup_insert_ne, Hf2; [done|]. by intros <-. }
  assert (ko `prefix_of` ko) as Hrefl by done.
  assert (forall x, ko `prefix_of` ko ++ [x]) as Hsnoc by (intros; by eexists).
  split.
  { rewrite Hf', Hf3, lookup_node_insert_ne by (by intros <-).
    rewrite Hf2, lookup_node_insert_ne by apply snoc_ne_self. done. }
  assert (forall x r, is_Some (files w' !! (ko ++ x :: r)) <->
            r = [] /\ x ∈ [lit "a.bin"; lit "b.bin"; DOCKERFILE_NAME]) as Hlisting.
  { intros x r. rewrite Hin by (by eexists).
    destruct (decide (x :: r = [DOCKERFILE_NAME])) as [[= -> ->] | Hne].
    - rewrite lookup_insert_eq. split; [intros _|by eexists].
      split; [done|]. do 2 right. by left.
    - rewrite lookup_insert_ne by (intros ?%app_inv_head; done).
      rewrite Hlist. simpl. split.
      + intros [-> Hx]. split; [done|].
        apply elem_of_cons in Hx as [-> | Hx]; [by left|]. right.
        apply elem_of_cons in Hx as [-> | Hx]; [by left|]. by apply elem_of_nil in Hx.
      + intros [-> Hx]. split; [done|].
        apply elem_of_cons in Hx as [-> | Hx]; [by left|]. right.
        apply elem_of_cons in Hx as [-> | Hx]; [by left|].
        apply list_elem_of_singleton in Hx as ->. done. }
  split; [done|]. split.
  { apply children_Permutation.
    - apply (bool_decide_unpack _). by vm_compute.
    - intros x. rewrite (Hlisting x []). naive_solver. }
  split.
  { destruct (Hlast [] (lit "a.bin") (parse_path (lit "bins/a.bin"))
                [(lit "b.bin", parse_path (lit "bins/b.bin"))] eq_refl)
      as (src & c & m & ? & ? & Hfin).
    { simpl. intros [Eq | []%elem_of_nil]%elem_of_cons. revert Eq. lit_neq. }
    exists src, c, m. split; [done|]. split; [done|].
    rewrite Hin, lookup_insert_ne; [done | | done].
    apply snoc_ne_last. lit_neq. }
  split.
  { destruct (Hlast [(lit "a.bin", parse_path (lit "bins/a.bin"))] (lit "b.bin")
                (parse_path (lit "bins/b.bin")) [] eq_refl)
      as (src & c & m & ? & ? & Hfin).
    { simpl. apply not_elem_of_nil. }
    exists src, c, m. split; [done|]. split; [done|].
    rewrite Hin, lookup_insert_ne; [done | | done].
    apply snoc_ne_last. lit_neq. }
  split.
  { exists textD, mD. split; [done|]. by rewrite Hin, lookup_insert_eq. }
  split.
  { exists textC. split; [done|]. unfold read_bytes.
    rewrite (bind_Ok _ _ w' (File textC mC) w'); [done|].
    apply (stat_same _ w2); [congruence | congruence | | by eexists].
    fold kc. rewrite Hf', Hf3. destruct kc; [done|]. simpl. by rewrite lookup_insert_eq. }
  reflexivity.
Qed.

Lemma closedb_closed f : closedb f = true -> closed f.
Proof.
  intros H k x [n Hn]. apply elem_of_map_to_list, list_elem_of_In in Hn.
  unfold closedb in H. rewrite forallb_forall in H. specialize (H _ Hn). simpl in H.
  rewrite removelast_last in H. destruct (k ++ [x]) eqn:E; [by destruct k|].
  by destruct (lookup_node f k) as [[]|].
Qed.

Lemma xor_obfuscation_roundtrip_witness :
  contains XOR_ENC_TOKEN Sample.template = true /\
  exists flag w1 key enc w2 raw,
    gen_flag Sample.w = (Ok flag, w1) /\
    xor_encode_bytes flag w1 = (Ok (enc, key), w2) /\
    1 <= key <= 255 /\ utf8_encode flag = Some raw /\
    enc = escape_bytes (map (fun b => Z.lxor b key) raw) /\
    (unescape enc ≫= fun b => utf8_decode (xor_decode key b)) = Some flag.
Proof.
  split; [vm_compute; reflexivity|].
  destruct (xor_obfuscation_roundtrip Sample.template Sample.w)
    as (flag & w1 & key & enc & w2 & raw & H1 & _ & H2 & _ & H3 & H4 & H5 & H6).
  { vm_compute; reflexivity. }
  exists flag, w1, key, enc, w2, raw.
  exact (conj H1 (conj H2 (conj H3 (conj H4 (conj H5 H6))))).
Defined.

Lemma flag_placeholder_substituted_witness :
  contains FLAG_TOKEN Sample.template = true /\
  exists flag w1 program w2,
    gen_flag Sample.w = (Ok flag, w1) /\
    prepare_program_from_template Sample.template flag w1 = (Ok program, w2) /\
    is_flag_token flag /\ contains flag program = true /\
    contains FLAG_TOKEN program = false.
Proof.
  split; [vm_compute; reflexivity|].
  apply (flag_placeholder_substituted Sample.template Sample.w). vm_compute; reflexivity.
Defined.

Lemma padding_is_additive_witness :
  build_stage Sample.E Sample.tpl Sample.job0 Sample.w1 = (Ok Sample.fc0, Sample.w2) /\
  stat (bin_path Sample.job0) Sample.w2 = (Ok (File [127; 69; 76; 70] 493), Sample.w2) /\
  pad_max Sample.job0 = JInt 1024 /\
  exists n extra w3,
    pad_stage Sample.job0 Sample.w2 = (Ok n, w3) /\
    0 <= n <= 1024 /\ len extra = n /\
    stat (bin_path Sample.job0) w3 = (Ok (File ([127; 69; 76; 70] ++ extra) 493), w3) /\
    len ([127; 69; 76; 70] ++ extra) = 4 + n.
Proof.
  assert (build_stage Sample.E Sample.tpl Sample.job0 Sample.w1 =
          (Ok Sample.fc0, Sample.w2)) as H1 by (vm_compute; reflexivity).
  assert (stat (bin_path Sample.job0) Sample.w2 =
          (Ok (File [127; 69; 76; 70] 493), Sample.w2)) as H2 by (vm_compute; reflexivity).
  assert (pad_max Sample.job0 = JInt 1024) as H3 by (vm_compute; reflexivity).
  split; [exact H1|]. split; [exact H2|]. split; [exact H3|].
  destruct (padding_is_additive Sample.E Sample.tpl Sample.job0 Sample.w1 Sample.fc0
              Sample.w2 [127; 69; 76; 70] 493 1024 H1 H2 H3 eq_refl)
    as (n & extra & w3 & Hp & _ & Hn & Hl & Hs & Hlen & _).
  exists n, extra, w3. exact (conj Hp (conj Hn (conj Hl (conj Hs Hlen)))).
Defined.

Lemma failed_build_is_caught_and_logged_witness :
  let base := MkPath true Sample.base in
  let w0 := (choice [Sample.tpl] Sample.w).2 in
  let w1 := (build_one Sample.E base Sample.tpl 1 w0).2 in
  closed (files Sample.w) /\
  build_one Sample.E base Sample.tpl 1 w0 = (Raise (CalledProcessError 1), w1) /\
  exists w2,
    main_step Sample.E base [Sample.tpl] 1 [] Sample.w = (Ok [], w2) /\
    stdout w2 = stdout w1 ++ [PrintDockerFailed (name Sample.tpl) (CalledProcessError 1)] /\
    files w2 !! Sample.P "/work/out/a_1/meta.json" = None.
Proof.
  intros base w0 w1.
  assert (closed (files Sample.w)) as Hc by (apply closedb_closed; vm_compute; reflexivity).
  assert (choice [Sample.tpl] Sample.w = (Ok Sample.tpl, w0)) as Hch
    by (vm_compute; reflexivity).
  assert (build_one Sample.E base Sample.tpl 1 w0 = (Raise (CalledProcessError 1), w1))
    as Hb by (vm_compute; reflexivity).
  split; [exact Hc|]. split; [exact Hb|].
  destruct (failed_build_is_caught_and_logged Sample.E Sample.base [Sample.tpl] 1 []
              Sample.w Sample.tpl w0 1 w1 Hc Hch Hb) as (w2 & Hs & Hout & _ & Hm & _).
  exists w2. split; [exact Hs|]. split; [exact Hout|].
  etransitivity; [exact Hm|]. vm_compute; reflexivity.
Defined.

Lemma temporary_context_removed_witness :
  let base := MkPath true Sample.base in
  build_prologue Sample.E base Sample.tpl 0 Sample.w = (Ok Sample.job0, Sample.w1) /\
  files Sample.w !! parts (tmp Sample.job0) = None /\
  files Sample.w1 !! parts (tmp Sample.job0) = Some Dir /\
  forall q, parts (tmp Sample.job0) `prefix_of` q ->
            files (build_one Sample.E base Sample.tpl 0 Sample.w).2 !! q = None.
Proof.
  intros base.
  assert (build_prologue Sample.E base Sample.tpl 0 Sample.w = (Ok Sample.job0, Sample.w1))
    as Hp by (vm_compute; reflexivity).
  split; [exact Hp|].
  exact (temporary_context_removed Sample.E Sample.base Sample.tpl 0 Sample.w Sample.job0
           Sample.w1 (build_one Sample.E base Sample.tpl 0 Sample.w).1
           (build_one Sample.E base Sample.tpl 0 Sample.w).2 Hp
           (surjective_pairing _)).
Defined.

Lemma failed_build_keeps_output_directory_witness :
  let base := MkPath true Sample.base in
  let w' := (build_one Sample.E base Sample.tpl 1 Sample.w).2 in
  closed (files Sample.w) /\
  build_one Sample.E base Sample.tpl 1 Sample.w = (Raise (CalledProcessError 1), w') /\
  is_dir (job_out_dir base Sample.tpl 1) w' = (Ok true, w') /\
  files w' !! Sample.P "/work/out/a_1/meta.json" = None.
Proof.
  intros base w'.
  assert (closed (files Sample.w)) as Hc by (apply closedb_closed; vm_compute; reflexivity).
  assert (build_one Sample.E base Sample.tpl 1 Sample.w = (Raise (CalledProcessError 1), w'))
    as Hb by (vm_compute; reflexivity).
  split; [exact Hc|]. split; [exact Hb|].
  destruct (failed_build_keeps_output_directory Sample.E Sample.base Sample.tpl 1 Sample.w
              1 w' Hc Hb) as [Hd Hm].
  split; [exact Hd|]. etransitivity; [exact Hm|]. vm_compute; reflexivity.
Defined.


Lemma wf_w_pack : wf Sample.w_pack.
Proof.
  split; [apply closedb_closed; vm_compute; reflexivity | intros _; vm_compute; reflexivity].
Qed.

Lemma mapping_manifest_packaged_witness :
  let a := default_args (lit "m.json") in
  let w' := (Pack.main Sample.E_pack a Sample.w_pack).2 in
  let ko := Sample.P "/work/docker_build2" in
  Pack.main Sample.E_pack a Sample.w_pack = (Ok tt, w') /\
  children (files w') ko ≡ₚ [lit "a.bin"; lit "b.bin"; DOCKERFILE_NAME] /\
  files w' !! (ko ++ [lit "a.bin"]) = Some (File [1; 2] (exec_mode 420)) /\
  files w' !! (ko ++ [lit "b.bin"]) = Some (File [3] (exec_mode 384)) /\
  files w' !! (ko ++ [lit "old.bin"]) = None /\
  exists text,
    utf8_encode (compose_text (lit "binaries") (lit "ctf-binaries:latest")
                   (lit "docker_build2")) = Some text /\
    read_bytes (parse_path COMPOSE_FILENAME) w' = (Ok text, w').
Proof.
  intros a w' ko.
  assert (Pack.main Sample.E_pack a Sample.w_pack = (Ok tt, w')) as Hm
    by (vm_compute; reflexivity).
  split; [exact Hm|].
  destruct (mapping_manifest_packaged Sample.E_pack a Sample.w_pack Sample.workspace
              (parse_path (lit "/work/m.json")) w' wf_w_pack)
    as (_ & Hlist & Hch & _ & _ & _ & Hcompose & _);
    [vm_compute; reflexivity | vm_compute; reflexivity | vm_compute; reflexivity
    | exact Hm |].
  split; [exact Hch|].
  split; [vm_compute; reflexivity|]. split; [vm_compute; reflexivity|].
  split; [vm_compute; reflexivity|]. exact Hcompose.
Defined.


(** * Further properties of the generator *)

(** ** Substitution *)

(** ** Templates without a placeholder, and placeholders without a partner *)

Lemma replace_scan_absent {A} `{EqDecision A} (old new s : list A) :
  ~ infix old s -> replace_scan old new s = s.
Proof.
  induction s as [|c t IH]; intros Hno; [apply replace_scan_nil|].
  rewrite replace_scan_miss.
  - f_equal. apply IH. intros Hin. apply Hno. by apply infix_cons.
  - destruct (startswith old (c :: t)) eqn:E; [|done].
    exfalso. apply Hno. apply startswith_split in E as [s2 ->]. by exists [], s2.
Qed.

Lemma replace_absent {A} `{EqDecision A} (old new s : list A) :
  old <> [] -> contains old s = false -> replace old new s = s.
Proof.
  intros Hne Hc. rewrite replace_nonempty by done. apply replace_scan_absent.
  intros Hin%contains_infix. congruence.
Qed.

Lemma not_contains {A} `{EqDecision A} (sub s : list A) :
  ~ infix sub s -> contains sub s = false.
Proof. intros H. destruct (contains sub s) eqn:E; [|done]. by apply contains_infix in E. Qed.

(** X2: a text without [{FLAG}], [{XOR_ENC}] and [{RANDOM_INT}] comes back as
    it is, whatever the flag, and no random number is drawn. *)
Theorem text_without_placeholders_unchanged tpl flag w :
  contains FLAG_TOKEN tpl = false ->
  contains XOR_ENC_TOKEN tpl = false ->
  contains RANDOM_INT_TOKEN tpl = false ->
  prepare_program_from_template tpl flag w = (Ok tpl, w).
Proof.
  intros Hf Hx Hr. unfold prepare_program_from_template.
  rewrite (replace_absent FLAG_TOKEN) by done.
  unfold subst_xor, bind. rewrite Hx. simpl. unfold subst_random_int. by rewrite Hr.
Qed.

Lemma clash_no_infix {A} (old T : list A) : clash old T -> old <> [] -> ~ infix old T.
Proof.
  intros [Hc _] Hne (a & b & E). apply (Hc a (old ++ b)); [done | by destruct old|].
  left. by apply prefix_app_r.
Qed.

Lemma clash_no_straddle {A} (old T : list A) : clash old T -> no_straddle T old.
Proof.
  intros [Hc _] P1 P2 -> HP1 HP2 [k ->]. apply (Hc k P1); [done..|].
  right. by apply prefix_app_r.
Qed.

(** A flag brings no placeholder ["{U..."] with it. *)
Lemma flag_brings_no_token P p1 rest flag tpl :
  P = 123 :: p1 :: rest -> ~ lowalnum p1 -> 102 ∉ P ->
  is_flag_token flag -> ~ infix P tpl -> ~ infix P (replace FLAG_TOKEN flag tpl).
Proof.
  intros HP Hp1 H102 Hf Hno Hin. apply Hno.
  rewrite replace_nonempty in Hin by done.
  destruct (flag_token_head _ Hf) as [t' Et].
  pose proof (clash_flag_token P p1 rest flag HP Hp1 H102 Hf) as Hc.
  eapply (replace_scan_no_new_infix FLAG_TOKEN flag 102 t'); [done | done | | done | | | done].
  - by subst P.
  - apply clash_no_infix; [done | by subst P].
  - by apply clash_no_straddle.
Qed.

(** X3: a template with [{KEY}] but without [{XOR_ENC}] keeps [{KEY}] as it
    is written: no key is drawn for it. *)
Theorem key_without_xor_stays tpl w :
  contains KEY_TOKEN tpl = true ->
  contains XOR_ENC_TOKEN tpl = false ->
  exists flag w1 program w2,
    gen_flag w = (Ok flag, w1) /\
    prepare_program_from_template tpl flag w1 = (Ok program, w2) /\
    contains KEY_TOKEN program = true /\
    subst_xor (replace FLAG_TOKEN flag tpl) flag w1 = (Ok (replace FLAG_TOKEN flag tpl), w1).
Proof.
  intros Hk Hx. destruct (gen_flag_spec w) as (flag & Eg & Hf).
  assert (infix KEY_TOKEN (replace FLAG_TOKEN flag tpl)) as Hk1.
  { rewrite replace_nonempty by done. apply replace_scan_keeps; [done | |].
    - apply clashb_clash. by vm_compute.
    - by apply contains_infix. }
  assert (contains XOR_ENC_TOKEN (replace FLAG_TOKEN flag tpl) = false) as Hx1.
  { apply not_contains.
    apply (flag_brings_no_token XOR_ENC_TOKEN 88 [79; 82; 95; 69; 78; 67; 125]);
      [reflexivity | unfold lowalnum; lia | | done |].
    - change XOR_ENC_TOKEN with [123; 88; 79; 82; 95; 69; 78; 67; 125]. set_solver by lia.
    - intros Hin%contains_infix. congruence. }
  assert (subst_xor (replace FLAG_TOKEN flag tpl) flag (advance 12 w) =
          (Ok (replace FLAG_TOKEN flag tpl), advance 12 w)) as Hsx.
  { unfold subst_xor. by rewrite Hx1. }
  unfold prepare_program_from_template.
  destruct (subst_random_int (replace FLAG_TOKEN flag tpl) (advance 12 w))
    as [r w2] eqn:Er.
  assert (exists program, r = Ok program /\ infix KEY_TOKEN program) as (program & -> & Hk2).
  { unfold subst_random_int in Er.
    destruct (contains RANDOM_INT_TOKEN (replace FLAG_TOKEN flag tpl)).
    - destruct (randint_spec 1 10000 (advance 12 w)) as (ri & E & Hri); [lia|].
      unfold bind in Er. rewrite E in Er. injection Er as <- <-.
      eexists. split; [reflexivity|].
      apply replace_scan_keeps; [done | | exact Hk1]. apply clashb_clash. by vm_compute.
    - injection Er as <- <-. by eexists. }
  exists flag, (advance 12 w), program, w2. split; [done|].
  split; [by rewrite (bind_Ok _ _ _ _ _ Hsx)|].
  split; [by apply contains_infix | done].
Qed.

(** X4: whatever the template and the flag, a generated source holds no
    [{RANDOM_INT}]: every occurrence has got its number, and neither the
    flag nor the other substitutions bring one back. *)
Theorem random_int_never_left tpl flag w program w' :
  prepare_program_from_template tpl flag w = (Ok program, w') ->
  contains RANDOM_INT_TOKEN program = false.
Proof.
  unfold prepare_program_from_template.
  intros (p & w1 & _ & H)%bind_inv_Ok. unfold subst_random_int in H.
  destruct (contains RANDOM_INT_TOKEN p) eqn:Ec; [|by injection H as <- _].
  destruct (randint_spec 1 10000 w1) as (ri & E & Hri); [lia|].
  unfold bind in H. rewrite E in H. injection H as <- _.
  destruct (str_of_int_digits ri Hri) as [Hne Hd].
  destruct (str_of_int ri) as [|h new'] eqn:En; [done|].
  assert (forall x, x ∈ h :: new' -> x ∉ RANDOM_INT_TOKEN) as Hdis.
  { intros x Hx%Hd. change RANDOM_INT_TOKEN with
      [123; 82; 65; 78; 68; 79; 77; 95; 73; 78; 84; 125].
    unfold is_digit in Hx. set_solver by lia. }
  apply not_contains.
  eapply replace_scan_removes; [done | reflexivity | | |].
  - apply Hdis. left.
  - by apply disjoint_no_infix.
  - by apply disjoint_no_straddle.
Qed.

(** ** The names of the output directories *)

Lemma lit_inj s1 s2 : lit s1 = lit s2 -> s1 = s2.
Proof.
  unfold lit. intros H.
  rewrite <- (string_of_list_ascii_of_string s1), <- (string_of_list_ascii_of_string s2).
  f_equal. revert H. generalize (list_ascii_of_string s1) (list_ascii_of_string s2).
  induction l as [|a l IH]; intros [|b l']; simpl; try done.
  intros [= Hab Hl]. f_equal; [|by apply IH].
  apply N2Z.inj in Hab.
  rewrite <- (ascii_N_embedding a), <- (ascii_N_embedding b). by rewrite Hab.
Qed.

Lemma to_int_proper n :
  Z.to_int n <> Decimal.Pos Decimal.Nil /\ Z.to_int n <> Decimal.Neg Decimal.Nil.
Proof.
  destruct n as [|p|p]; simpl; split; try done;
    intros [= H]; by apply DecimalPos.Unsigned.to_uint_nonnil in H.
Qed.

(** [str] of an [int] tells the [int]. *)
Lemma str_of_int_inj n m : str_of_int n = str_of_int m -> n = m.
Proof.
  unfold str_of_int. intros H%lit_inj. apply DecimalZ.to_int_inj.
  destruct (to_int_proper n) as [Hn1 Hn2], (to_int_proper m) as [Hm1 Hm2].
  pose proof (DecimalString.NilZero.isi _ Hn1 Hn2) as E1.
  pose proof (DecimalString.NilZero.isi _ Hm1 Hm2) as E2.
  rewrite H in E1. congruence.
Qed.

Lemma string_of_uint_digits d x :
  x ∈ lit (DecimalString.NilEmpty.string_of_uint d) -> 48 <= x <= 57.
Proof.
  induction d; simpl; try (by intros ?%elem_of_nil);
    intros [-> | ?]%elem_of_cons; (done || by apply IHd).
Qed.

(** The decimal digits of a number that is not negative. *)
Lemma str_of_int_nonneg n x : 0 <= n -> x ∈ str_of_int n -> 48 <= x <= 57.
Proof.
  intros Hn. unfold str_of_int. destruct n as [|p|p]; [| |lia].
  - simpl. intros [-> | ?%elem_of_nil]%elem_of_cons; done.
  - simpl. unfold DecimalString.NilZero.string_of_uint.
    destruct (Pos.to_uint p) eqn:E; try apply string_of_uint_digits.
    by apply DecimalPos.Unsigned.to_uint_nonnil in E.
Qed.

Lemma split_at_first {A} (x : A) a a' b b' :
  x ∉ a -> x ∉ a' -> a ++ x :: b = a' ++ x :: b' -> a = a' /\ b = b'.
Proof.
  revert a'. induction a as [|y a IH]; intros [|y' a'] Ha Ha'; simpl.
  - by intros [= ->].
  - intros [= -> _]. exfalso. apply Ha'. left.
  - intros [= -> _]. exfalso. apply Ha. left.
  - intros [= -> E]. destruct (IH a') as [-> ->]; [| |done|done].
    + intros ?. apply Ha. by right.
    + intros ?. apply Ha'. by right.
Qed.

Lemma split_at_last {A} (x : A) a a' b b' :
  x ∉ b -> x ∉ b' -> a ++ x :: b = a' ++ x :: b' -> a = a' /\ b = b'.
Proof.
  intros Hb Hb' E. apply (f_equal (@rev A)) in E.
  rewrite !rev_app_distr in E. simpl in E. rewrite <- !app_assoc in E. simpl in E.
  apply split_at_first in E as [E1 E2].
  - split; [by apply rev_inj | by apply rev_inj].
  - intros H%list_elem_of_In%in_rev%list_elem_of_In. done.
  - intros H%list_elem_of_In%in_rev%list_elem_of_In. done.
Qed.

(** The last component of a text that ends with [t], where [t] has no
    separator. *)
Lemma split_on_app_last sep s t :
  sep ∉ t ->
  exists cs c, split_on sep s = cs ++ [c] /\ split_on sep (s ++ t) = cs ++ [c ++ t].
Proof.
  intros Ht. induction s as [|x s (cs & c & E1 & E2)]; simpl.
  - exists [], []. split; [done|]. by rewrite (split_on_id sep t Ht).
  - rewrite E1, E2. destruct (bool_decide (x = sep)).
    + by exists ([] :: cs), c.
    + destruct cs as [|c0 cs]; simpl.
      * by exists [], (x :: c).
      * by exists ((x :: c0) :: cs), c.
Qed.

Lemma name_joinpath p q : parts q <> [] -> name (joinpath p q) = name q.
Proof.
  intros Hq. unfold name, joinpath. destruct (is_absolute q); [done|]. simpl.
  destruct (exists_last Hq) as (l & x & ->). by rewrite app_assoc, !last_last.
Qed.

Lemma job_dir_name base tpl i :
  0 <= i -> exists c0, name (job_out_dir base tpl i) = c0 ++ 95 :: str_of_int i.
Proof.
  intros Hi.
  assert (47 ∉ str_of_int i) as Hd.
  { intros H%(str_of_int_nonneg i 47 Hi). lia. }
  assert (47 ∉ [95]) as H95 by (intros [? | []%elem_of_nil]%elem_of_cons; done).
  destruct (split_on_app_last 47 (stem tpl) [95] H95) as (cs0 & c0 & _ & E1).
  destruct (split_on_app_last 47 (stem tpl ++ [95]) (str_of_int i) Hd) as (cs & c & E2 & E3).
  rewrite E1 in E2. apply app_inj_tail in E2 as [<- <-].
  exists c0.
  assert (parts (parse_path (stem tpl ++ lit "_" ++ str_of_int i)) =
          filter (fun c => c <> [] /\ c <> lit ".") cs0 ++ [c0 ++ 95 :: str_of_int i]) as Ep.
  { replace (stem tpl ++ lit "_" ++ str_of_int i) with ((stem tpl ++ [95]) ++ str_of_int i)
      by (by rewrite <- app_assoc).
    unfold parse_path. cbn [parts]. rewrite E3, filter_app. f_equal.
    replace (c0 ++ 95 :: str_of_int i) with ((c0 ++ [95]) ++ str_of_int i)
      by (by rewrite <- app_assoc).
    rewrite filter_cons_True; [done|]. split.
    - by destruct c0.
    - destruct c0 as [|? [|]]; simpl; try (intros [=]; fail).
      all: try (by destruct (str_of_int i)). }
  unfold job_out_dir. rewrite name_joinpath by (rewrite Ep; by destruct (filter _ _)).
  unfold name. by rewrite Ep, last_last.
Qed.

(** X7: jobs with different indices have different output directories,
    whatever their templates. *)
Theorem job_directories_differ base tpl tpl' i j :
  0 <= i -> 0 <= j -> i <> j ->
  job_out_dir base tpl i <> job_out_dir base tpl' j.
Proof.
  intros Hi Hj Hne E. apply Hne.
  destruct (job_dir_name base tpl i Hi) as [c Ec].
  destruct (job_dir_name base tpl' j Hj) as [c' Ec'].
  rewrite E, Ec' in Ec. apply split_at_last in Ec as [_ Ed].
  - symmetry. by apply str_of_int_inj.
  - intros H%(str_of_int_nonneg j 95 Hj). lia.
  - intros H%(str_of_int_nonneg i 95 Hi). lia.
Qed.

(** ** The XOR encoding of any text *)

Lemma lor_byte a b : 0 <= a < 256 -> 0 <= b < 256 -> 0 <= Z.lor a b < 256.
Proof.
  intros Ha Hb. split; [apply Z.lor_nonneg; lia|].
  destruct (Z.eq_dec (Z.lor a b) 0) as [-> | Hne]; [lia|].
  apply (Z.log2_lt_pow2 _ 8); [pose proof (proj2 (Z.lor_nonneg a b)); lia|].
  rewrite Z.log2_lor by lia. apply Z.max_lub_lt.
  - destruct (Z.eq_dec a 0) as [-> | ?]; [done|]. apply Z.log2_lt_pow2; lia.
  - destruct (Z.eq_dec b 0) as [-> | ?]; [done|]. apply Z.log2_lt_pow2; lia.
Qed.

Lemma land_63 c : 0 <= Z.land c 63 < 64.
Proof. change 63 with (Z.ones 6). rewrite Z.land_ones by lia. apply Z.mod_pos_bound. lia. Qed.

Lemma shiftr_bound c k n : 0 <= c < 2 ^ (k + n) -> 0 <= k -> 0 <= n -> 0 <= Z.shiftr c k < 2 ^ n.
Proof.
  intros Hc Hk Hn. rewrite Z.shiftr_div_pow2 by done. split.
  - apply Z.div_pos; lia.
  - apply Z.div_lt_upper_bound; [lia|]. rewrite <- Z.pow_add_r by lia. lia.
Qed.

Lemma utf8_encode_char_bytes c b :
  utf8_encode_char c = Some b -> Forall (fun x => 0 <= x < 256) b.
Proof.
  unfold utf8_encode_char.
  destruct (Z.ltb_spec c 0); [done|].
  destruct (Z.ltb_spec c 128); [intros [= <-]; repeat constructor; lia|].
  pose proof (land_63 c). pose proof (land_63 (Z.shiftr c 6)).
  pose proof (land_63 (Z.shiftr c 12)).
  destruct (Z.ltb_spec c 2048).
  { intros [= <-]. pose proof (shiftr_bound c 6 5). repeat constructor; apply lor_byte; lia. }
  destruct (Z.ltb_spec c 65536).
  { destruct (_ && _); [done|]. intros [= <-].
    pose proof (shiftr_bound c 12 4). repeat constructor; apply lor_byte; lia. }
  destruct (Z.ltb_spec c 1114112); [|done].
  intros [= <-]. pose proof (shiftr_bound c 18 3). repeat constructor; apply lor_byte; lia.
Qed.

Lemma utf8_encode_bytes s raw :
  utf8_encode s = Some raw -> Forall (fun x => 0 <= x < 256) raw.
Proof.
  revert raw. induction s as [|c s IH]; simpl; intros raw; [by intros [= <-]|].
  destruct (utf8_encode_char c) as [b|] eqn:Ec; [|done].
  destruct (utf8_encode s) as [bs|]; [|done]. intros [= <-].
  apply Forall_app. split; [by eapply utf8_encode_char_bytes | by apply IH].
Qed.

Lemma escape_bytes_length b :
  Forall (fun x => 0 <= x < 256) b -> len (escape_bytes b) = 4 * len b.
Proof.
  unfold len. induction 1 as [|x b Hx _ IH]; [done|].
  destruct (format_02x_byte x Hx) as (h1 & h2 & E & _).
  rewrite escape_bytes_cons, E. simpl length. lia.
Qed.

(** X1: any text that has a UTF-8 encoding gets the escape sequence of its
    bytes XORed with a key in [1, 255], four characters a byte, from which
    the bytes are read back; a text that has none (a lone surrogate) raises
    [UnicodeEncodeError], after the key was drawn. *)
Theorem xor_encoding_of_any_text s w :
  match utf8_encode s with
  | Some raw =>
      exists key,
        1 <= key <= 255 /\
        xor_encode_bytes s w =
          (Ok (escape_bytes (map (fun b => Z.lxor b key) raw), key), advance 1 w) /\
        len (escape_bytes (map (fun b => Z.lxor b key) raw)) = 4 * len raw /\
        xor_decode key <$> unescape (escape_bytes (map (fun b => Z.lxor b key) raw)) =
          Some raw
  | None => xor_encode_bytes s w = (Raise UnicodeEncodeError, advance 1 w)
  end.
Proof.
  destruct (randint_spec 1 255 w) as (key & E & Hk); [lia|].
  destruct (utf8_encode s) as [raw|] eqn:Er.
  - pose proof (utf8_encode_bytes _ _ Er) as Hraw.
    assert (Forall (fun x => 0 <= x < 256) (map (fun b => Z.lxor b key) raw)) as Hx.
    { apply Forall_map. eapply Forall_impl; [done|]. intros c Hc. simpl in *.
      apply lxor_byte; lia. }
    exists key. split; [done|]. split; [|split].
    + unfold xor_encode_bytes, bind. rewrite E, Er. simpl. unfold bytes_of_ints.
      replace (forallb _ _) with true; [done|]. symmetry. apply forallb_forall.
      intros x Hin%list_elem_of_In. rewrite Forall_forall in Hx. apply Hx in Hin. lia.
    + rewrite escape_bytes_length by done. unfold len. by rewrite length_map.
    + rewrite unescape_escape by done. simpl. f_equal. unfold xor_decode.
      rewrite map_map. rewrite <- (map_id raw) at 2. apply map_ext.
      intros a. apply lxor_involutive.
  - unfold xor_encode_bytes, bind. by rewrite E, Er.
Qed.

(** ** The templates *)

(** ** The template store *)

Lemma str_leb_refl a : str_leb a a = true.
Proof.
  induction a as [|x a IH]; [done|]. simpl.
  by rewrite bool_decide_eq_true_2, IH, orb_true_r.
Qed.

Lemma str_leb_total a b : str_leb a b = false -> str_leb b a = true.
Proof.
  revert b. induction a as [|x a IH]; intros [|y b]; simpl; try done.
  intros [Hlt Heq]%orb_false_iff. apply Z.ltb_ge in Hlt.
  destruct (bool_decide_reflect (x = y)) as [-> | Hne]; simpl in Heq.
  - rewrite (IH _ Heq), bool_decide_eq_true_2 by done. by rewrite orb_true_r.
  - replace (y <? x) with true; [done|]. symmetry. apply Z.ltb_lt. lia.
Qed.

Lemma str_leb_trans a b c : str_leb a b = true -> str_leb b c = true -> str_leb a c = true.
Proof.
  revert b c. induction a as [|x a IH]; intros [|y b] [|z c]; simpl; try done.
  intros [Hxy | [Exy Hab]%andb_true_iff]%orb_true_iff
         [Hyz | [Eyz Hbc]%andb_true_iff]%orb_true_iff.
  - apply Z.ltb_lt in Hxy, Hyz. replace (x <? z) with true; [done|].
    symmetry. apply Z.ltb_lt. lia.
  - apply bool_decide_eq_true in Eyz as <-. by rewrite Hxy.
  - apply bool_decide_eq_true in Exy as ->. by rewrite Hyz.
  - apply bool_decide_eq_true in Exy as ->. apply bool_decide_eq_true in Eyz as ->.
    rewrite bool_decide_eq_true_2 by done. rewrite (IH _ _ Hab Hbc). by rewrite orb_true_r.
Qed.

Section SortedFacts.
Context {A : Type} (key : A -> str).

Lemma insert_sorted_perm x l : insert_sorted key x l ≡ₚ x :: l.
Proof.
  induction l as [|y l IH]; simpl; [done|].
  destruct (str_leb (key x) (key y)); [done|]. rewrite IH. apply Permutation_swap.
Qed.

Lemma sorted_perm l : sorted key l ≡ₚ l.
Proof.
  induction l as [|x l IH]; simpl; [done|].
  unfold sorted in *. simpl. by rewrite insert_sorted_perm, IH.
Qed.

Lemma insert_sorted_ordered x l : ordered key l -> ordered key (insert_sorted key x l).
Proof.
  induction l as [|y l IH]; simpl; [done|]. intros [Hy Hl].
  destruct (str_leb (key x) (key y)) eqn:E; simpl.
  - split; [|done]. constructor; [done|].
    eapply Forall_impl; [done|]. intros z Hz. simpl in Hz. by eapply str_leb_trans.
  - split; [|by apply IH]. rewrite insert_sorted_perm. constructor; [|done].
    by apply str_leb_total.
Qed.

Lemma sorted_ordered l : ordered key (sorted key l).
Proof.
  induction l as [|x l IH]; simpl; [done|]. by apply insert_sorted_ordered.
Qed.

Lemma ordered_lookup l i j a b :
  ordered key l -> l !! i = Some a -> l !! j = Some b -> (i <= j)%nat ->
  str_leb (key a) (key b) = true.
Proof.
  revert i j. induction l as [|x l IH]; intros i j Ho Hi Hj Hij; [done|].
  destruct Ho as [Hx Ho]. destruct i as [|i], j as [|j]; simpl in *; try lia.
  - injection Hi as <-. injection Hj as <-. apply str_leb_refl.
  - injection Hi as <-. rewrite Forall_forall in Hx. apply Hx.
    by eapply list_elem_of_lookup_2.
  - eapply IH; [done.. | lia].
Qed.

End SortedFacts.

Lemma is_file_inv p w b w' :
  is_file p w = (Ok b, w') ->
  w' = w /\ (b = true <-> exists c m, stat p w = (Ok (File c m), w)).
Proof.
  unfold is_file, try_except, bind. destruct (stat p w) as [[n|e] w1] eqn:E;
    pose proof (stat_world _ _ _ _ E) as ->.
  - intros [= <- <-]. split; [done|].
    destruct n; split; try done; [by eexists _, _ | by intros (? & ? & [=])].
  - destruct e; simpl; try done. intros [= <- <-]. split; [done|].
    split; [done | by intros (? & ? & [=])].
Qed.

Lemma is_template_spec w p :
  is_template w p = true <->
  (exists c m, stat p w = (Ok (File c m), w)) /\ suffix p ∈ [lit ".c"; lit ".txt"].
Proof.
  unfold is_template. destruct (stat p w) as [[[c m|]|e] w1] eqn:E;
    try pose proof (stat_world _ _ _ _ E) as ->.
  - rewrite bool_decide_eq_true. split; [intros ?; split; [by eexists _, _ | done] | by intros [_ ?]].
  - split; [done | by intros [(? & ? & [=]) _]].
  - split; [done | by intros [(? & ? & [=]) _]].
Qed.

Lemma filter_templates_Ok ps w ts w' :
  filter_templates ps w = (Ok ts, w') ->
  w' = w /\ ts = List.filter (is_template w) ps.
Proof.
  revert ts w'. induction ps as [|p ps IH]; simpl; intros ts w'.
  - by intros [= <- <-].
  - intros (f & w1 & [-> Hf]%is_file_inv & H)%bind_inv_Ok.
    apply bind_inv_Ok in H as (rest & w1 & [-> ->]%IH & H). injection H as <- <-.
    split; [done|].
    destruct (is_template w p) eqn:Et.
    + apply is_template_spec in Et as [Hst Hs]. apply Hf in Hst as ->.
      by rewrite bool_decide_eq_true_2.
    + destruct f; [|done]. simpl.
      destruct (bool_decide_reflect (suffix p ∈ [lit ".c"; lit ".txt"])) as [Hs|]; [|done].
      assert (is_template w p = true) as Ht; [|congruence].
      apply is_template_spec. split; [by apply Hf | done].
Qed.

Lemma iterdir_Ok p w ps w' :
  iterdir p w = (Ok ps, w') ->
  w' = w /\ lookup_node (files w) (key_of p w) = Some Dir /\
  ps = map (fun x => MkPath (is_absolute p) (parts p ++ [x]))
           (children (files w) (key_of p w)).
Proof.
  unfold iterdir. intros (k & w1 & [-> ->]%locate_key & H)%bind_inv_Ok.
  apply bind_inv_Ok in H as (n & w1 & En & H).
  pose proof (stat_world _ _ _ _ En) as ->. apply stat_key in En.
  destruct n; [done|]. injection H as <- <-. done.
Qed.

(** X5: [list_templates] changes nothing and returns, in ascending order of
    their names and each once, exactly the regular files directly in the
    templates directory whose suffix is [.c] or [.txt]. *)
Theorem list_templates_lists_the_templates base w ts w' :
  list_templates base w = (Ok ts, w') ->
  let dir := TEMPLATES_DIR base in
  w' = w /\
  NoDup ts /\
  (forall p, p ∈ ts <->
     exists x c m,
       p = MkPath (is_absolute dir) (parts dir ++ [x]) /\
       files w !! (key_of dir w ++ [x]) = Some (File c m) /\
       stat p w = (Ok (File c m), w) /\
       suffix p ∈ [lit ".c"; lit ".txt"]) /\
  (forall i j p q, ts !! i = Some p -> ts !! j = Some q -> (i <= j)%nat ->
                   str_leb (name p) (name q) = true).
Proof.
  intros H dir. unfold list_templates in H. fold dir in H.
  apply bind_inv_Ok in H as (ex & w1 & [-> Hex]%exists_inv & H).
  destruct ex; [|done]. simpl in H.
  apply bind_inv_Ok in H as (ps & w1 & (-> & Hdir & Hps)%iterdir_Ok & H).
  apply bind_inv_Ok in H as (ts0 & w1 & [-> Hts]%filter_templates_Ok & H).
  injection H as <- <-.
  set (child := fun x => MkPath (is_absolute dir) (parts dir ++ [x])) in *.
  assert (Inj (=) (=) child) as Hinj.
  { intros x y [= E]. by apply app_inv_head in E as [= ->]. }
  assert (NoDup ts0) as Hnd.
  { rewrite Hts. apply NoDup_ListNoDup, List.NoDup_filter, NoDup_ListNoDup.
    rewrite Hps. apply (NoDup_fmap_2 child), NoDup_children. }
  split; [done|]. split; [by rewrite sorted_perm|]. split.
  - intros p. rewrite sorted_perm, Hts, list_elem_of_In, filter_In, <- list_elem_of_In.
    rewrite is_template_spec, Hps. split.
    + intros ((x & -> & Hx%elem_of_children)%list_elem_of_fmap & (c & m & Hst) & Hs).
      exists x, c, m. split; [done|]. split; [|done].
      pose proof Hst as Hl%stat_key.
      assert (key_of (child x) w = key_of dir w ++ [x]) as Ek.
      { unfold key_of, child. simpl. by rewrite app_assoc. }
      by rewrite Ek, lookup_node_snoc in Hl.
    + intros (x & c & m & -> & Hl & Hst & Hs). split; [|split; [by eexists _, _ | done]].
      apply list_elem_of_fmap. exists x. split; [done|]. apply elem_of_children. by eexists.
  - intros i j p q. apply ordered_lookup, sorted_ordered.
Qed.

(** ** What a job leaves alone *)

Lemma stays_os_mkdir p : inv (H:=stays) (os_mkdir p).
Proof.
  intros w. destruct (os_mkdir p w) as [r w'] eqn:E.
  apply os_mkdir_inv in E as [(_ & k & _ & Hn & _ & ->) | [_ ->]]; [|done].
  intros m n Hm. simpl. rewrite lookup_insert_ne; [done|]. intros <-.
  destruct k; [done|]. simpl in Hn. congruence.
Qed.

Lemma stays_mkdir_one ok p : inv (H:=stays) (mkdir_one ok p).
Proof.
  apply inv_try_except; [apply stays_os_mkdir | intros e].
  apply inv_bind; [apply inv_is_dir | intros d].
  destruct (_ || _); [apply inv_raise | apply inv_ret].
Qed.

Lemma stays_mkdir_parents fuel ok p : inv (H:=stays) (mkdir_parents fuel ok p).
Proof.
  revert ok p. induction fuel as [|fuel IH]; intros ok p; simpl.
  - apply inv_try_except; [apply stays_mkdir_one | intros; apply inv_raise].
  - apply inv_try_except; [apply stays_mkdir_one | intros e].
    destruct (parts p); [apply inv_raise|].
    apply inv_bind; [apply IH | intros; apply stays_mkdir_one].
Qed.

Lemma stays_mkdir par ok p : inv (H:=stays) (mkdir par ok p).
Proof. unfold mkdir. destruct par; [apply stays_mkdir_parents | apply stays_mkdir_one]. Qed.

Lemma stays_mkdtemp_loop fuel dir prefix : inv (H:=stays) (mkdtemp_loop fuel dir prefix).
Proof.
  induction fuel as [|fuel IH]; cbn [mkdtemp_loop]; [apply inv_raise|].
  apply inv_bind; [by apply inv_choices | intros nm].
  apply inv_try_except; [|done].
  apply inv_bind; [apply stays_os_mkdir | intros; apply inv_ret].
Qed.

Lemma stays_build_prologue E base tpl idx : inv (H:=stays) (build_prologue E base tpl idx).
Proof.
  unfold build_prologue.
  apply inv_bind; [by apply inv_load_metadata | intros meta].
  do 4 (apply inv_bind; [apply inv_dict_get | intros ?]).
  apply inv_bind; [apply stays_mkdir | intros _].
  apply inv_bind; [apply stays_mkdtemp_loop | intros; apply inv_ret].
Qed.

(** X8: whatever the outcome of a job, a node that was there before it and
    does not lie in the output directory of the job is there after it,
    unchanged: templates, the results of other jobs, anything else.  (The
    file system is one in which every node lies in a directory.) *)
Theorem job_leaves_other_files E b tpl idx w r w' m n :
  closed (files w) ->
  files w !! m = Some n ->
  ~ parts (job_out_dir (MkPath true b) tpl idx) `prefix_of` m ->
  build_one E (MkPath true b) tpl idx w = (r, w') ->
  files w' !! m = Some n.
Proof.
  intros Hc Hm Hout Hone. unfold build_one in Hone.
  apply bind_inv in Hone as [(j & w1 & Hpro & Hrest) | (e & Hpro & _)].
  2: { pose proof (stays_build_prologue E (MkPath true b) tpl idx w) as Hs.
       rewrite Hpro in Hs. by apply Hs. }
  pose proof (stays_build_prologue E (MkPath true b) tpl idx w) as Hs.
  rewrite Hpro in Hs. simpl in Hs. apply Hs in Hm as Hm1.
  destruct (build_prologue_Ok _ _ _ _ _ _ _ Hpro)
    as (Ho & Hdo & Hol & Hta & Hdt & (nm & Ht) & Hfresh & Htdir & _).
  rewrite Ho in *. set (o := parts (job_out_dir (MkPath true b) tpl idx)) in *.
  assert (parts (tmp j) <> []) as Htne by (rewrite Ht; by destruct (tmpdir E)).
  assert (~ parts (tmp j) `prefix_of` m) as Htm.
  { intros [k Ek]. destruct k as [|x k].
    - rewrite app_nil_r in Ek. congruence.
    - rewrite Ek, closed_nothing_below in Hm; [done | done |].
      by rewrite lookup_node_ne. }
  assert (forall x, m <> o ++ [x]) as Hox.
  { intros x ->. apply Hout. by eexists. }
  assert (forall x, m <> parts (tmp j) ++ [x]) as Htx.
  { intros x ->. apply Htm. by eexists. }
  apply try_finally_inv in Hrest as (r1 & w2 & Hbody & Hclean).
  assert (files w2 !! m = Some n) as Hm2.
  { assert (inv (H:=keeps m) (build_body E tpl j)) as Hk.
    { apply inv_build_body.
      - split; [done|]. split; [done|]. simpl.
        rewrite parse_program_c, parse_Dockerfile. repeat split.
        + intros k ->%located_join_abs; [|done]. intros E'. by eapply Htx.
        + intros k ->%located_join_abs; [|done]. intros E'. by eapply Htx.
        + intros r' Hr. rewrite Ho in Hr. rewrite (Hr (job_out_dir_absolute _ _ _)). simpl.
          fold o. rewrite normalize_id by done. intros E'. by eapply Hox.
      - split; [done|]. intros k Hk. unfold bin_path in Hk.
        rewrite parse_challenge, Ho in Hk.
        apply located_join_abs in Hk as ->; [|apply job_out_dir_absolute].
        intros E'. by eapply Hox.
      - split; [done|]. intros k Hk. unfold meta_path in Hk.
        rewrite parse_meta_json, Ho in Hk.
        apply located_join_abs in Hk as ->; [|apply job_out_dir_absolute].
        intros E'. by eapply Hox. }
    specialize (Hk w1). rewrite Hbody in Hk. simpl in Hk. by rewrite Hk. }
  assert (inv (H:=keeps m) (build_cleanup j)) as Hk.
  { apply inv_build_cleanup. split; [done|]. intros k (_ & _ & Hk). by rewrite (Hk Hta). }
  specialize (Hk w2).
  destruct Hclean as [[Hcl _] | (e & Hcl & _)]; rewrite Hcl in Hk; simpl in Hk; by rewrite Hk.
Qed.

(** ** What a successful job records *)

Lemma randint_inv a b w n w' : randint a b w = (Ok n, w') -> a <= n <= b.
Proof.
  unfold randint. destruct (Z.ltb_spec b a); [done|].
  unfold bind, randbelow, bind, draw. simpl. intros [= <- _].
  pose proof (Z.mod_pos_bound (tape w (cursor w)) (b - a + 1)). lia.
Qed.

Lemma pad_stage_nonneg j w n w' : pad_stage j w = (Ok n, w') -> 0 <= n.
Proof.
  unfold pad_stage. intros (ex & w1 & _ & H)%bind_inv_Ok.
  apply bind_inv_Ok in H as (positive & w2 & _ & H).
  destruct positive; [|by injection H as <- _].
  apply bind_inv_Ok in H as (hi & w3 & _ & H).
  apply bind_inv_Ok in H as (n' & w4 & Hr%randint_inv & H).
  apply bind_inv_Ok in H as (? & w5 & _ & H). injection H as <- _. lia.
Qed.

Lemma build_stage_flag E tpl j w fc w' :
  build_stage E tpl j w = (Ok fc, w') -> is_flag_token fc.1.
Proof.
  unfold build_stage. intros (text & w1 & _ & H)%bind_inv_Ok.
  apply bind_inv_Ok in H as (f & w2 & Hf & H).
  destruct (gen_flag_spec w1) as (f' & Ef & Htok).
  assert (f = f') as -> by congruence.
  do 8 (apply bind_inv_Ok in H as (? & ? & _ & H)). by injection H as <- _.
Qed.

(** X9: a job that returns has written its record: the metadata file in its
    output directory holds the serialised record that [build_one] returns
    (the cleanup does not take it away), the record names the template file,
    its flag has the form of a flag and its pad count is not negative.  (The
    file system is one in which every node lies in a directory.) *)
Theorem successful_job_is_recorded E b tpl idx w r w' :
  closed (files w) ->
  build_one E (MkPath true b) tpl idx w = (Ok r, w') ->
  template r = name tpl /\
  is_flag_token (flag r) /\
  0 <= pad r /\
  exists text mode,
    utf8_encode (json_dumps E (meta_json r)) = Some text /\
    files w' !! (parts (job_out_dir (MkPath true b) tpl idx) ++ [lit "meta.json"]) =
      Some (File text mode).
Proof.
  intros Hc Hone. unfold build_one in Hone.
  apply bind_inv_Ok in Hone as (j & w1 & Hpro & Hrest).
  destruct (build_prologue_Ok _ _ _ _ _ _ _ Hpro)
    as (Ho & Hdo & Hol & Hta & Hdt & (nm & Ht) & Hfresh & Htdir & Hnp).
  specialize (Hnp Hc). rewrite Ho in *.
  set (o := parts (job_out_dir (MkPath true b) tpl idx)) in *.
  apply try_finally_inv in Hrest as (r1 & w2 & Hbody & Hclean).
  assert (r1 = Ok r /\ build_cleanup j w2 = (Ok tt, w')) as [-> Hcl].
  { destruct Hclean as [[? <-] | (e & _ & [=])]. done. }
  unfold build_body in Hbody.
  apply bind_inv_Ok in Hbody as (fc & w3 & Hst & Hbody).
  apply bind_inv_Ok in Hbody as (n & w4 & Hpad & Hrec).
  unfold record_stage in Hrec.
  apply bind_inv_Ok in Hrec as ([] & w5 & Hw & Hrec).
  apply bind_inv_Ok in Hrec as ([] & w6 & Hpr & Hrec). injection Hrec as <- <-.
  injection Hpr as <-. simpl.
  split; [done|]. split; [by eapply build_stage_flag|]. split; [by eapply pad_stage_nonneg|].
  apply write_text_Ok in Hw as (km & text & mm & Ekm & Htext & Hf & _).
  assert (km = o ++ [lit "meta.json"]) as ->.
  { apply locate_Ok in Ekm as [Hk _]. unfold meta_path in Hk.
    rewrite parse_meta_json, Ho in Hk.
    by apply located_join_abs in Hk; [|apply job_out_dir_absolute]. }
  exists text, mm. split; [done|].
  assert (~ parts (tmp j) `prefix_of` o ++ [lit "meta.json"]) as Hnm.
  { intros [Hp | Hp]%prefix_snoc_inv; [|done].
    symmetry in Hp. revert Hp. eapply reserved_ne_tmp; [by rewrite Ht, last_snoc|].
    unfold reserved_names. set_solver. }
  assert (inv (H:=keeps (o ++ [lit "meta.json"])) (build_cleanup j)) as Hk.
  { apply inv_build_cleanup. split; [done|]. intros k (_ & _ & Hk). by rewrite (Hk Hta). }
  match type of Hcl with build_cleanup j ?w0 = _ => specialize (Hk w0) end.
  rewrite Hcl in Hk. simpl in Hk. rewrite Hk, Hf. by rewrite lookup_insert_eq.
Qed.

(** ** The records of a run *)

Lemma build_one_record E base tpl idx w r w' :
  build_one E base tpl idx w = (Ok r, w') ->
  template r = name tpl /\ is_flag_token (flag r) /\ 0 <= pad r.
Proof.
  unfold build_one. intros (j & w1 & _ & Hrest)%bind_inv_Ok.
  apply try_finally_inv in Hrest as (r1 & w2 & Hbody & Hclean).
  assert (r1 = Ok r) as -> by (by destruct Hclean as [[? <-] | (e & _ & [=])]).
  unfold build_body in Hbody.
  apply bind_inv_Ok in Hbody as (fc & w3 & Hst & Hbody).
  apply bind_inv_Ok in Hbody as (n & w4 & Hpad & Hrec).
  unfold record_stage in Hrec.
  apply bind_inv_Ok in Hrec as ([] & w5 & _ & Hrec).
  apply bind_inv_Ok in Hrec as ([] & w6 & _ & Hrec). injection Hrec as <- _. simpl.
  split; [done|]. split; [by eapply build_stage_flag | by eapply pad_stage_nonneg].
Qed.

(** X15: the loop of the driver only adds to the results: when it returns, the
    results it was given come first, in their order, followed by at most
    one record for each index; each new record names one of the templates
    of the run, has a flag of the form of a flag and a pad count that is not
    negative. *)
Theorem results_name_templates E base templates idxs results w rs w' :
  main_loop E base templates idxs results w = (Ok rs, w') ->
  exists new,
    rs = results ++ new /\ (length new <= length idxs)%nat /\
    Forall (sound_record templates) new.
Proof.
  revert results w. induction idxs as [|i idxs IH]; intros results w H.
  - injection H as <- _. exists []. by rewrite app_nil_r.
  - cbn [main_loop] in H. apply bind_inv_Ok in H as (rs1 & w1 & Hstep & H).
    destruct (IH _ _ H) as (new & -> & Hlen & Hall).
    unfold main_step in Hstep.
    apply bind_inv_Ok in Hstep as (tpl & w0 & (_ & _ & Hin)%choice_world & Hstep).
    apply try_except_inv in Hstep
      as [(a & Hb & [= <-]) | [(e & _ & _ & [=]) | (e & w2 & _ & _ & Hh)]].
    + apply bind_inv_Ok in Hb as (r & w2 & Hr%build_one_record & [= <- _]).
      exists (r :: new). rewrite <- app_assoc. split; [done|]. split; [simpl; lia|].
      apply Forall_cons. split; [|done]. destruct Hr as (Ht & Hf & Hp).
      split; [by exists tpl | done].
    + apply bind_inv_Ok in Hh as ([] & w3 & _ & [= <- _]).
      exists new. split; [done|]. split; [simpl; lia | done].
Qed.

(** ** The sidecar metadata *)

Lemma locate_raises p w e w' :
  dotdot ∉ parts p -> locate p w = (Raise e, w') -> e = FileNotFoundError.
Proof.
  intros Hd. unfold locate. rewrite bool_decide_eq_false_2 by done.
  destruct (is_absolute p); [done|]. unfold bind, getcwd.
  destruct (cwd_ok w); [done|]. by intros [= <- _].
Qed.

Lemma stat_raises p w e w' :
  dotdot ∉ parts p -> stat p w = (Raise e, w') -> e = FileNotFoundError.
Proof.
  intros Hd. unfold stat. intros [(k & w1 & _ & H) | (e' & Hl & [= <-])]%bind_inv.
  - unfold bind, get_world in H. destruct (lookup_node (files w1) k); [done|].
    by injection H as <- _.
  - by eapply locate_raises.
Qed.

Lemma read_text_raises p w e w' :
  dotdot ∉ parts p -> read_text p w = (Raise e, w') -> is_Exception e = true.
Proof.
  intros Hd. unfold read_text, read_bytes.
  intros [(b & w1 & _ & H) | (e' & H & [= <-])]%bind_inv.
  - apply bind_inv in H as [(s & w2 & _ & H) | (e' & H & [= <-])]; [done|].
    destruct (utf8_decode b); [done|]. by injection H as <- _.
  - apply bind_inv in H as [(n & w2 & _ & H) | (e'' & H & [= <-])].
    + destruct n; [|by injection H as <- _]. done.
    + by rewrite (stat_raises _ _ _ _ Hd H).
Qed.

Lemma sidecar_no_dotdot tpl : dotdot ∉ parts tpl -> dotdot ∉ parts (sidecar tpl).
Proof.
  intros Hd. simpl. intros [H | H%list_elem_of_singleton]%elem_of_app.
  - apply Hd. destruct (removelast_prefix (parts tpl)) as [r Hr].
    rewrite Hr. apply elem_of_app. by left.
  - apply (f_equal (@length Z)) in H. rewrite length_app in H. simpl in H. lia.
Qed.

(** X6: [load_metadata] never fails for a template that has a file name and
    no [..] in its path: without a sidecar it returns the empty dictionary
    and prints nothing; with a sidecar that cannot be read or parsed it
    returns the empty dictionary after one warning; otherwise it returns
    what the sidecar holds.  No file changes and no random number is
    drawn. *)
Theorem broken_metadata_is_skipped E tpl w :
  name tpl <> [] -> dotdot ∉ parts tpl ->
  exists meta w',
    load_metadata E tpl w = (Ok meta, w') /\
    files w' = files w /\ cwd w' = cwd w /\ cursor w' = cursor w /\
    ((meta = empty_dict /\ stdout w' = stdout w /\
      stat (sidecar tpl) w = (Raise FileNotFoundError, w)) \/
     (stdout w' = stdout w /\
      exists text, read_text (sidecar tpl) w = (Ok text, w) /\
                   json_loads E text = Some meta) \/
     (meta = empty_dict /\
      exists e, stdout w' = stdout w ++ [PrintMetadataFailed (sidecar tpl) e] /\
                (read_text (sidecar tpl) w = (Raise e, w) \/
                 exists text, read_text (sidecar tpl) w = (Ok text, w) /\
                              json_loads E text = None /\ e = JSONDecodeError))).
Proof.
  intros Hn Hd. pose proof (sidecar_no_dotdot _ Hd) as Hs.
  unfold load_metadata, with_suffix. destruct (name tpl) eqn:En; [done|].
  unfold bind at 1. unfold ret at 1. fold (sidecar tpl).
  destruct (exists_ (sidecar tpl) w) as [[ex|e] w1] eqn:Eex.
  2: { exfalso. unfold exists_ in Eex.
       apply try_except_inv in Eex as [(? & _ & [=]) | [(e' & H & Hh & _) | (e' & w2 & _ & _ & [=])]].
       apply bind_inv in H as [(? & ? & _ & [=]) | (e'' & H & [= <-])].
       by rewrite (stat_raises _ _ _ _ Hs H) in Hh. }
  pose proof Eex as [-> Hex]%exists_inv. unfold bind at 1. rewrite Eex.
  destruct ex.
  - unfold try_except, bind at 1.
    destruct (read_text (sidecar tpl) w) as [[text|e] w2] eqn:Er;
      pose proof (reads_only_world _ _ _ _ (inv_read_text (H:=reads_only) _) Er) as Hro;
      assert (w2 = w) as ->
        by (unfold read_text, read_bytes, bind in Er;
            destruct (stat (sidecar tpl) w) as [[[]|?] ?] eqn:Es;
            pose proof (stat_world _ _ _ _ Es) as ->; simpl in Er;
            [destruct (utf8_decode _)|..]; by injection Er).
    + destruct (json_loads E text) as [meta|] eqn:Ej; simpl.
      * exists meta, w. do 4 (split; [done|]). right; left. split; [done|]. by exists text.
      * eexists _, _. split; [done|]. simpl. do 3 (split; [done|]).
        right; right. split; [done|]. eexists. split; [done|]. right. by exists text.
    + rewrite (read_text_raises _ _ _ _ Hs Er). simpl.
      eexists _, _. split; [done|]. simpl. do 3 (split; [done|]).
      right; right. split; [done|]. eexists. split; [done|]. by left.
  - exists empty_dict, w. do 4 (split; [done|]). by left.
Qed.

(** ** The pad count *)

Lemma as_int_world v w r w' : as_int v w = (r, w') -> w' = w.
Proof. destruct v as [|[]| | | |]; by intros [= _ <-]. Qed.

Lemma gt_zero_Ok v w b w' :
  gt_zero v w = (Ok b, w') -> w' = w /\ exists n, as_int v w = (Ok n, w) /\ b = (0 <? n).
Proof.
  unfold gt_zero. intros (n & w1 & Hn & [= <- <-])%bind_inv_Ok.
  pose proof (as_int_world _ _ _ _ Hn) as ->. split; [done|]. by exists n.
Qed.

(** X10: the pad count that [pad_stage] returns is never negative.  When it is
    0 no file has changed.  When it is positive the binary was there, and the
    count does not exceed the ceiling of the job where that is an integer. *)
Theorem pad_count_within_ceiling j w n w' :
  pad_stage j w = (Ok n, w') ->
  0 <= n /\
  (n = 0 -> files w' = files w) /\
  (0 < n ->
   exists_ (bin_path j) w = (Ok true, w) /\
   forall c, pad_max j = JInt c -> n <= c).
Proof.
  unfold pad_stage. intros (ex & w1 & Hex & H)%bind_inv_Ok.
  pose proof (exists_world _ _ _ _ Hex) as ->.
  apply bind_inv_Ok in H as (positive & w2 & Hpos & H).
  destruct positive.
  2: { injection H as <- <-. split; [done|]. split; [|lia]. intros _.
       destruct (ex && truthy (pad_max j)); [|by injection Hpos as <-].
       by apply gt_zero_Ok in Hpos as [-> _]. }
  destruct (ex && truthy (pad_max j)) eqn:Eb; [|done].
  apply andb_true_iff in Eb as [-> _].
  apply gt_zero_Ok in Hpos as (-> & hi0 & Hhi0 & _).
  apply bind_inv_Ok in H as (hi & w3 & Hhi & H).
  pose proof (as_int_world _ _ _ _ Hhi) as ->.
  apply bind_inv_Ok in H as (n' & w4 & Hr & H).
  apply bind_inv_Ok in H as ([] & w5 & Hw & [= <- <-]).
  pose proof (randint_inv _ _ _ _ _ Hr) as Hn.
  pose proof (reads_only_world _ _ _ _ (inv_randint (H:=reads_only) 0 hi I) Hr) as (Hf & _).
  split; [lia|]. split.
  - intros ->. simpl in Hw. by injection Hw as <-.
  - intros _. split; [done|]. intros c Hc. rewrite Hc in Hhi. injection Hhi as <-. lia.
Qed.

(** * Further properties of the packager *)

(** ** The shape of a manifest *)

Lemma entries_of_list_cases l w :
  (exists ps, l = JStr <$> ps /\
     entries_of_list l w = (Ok (basename_entry <$> ps), w)) \/
  ((forall ps, l <> JStr <$> ps) /\
   entries_of_list l w =
     (Raise (SystemExit (lit "JSON list items must be strings (file paths)")), w)).
Proof.
  induction l as [|x l IH].
  - left. by exists [].
  - assert ((exists p, x = JStr p) \/
            entries_of_list (x :: l) w =
              (Raise (SystemExit (lit "JSON list items must be strings (file paths)")), w) /\
            forall p, x <> JStr p) as [[p ->] | [Hr Hx]].
    { destruct x; try by right. left. by eexists. }
    + destruct IH as [(ps & -> & Hl) | (Hno & Hl)].
      * left. exists (p :: ps). split; [done|]. apply (entries_of_list_strings (p :: ps)).
      * right. split.
        -- intros [|q ps] [=]. by eapply Hno.
        -- cbn [entries_of_list]. unfold bind. by rewrite Hl.
    + right. split; [|done]. intros [|q ps] [=]. by eapply Hx.
Qed.

Lemma entries_of_dict_cases m w :
  (exists kvs, m = string_pair <$> kvs /\
     entries_of_dict m w = (Ok (path_entry <$> kvs), w)) \/
  ((forall kvs, m <> string_pair <$> kvs) /\
   entries_of_dict m w =
     (Raise (SystemExit (lit "JSON object values must be strings (file paths)")), w)).
Proof.
  induction m as [|[k x] m IH].
  - left. by exists [].
  - assert ((exists p, x = JStr p) \/
            entries_of_dict ((k, x) :: m) w =
              (Raise (SystemExit (lit "JSON object values must be strings (file paths)")), w) /\
            forall p, x <> JStr p) as [[p ->] | [Hr Hx]].
    { destruct x; try by right. left. by eexists. }
    + destruct IH as [(kvs & -> & Hl) | (Hno & Hl)].
      * left. exists ((k, p) :: kvs). split; [done|].
        rewrite !fmap_cons. cbn [entries_of_dict string_pair fst snd].
        unfold bind. fold (string_pair <$> kvs). by rewrite Hl.
      * right. split.
        -- intros [|[k' q] kvs] [=]. by eapply Hno.
        -- cbn [entries_of_dict]. unfold bind. by rewrite Hl.
    + right. split; [|done]. intros [|[k' q] kvs] [=]. by eapply Hx.
Qed.

(** X11: [normalize_entries] accepts a list of strings, which it names by
    their base names, and an object whose values are strings, whose keys it
    keeps; the entries come in the order of the manifest, one for each item.
    For any other value it ends with [SystemExit].  It changes nothing. *)
Theorem normalize_entries_accepts_only_paths data w :
  (exists ps, data = JArr (JStr <$> ps) /\
     normalize_entries data w = (Ok (basename_entry <$> ps), w)) \/
  (exists kvs, data = JObj (string_pair <$> kvs) /\
     normalize_entries data w = (Ok (path_entry <$> kvs), w)) \/
  ((forall ps, data <> JArr (JStr <$> ps)) /\
   (forall kvs, data <> JObj (string_pair <$> kvs)) /\
   exists msg, normalize_entries data w = (Raise (SystemExit msg), w)).
Proof.
  destruct data as [|b|n|s|l|m]; try (right; right; repeat split; [done..|by eexists]).
  - destruct (entries_of_list_cases l w) as [(ps & -> & H) | (Hno & H)].
    + left. by exists ps.
    + right; right. split; [|split; [done | by eexists]]. intros ps [=]. by eapply Hno.
  - destruct (entries_of_dict_cases m w) as [(kvs & -> & H) | (Hno & H)].
    + right; left. by exists kvs.
    + right; right. split; [done|]. split; [|by eexists]. intros kvs [=]. by eapply Hno.
Qed.

(** ** Reading the manifest *)

Lemma read_text_world p w r w' : read_text p w = (r, w') -> w' = w.
Proof.
  unfold read_text, read_bytes, bind. destruct (stat p w) as [[[]|?] ?] eqn:Es;
    pose proof (stat_world _ _ _ _ Es) as ->; simpl;
    [destruct (utf8_decode _)|..]; by intros [= _ <-].
Qed.

(** X12: for a path without [..], [load_json] returns what the file holds, or
    ends with [SystemExit]: a file that is missing, is a directory, is not
    UTF-8 or is not JSON gives the exit message that begins with
    [Failed to read JSON], names the path and goes on with the error.  It
    changes nothing. *)
Theorem load_json_failure_is_an_exit E p w :
  dotdot ∉ parts p ->
  (exists text j,
     read_text p w = (Ok text, w) /\ json_loads E text = Some j /\
     load_json E p w = (Ok j, w)) \/
  (exists e detail,
     (read_text p w = (Raise e, w) \/
      exists text, read_text p w = (Ok text, w) /\ json_loads E text = None /\
                   e = JSONDecodeError) /\
     load_json E p w =
       (Raise (SystemExit (lit "Failed to read JSON " ++ path_str p ++ lit ": "
                             ++ detail)), w)).
Proof.
  intros Hd.
  destruct (read_text p w) as [[text|e] w1] eqn:Er;
    pose proof (read_text_world _ _ _ _ Er) as ->.
  - destruct (json_loads E text) as [j|] eqn:Ej.
    + left. exists text, j. do 2 (split; [done|]).
      unfold load_json, try_except, bind. by rewrite Er, Ej.
    + right. exists JSONDecodeError, (exn_name JSONDecodeError).
      split; [right; by exists text|].
      unfold load_json, try_except, bind. by rewrite Er, Ej.
  - right. exists e, (exn_name e). split; [by left|].
    unfold load_json, try_except, bind. rewrite Er.
    by rewrite (read_text_raises _ _ _ _ Hd Er).
Qed.

(** ** How [main] can exit *)

Lemma plain_print e : plain (print e).
Proof. by intros w e' w' [=]. Qed.

Lemma plain_put_content k c : plain (put_content k c).
Proof. unfold put_content. plain_tac. Qed.

#[global] Hint Resolve plain_print plain_put_content : plain.

Lemma plain_write_text p s : plain (write_text p s).
Proof. unfold write_text. plain_tac. Qed.

#[global] Hint Resolve plain_write_text : plain.

Lemma normalize_entries_exit data w r w' :
  normalize_entries data w = (r, w') ->
  w' = w /\
  forall e, r = Raise e -> exists rest, e = SystemExit (lit "JSON " ++ rest).
Proof.
  destruct data as [|b|n|s|l|m]; simpl;
    try (intros [= <- <-]; split; [done|]; intros e [= <-]; by eexists).
  - destruct (entries_of_list_cases l w) as [(ps & -> & H) | (_ & H)]; rewrite H;
      intros [= <- <-]; (split; [done|]); intros e [= <-]. by eexists.
  - destruct (entries_of_dict_cases m w) as [(ps & -> & H) | (_ & H)]; rewrite H;
      intros [= <- <-]; (split; [done|]); intros e [= <-]. by eexists.
Qed.

Lemma load_json_exit E p w r w' :
  load_json E p w = (r, w') ->
  w' = w /\
  forall msg, r = Raise (SystemExit msg) ->
    exists rest, msg = lit "Failed to read JSON " ++ rest.
Proof.
  unfold load_json.
  intros [(j & H & ->) | [(e & H & _ & ->) | (e & w1 & H & _ & [= <- <-])]]%try_except_inv.
  - apply bind_inv_Ok in H as (text & w1 & Hr%read_text_world & H). subst w1.
    destruct (json_loads E text); simpl in H; [|done]. injection H as _ <-. done.
  - assert (w' = w /\ fatal e = false) as [-> Hf].
    { apply bind_inv in H as [(text & w1 & Hr%read_text_world & H) | (e' & H & [= <-])].
      - subst w1. destruct (json_loads E text); simpl in H; [done|].
        by injection H as <- <-.
      - split; [by apply read_text_world in H|].
        assert (plain (read_text p)) as Hp by (unfold read_text, read_bytes; plain_tac).
        by apply Hp in H. }
    split; [done|]. by intros msg [= ->].
  - assert (w1 = w) as ->.
    { apply bind_inv in H as [(text & w2 & Hr%read_text_world & H) | (e' & H & _)].
      - subst w2. destruct (json_loads E text); simpl in H; [done|].
        by injection H as _ <-.
      - by apply read_text_world in H. }
    split; [done|]. intros msg [= <-]. by eexists.
Qed.

Lemma json_path_of_inv a wsp w r w' :
  json_path_of a wsp w = (r, w') -> w' = w /\ forall e, r = Raise e -> fatal e = false.
Proof.
  unfold json_path_of. destruct (negb _).
  - intros H. split; [by apply resolve_world in H|]. intros e ->.
    by apply plain_resolve in H.
  - by intros [= <- <-].
Qed.

(** X14: when [main], the command line parsed, ends with [SystemExit], the
    message tells what has been touched.  A message about the manifest (not found, not readable, not of
    the expected shape) means that nothing has changed and nothing was
    printed; the only other message names a source file that does not
    exist. *)
Theorem exit_message_tells_what_changed E a w msg w' :
  Pack.main E a w = (Raise (SystemExit msg), w') ->
  (w' = w /\
   exists rest, msg = lit "JSON " ++ rest \/ msg = lit "Failed to read JSON " ++ rest) \/
  (exists src, msg = lit "Source file not found: " ++ path_str src /\
               exists_ src w' = (Ok false, w')).
Proof.
  unfold main. intros H.
  apply bind_inv in H as [(wsp & w0 & Hr & H) | (e & Hr & [= <-])];
    [|by apply plain_resolve in Hr].
  pose proof (resolve_world _ _ _ _ Hr) as ->.
  apply bind_inv in H as [(jp & w0 & Hj & H) | (e & Hj & [= <-])];
    [|by apply json_path_of_inv in Hj as [_ Hj]; specialize (Hj _ eq_refl)].
  apply json_path_of_inv in Hj as [-> _].
  apply bind_inv in H as [(ex & w0 & Hx & H) | (e & Hx & [= <-])];
    [|by apply plain_exists in Hx].
  pose proof (exists_world _ _ _ _ Hx) as ->.
  destruct ex; simpl in H.
  2: { injection H as <- <-. left. split; [done|]. eexists. left. reflexivity. }
  apply bind_inv in H as [(raw & w0 & Hl & H) | (e & Hl & [= <-])].
  2: { apply load_json_exit in Hl as [-> Hl]. left. split; [done|].
       destruct (Hl _ eq_refl) as [rest ->]. exists rest. by right. }
  apply load_json_exit in Hl as [-> _].
  apply bind_inv in H as [(entries & w0 & Hn & H) | (e & Hn & [= <-])].
  2: { apply normalize_entries_exit in Hn as [-> Hn]. left. split; [done|].
       destruct (Hn _ eq_refl) as [rest [= ->]]. exists rest. by left. }
  apply normalize_entries_exit in Hn as [-> _].
  apply bind_inv in H as [([] & w0 & Hp & H) | (e & Hp & [= <-])].
  2: { right. rewrite prepare_build_context_eq in Hp.
       apply bind_inv in Hp as [([] & w1 & Erec & Hp) | (e & Erec & [= <-])];
         [|by apply plain_recreate in Erec].
       destruct (copy_entries_exit _ _ _ _ _ _ Hp) as (_ & _ & _ & _ & src & _ & _ & _ & ? & ->).
       by exists src. }
  exfalso. revert H.
  match goal with |- ?c w0 = _ -> _ => assert (plain c) as Hplain end.
  { unfold write_dockerfile, write_compose. plain_tac. }
  intros H. by apply Hplain in H.
Qed.

(** ** What packaging leaves alone *)

Lemma recreate_frame out w w1 :
  recreate out w = (Ok tt, w1) ->
  forall q, ~ key_of out w `prefix_of` q ->
    files w1 !! q = files w !! q \/
    (files w !! q = None /\ files w1 !! q = Some Dir /\ q `prefix_of` key_of out w).
Proof.
  unfold recreate.
  intros (ex & w0 & [-> Hex]%exists_inv & H)%bind_inv_Ok q Hq.
  apply bind_inv_Ok in H as ([] & w0 & Erm & Emk).
  pose proof (mkdir_dirs _ _ _ _ _ _ Emk) as (Hd & _).
  assert (cwd w0 = cwd w /\ files w0 !! q = files w !! q) as [Hcw Hf].
  { destruct ex.
    - apply rmtree_Ok in Erm as [_ ->]. split; [done|]. by apply remove_tree_other.
    - by injection Erm as <-. }
  rewrite (key_of_same out w w0 Hcw) in Hd. rewrite <- Hf. apply Hd.
Qed.

(** X13: a run of [prepare_build_context] that returns, for entries whose
    names are single path components other than [..], has changed nothing
    outside the output directory, apart from creating the directories on the
    way to it that were missing: every other node is what it was, and
    nothing was printed. *)
Theorem packaging_stays_in_output_directory entries wsp out w w' :
  wf w -> Forall (fun e => proper_name e.1) entries ->
  prepare_build_context entries wsp out w = (Ok tt, w') ->
  stdout w' = stdout w /\ cwd w' = cwd w /\
  forall q, ~ key_of out w `prefix_of` q ->
    files w' !! q = files w !! q \/
    (files w !! q = None /\ files w' !! q = Some Dir /\ q `prefix_of` key_of out w).
Proof.
  intros Hwf Hproper. rewrite prepare_build_context_eq.
  assert (Forall (fun e : str * Path => simple e.1) entries) as Hs.
  { eapply Forall_impl; [done|]. by intros e [? _]. }
  intros ([] & w0 & Erec & Ecp)%bind_inv_Ok.
  pose proof (recreate_Ok _ _ _ Hwf Erec) as Hfr.
  pose proof (recreate_frame _ _ _ Erec) as Hframe.
  assert (key_of out w0 = key_of out w) as Hk by (apply key_of_same, Hfr).
  assert (flat (key_of out w0) (files w0)) as Hflat.
  { rewrite Hk. intros y r n Hn. by rewrite (fresh_empty _ _ _ Hfr) in Hn. }
  destruct (copy_entries_flat _ _ _ _ _ Hflat Hs Ecp) as (_ & Hc & _ & Hso & Hother & _).
  split; [by rewrite Hso, (fresh_stdout _ _ _ Hfr)|].
  split; [by rewrite Hc, (fresh_cwd _ _ _ Hfr)|].
  intros q Hq. rewrite Hother; [by apply Hframe|].
  intros e _ ->. apply Hq. rewrite Hk. by eexists.
Qed.

(** * The further properties at sample runs *)

(** A run is its result and the world it leaves. *)
Lemma run_fst {A} (c : IO A) (w : world) (r : result A) :
  (c w).1 = r -> c w = (r, (c w).2).
Proof. intros <-. apply surjective_pairing. Qed.

Lemma text_without_placeholders_unchanged_witness :
  let w := MkWorld ∅ [] true Sample.tape0 0 [] in
  prepare_program_from_template (lit "int main(void) { return 0; }") (lit "FLAG{00}") w =
    (Ok (lit "int main(void) { return 0; }"), w).
Proof.
  intros w. apply text_without_placeholders_unchanged; vm_compute; reflexivity.
Defined.

Lemma key_without_xor_stays_witness :
  let tpl := lit "int k = {KEY};" in
  let w := MkWorld ∅ [] true Sample.tape0 0 [] in
  exists flag w1 program w2,
    gen_flag w = (Ok flag, w1) /\
    prepare_program_from_template tpl flag w1 = (Ok program, w2) /\
    contains KEY_TOKEN program = true /\
    subst_xor (replace FLAG_TOKEN flag tpl) flag w1 = (Ok (replace FLAG_TOKEN flag tpl), w1).
Proof.
  intros tpl w. apply (key_without_xor_stays tpl w); vm_compute; reflexivity.
Defined.

Lemma random_int_never_left_witness :
  let tpl := lit "int n = {RANDOM_INT};" in
  let w := MkWorld ∅ [] true Sample.tape0 0 [] in
  exists program w',
    prepare_program_from_template tpl (lit "FLAG{00}") w = (Ok program, w') /\
    contains RANDOM_INT_TOKEN program = false.
Proof.
  intros tpl w.
  assert (H := run_fst (prepare_program_from_template tpl (lit "FLAG{00}")) w
                 (Ok (match (prepare_program_from_template tpl (lit "FLAG{00}") w).1 with
                      | Ok p => p
                      | Raise _ => []
                      end))).
  specialize (H ltac:(vm_compute; reflexivity)).
  eexists _, _. split; [exact H|].
  exact (random_int_never_left tpl (lit "FLAG{00}") w _ _ H).
Defined.

Lemma job_directories_differ_witness :
  0 <> 1 /\
  job_out_dir (MkPath true Sample.base) Sample.tpl 0 <>
    job_out_dir (MkPath true Sample.base) Sample.tpl 1.
Proof.
  split; [lia|].
  apply (job_directories_differ (MkPath true Sample.base) Sample.tpl Sample.tpl 0 1); lia.
Defined.

Lemma list_templates_lists_the_templates_witness :
  let base := MkPath true [] in
  let tpl := MkPath true [lit "templates"; lit "t.c"] in
  let w := MkWorld (list_to_map [ ([lit "templates"], Dir);
                                  ([lit "templates"; lit "t.c"], File (lit "x") 420);
                                  ([lit "templates"; lit "t.json"], File (lit "{}") 420) ])
             [] true Sample.tape0 0 [] in
  list_templates base w = (Ok [tpl], w) /\
  NoDup [tpl] /\
  forall i j p q, [tpl] !! i = Some p -> [tpl] !! j = Some q -> (i <= j)%nat ->
                  str_leb (name p) (name q) = true.
Proof.
  intros base tpl w.
  assert (list_templates base w = (Ok [tpl], w)) as H by (vm_compute; reflexivity).
  split; [exact H|].
  destruct (list_templates_lists_the_templates base w [tpl] w H) as (_ & Hnd & _ & Hord).
  exact (conj Hnd Hord).
Defined.

Lemma job_leaves_other_files_witness :
  let tpl := MkPath true [lit "t.c"] in
  let w := MkWorld (list_to_map [ ([lit "tmp"], Dir); ([lit "t.c"], File (lit "x") 420) ])
             [] true Sample.tape0 0 [] in
  files (build_one Sample.E (MkPath true []) tpl 0 w).2 !! [lit "t.c"] =
    Some (File (lit "x") 420).
Proof.
  intros tpl w.
  apply (job_leaves_other_files Sample.E [] tpl 0 w
           (build_one Sample.E (MkPath true []) tpl 0 w).1).
  - apply closedb_closed. vm_compute. reflexivity.
  - vm_compute. reflexivity.
  - intros [r Hr]. vm_compute in Hr. discriminate Hr.
  - apply surjective_pairing.
Defined.

Lemma successful_job_is_recorded_witness :
  let tpl := MkPath true [lit "t.c"] in
  let w := MkWorld (list_to_map [ ([lit "tmp"], Dir); ([lit "t.c"], File (lit "x") 420) ])
             [] true Sample.tape0 0 [] in
  exists r w',
    build_one Sample.E (MkPath true []) tpl 0 w = (Ok r, w') /\
    template r = name tpl /\
    is_flag_token (flag r) /\
    0 <= pad r /\
    exists text mode,
      utf8_encode (json_dumps Sample.E (meta_json r)) = Some text /\
      files w' !! (parts (job_out_dir (MkPath true []) tpl 0) ++ [lit "meta.json"]) =
        Some (File text mode).
Proof.
  intros tpl w.
  pose (res := build_one Sample.E (MkPath true []) tpl 0 w).
  pose (r := match res.1 with Ok r => r | Raise _ => MkMeta [] [] JNull 0 JNull end).
  assert (res = (Ok r, res.2)) as H by (apply run_fst; vm_compute; reflexivity).
  assert (closed (files w)) as Hc by (apply closedb_closed; vm_compute; reflexivity).
  exists r, res.2.
  exact (conj H (successful_job_is_recorded Sample.E [] tpl 0 w r res.2 Hc H)).
Defined.

Lemma broken_metadata_is_skipped_witness :
  let tpl := MkPath true [lit "templates"; lit "t.c"] in
  let w := MkWorld (list_to_map [ ([lit "templates"], Dir);
                                  ([lit "templates"; lit "t.c"], File (lit "x") 420);
                                  ([lit "templates"; lit "t.json"], File (lit "{") 420) ])
             [] true Sample.tape0 0 [] in
  exists meta w',
    load_metadata Sample.E tpl w = (Ok meta, w') /\
    files w' = files w /\ cwd w' = cwd w /\ cursor w' = cursor w /\
    ((meta = empty_dict /\ stdout w' = stdout w /\
      stat (sidecar tpl) w = (Raise FileNotFoundError, w)) \/
     (stdout w' = stdout w /\
      exists text, read_text (sidecar tpl) w = (Ok text, w) /\
                   json_loads Sample.E text = Some meta) \/
     (meta = empty_dict /\
      exists e, stdout w' = stdout w ++ [PrintMetadataFailed (sidecar tpl) e] /\
                (read_text (sidecar tpl) w = (Raise e, w) \/
                 exists text, read_text (sidecar tpl) w = (Ok text, w) /\
                              json_loads Sample.E text = None /\ e = JSONDecodeError))).
Proof.
  intros tpl w. apply (broken_metadata_is_skipped Sample.E tpl w).
  - intros H. vm_compute in H. discriminate H.
  - apply (bool_decide_unpack _). vm_compute. exact I.
Defined.

Lemma pad_count_within_ceiling_witness :
  let j := MkJob JNull (JInt 8) JNull (MkPath true [lit "b"]) (MkPath true [lit "tmp"]) in
  let w := MkWorld (list_to_map [ ([lit "b"], Dir);
                                  ([lit "b"; lit "challenge"], File [127; 69] 493) ])
             [] true Sample.tape0 0 [] in
  exists w',
    pad_stage j w = (Ok 4, w') /\
    0 <= 4 /\
    (4 = 0 -> files w' = files w) /\
    (0 < 4 ->
     exists_ (bin_path j) w = (Ok true, w) /\
     forall c, pad_max j = JInt c -> 4 <= c).
Proof.
  intros j w.
  assert (H := run_fst (pad_stage j) w (Ok 4)).
  specialize (H ltac:(vm_compute; reflexivity)).
  eexists. split; [exact H|].
  exact (pad_count_within_ceiling j w 4 _ H).
Defined.

Lemma results_name_templates_witness :
  let tpl := MkPath true [lit "t.c"] in
  let w := MkWorld (list_to_map [ ([lit "tmp"], Dir); ([lit "t.c"], File (lit "x") 420) ])
             [] true Sample.tape0 0 [] in
  exists rs w' new,
    main_loop Sample.E (MkPath true []) [tpl] [0] [] w = (Ok rs, w') /\
    length rs = 1%nat /\
    rs = [] ++ new /\ (length new <= length [0])%nat /\
    Forall (sound_record [tpl]) new.
Proof.
  intros tpl w.
  pose (res := main_loop Sample.E (MkPath true []) [tpl] [0] [] w).
  pose (rs := match res.1 with Ok rs => rs | Raise _ => [] end).
  assert (res = (Ok rs, res.2)) as H by (apply run_fst; vm_compute; reflexivity).
  assert (length rs = 1%nat) as Hl by (vm_compute; reflexivity).
  destruct (results_name_templates Sample.E (MkPath true []) [tpl] [0] [] w rs res.2 H)
    as (new & H1 & H2 & H3).
  exists rs, res.2, new.
  exact (conj H (conj Hl (conj H1 (conj H2 H3)))).
Defined.

Lemma load_json_failure_is_an_exit_witness :
  let p := MkPath true [lit "m.json"] in
  let w := MkWorld (list_to_map [ ([lit "m.json"], File (lit "ab") 420) ])
             [] true Sample.tape0 0 [] in
  (exists text j,
     read_text p w = (Ok text, w) /\ json_loads Sample.E_pack text = Some j /\
     load_json Sample.E_pack p w = (Ok j, w)) \/
  (exists e detail,
     (read_text p w = (Raise e, w) \/
      exists text, read_text p w = (Ok text, w) /\ json_loads Sample.E_pack text = None /\
                   e = JSONDecodeError) /\
     load_json Sample.E_pack p w =
       (Raise (SystemExit (lit "Failed to read JSON " ++ path_str p ++ lit ": "
                             ++ detail)), w)).
Proof.
  intros p w. apply (load_json_failure_is_an_exit Sample.E_pack p w).
  apply (bool_decide_unpack _). vm_compute. exact I.
Defined.

Lemma exit_message_tells_what_changed_witness :
  let a := default_args (lit "nope.json") in
  let w := MkWorld ∅ [] true Sample.tape0 0 [] in
  let msg := lit "JSON file not found: /nope.json" in
  Pack.main Sample.E_pack a w = (Raise (SystemExit msg), w) /\
  ((w = w /\
    exists rest, msg = lit "JSON " ++ rest \/ msg = lit "Failed to read JSON " ++ rest) \/
   (exists src, msg = lit "Source file not found: " ++ path_str src /\
                exists_ src w = (Ok false, w))).
Proof.
  intros a w msg.
  assert (Pack.main Sample.E_pack a w = (Raise (SystemExit msg), w)) as H
    by (vm_compute; reflexivity).
  split; [exact H|].
  exact (exit_message_tells_what_changed Sample.E_pack a w msg w H).
Defined.

Lemma packaging_stays_in_output_directory_witness :
  let entries := [(lit "a", parse_path (lit "a"))] in
  let out := parse_path (lit "o") in
  let w := MkWorld (list_to_map [ ([lit "a"], File [1] 420) ]) [] true Sample.tape0 0 [] in
  exists w',
    prepare_build_context entries (MkPath true []) out w = (Ok tt, w') /\
    stdout w' = stdout w /\ cwd w' = cwd w /\
    forall q, ~ key_of out w `prefix_of` q ->
      files w' !! q = files w !! q \/
      (files w !! q = None /\ files w' !! q = Some Dir /\ q `prefix_of` key_of out w).
Proof.
  intros entries out w.
  assert (H := run_fst (prepare_build_context entries (MkPath true []) out) w (Ok tt)).
  specialize (H ltac:(vm_compute; reflexivity)).
  eexists. split; [exact H|].
  apply (packaging_stays_in_output_directory entries (MkPath true []) out w _); [| |exact H].
  - split; [apply closedb_closed; vm_compute; reflexivity | intros _; vm_compute; reflexivity].
  - constructor; [|constructor]. split; [vm_compute; reflexivity|].
    intros E. vm_compute in E. discriminate E.
Defined.

(** * The packager: success and abort *)

(** ** Installing an entry: when it succeeds *)

Lemma owner_writes_exec_mode m : owner_writes (exec_mode m) = owner_writes m.
Proof.
  unfold owner_writes, exec_mode. rewrite Z.land_spec, !Z.lor_spec.
  change (Z.testbit S_IFREG 7) with false. change (Z.testbit 64 7) with false.
  change (Z.testbit 4095 7) with true. simpl. by rewrite orb_false_r, andb_true_r.
Qed.

Lemma is_dir_false p w k :
  locate p w = (Ok k, w) -> lookup_node (files w) k <> Some Dir ->
  is_dir p w = (Ok false, w).
Proof.
  intros Hk Hn. unfold is_dir, try_except, stat. unfold bind at 1. unfold bind at 1.
  rewrite Hk. unfold bind, get_world. simpl.
  destruct (lookup_node (files w) k) as [[c m|]|]; done.
Qed.

(** Opening the destination of a copy. *)
Lemma open_owned_intro k x w :
  lookup_node (files w) k = Some Dir ->
  (files w !! (k ++ [x]) = None \/
   exists c0 m0, files w !! (k ++ [x]) = Some (File c0 m0) /\ owner_writes m0 = true) ->
  exists w' m', open_owned false (k ++ [x]) w = (Ok [], w') /\
    files w' = <[k ++ [x] := File [] m']> (files w) /\
    cwd w' = cwd w /\ cwd_ok w' = cwd_ok w /\ stdout w' = stdout w /\
    tape w' = tape w /\ cursor w' = cursor w.
Proof.
  intros Hd Hx. unfold open_owned, open_write, bind, get_world. simpl.
  rewrite lookup_node_snoc.
  destruct Hx as [Hx | (c0 & m0 & Hx & Hw)]; rewrite Hx.
  - rewrite lookup_node_snoc, Hx, removelast_last, Hd. simpl. by eexists _, _.
  - rewrite Hw, lookup_node_snoc, Hx. simpl. by eexists _, _.
Qed.

Lemma install_intro src out x w c m :
  locate (joinpath out (MkPath false [x])) w = (Ok (key_of out w ++ [x]), w) ->
  lookup_node (files w) (key_of out w) = Some Dir ->
  (files w !! (key_of out w ++ [x]) = None \/
   exists c0 m0, files w !! (key_of out w ++ [x]) = Some (File c0 m0) /\
                 owner_writes m0 = true) ->
  stat src w = (Ok (File c m), w) ->
  key_of src w <> key_of out w ++ [x] ->
  owner_reads m = true ->
  exists w',
    install src (joinpath out (MkPath false [x])) w = (Ok tt, w') /\
    files w' = <[key_of out w ++ [x] := File c (exec_mode m)]> (files w) /\
    cwd w' = cwd w /\ cwd_ok w' = cwd_ok w /\ stdout w' = stdout w.
Proof.
  set (ko := key_of out w). set (dest := joinpath out (MkPath false [x])).
  intros Hld Hdir Hx Hs Hne Hr.
  assert (is_dir dest w = (Ok false, w)) as Hisd.
  { apply (is_dir_false _ _ _ Hld). rewrite lookup_node_snoc.
    destruct Hx as [-> | (? & ? & -> & _)]; done. }
  pose proof Hs as (ks & Hks & _)%stat_Ok. pose proof Hks as [-> _]%locate_key.
  destruct (open_owned_intro ko x w Hdir Hx)
    as (w1 & m' & Eo & Hf1 & Hc1 & Ho1 & Hs1 & Ht1 & Hcu1).
  set (w2 := (insert_node (ko ++ [x]) (File c m) w1).2).
  assert (copy2 src dest w = (Ok tt, w2)) as Ecp.
  { unfold copy2. rewrite (bind_Ok _ _ _ _ _ Hisd). cbv iota.
    rewrite (bind_Ok _ _ _ _ _ Hks), (bind_Ok _ _ _ _ _ Hld), (bind_Ok _ _ _ _ _ Hs).
    rewrite bool_decide_eq_false_2 by done. rewrite Hr. change (negb true) with false. cbv iota.
    by rewrite (bind_Ok _ _ _ _ _ Eo). }
  assert (locate dest w2 = (Ok (ko ++ [x]), w2)) as Hld2.
  { apply (locate_transfer _ w); [by simpl | by simpl | done]. }
  assert (stat dest w2 = (Ok (File c m), w2)) as Hst.
  { apply (stat_intro _ _ _ _ Hld2). rewrite lookup_node_snoc. simpl.
    by rewrite lookup_insert_eq. }
  assert (st_mode dest w2 = (Ok (Z.lor S_IFREG m), w2)) as Hmd
    by (unfold st_mode; by rewrite (bind_Ok _ _ _ _ _ Hst)).
  eexists. split.
  { unfold install. rewrite (bind_Ok _ _ _ _ _ Ecp), (bind_Ok _ _ _ _ _ Hmd).
    unfold chmod. rewrite (bind_Ok _ _ _ _ _ Hld2), (bind_Ok _ _ _ _ _ Hst).
    reflexivity. }
  simpl. rewrite Hf1, !insert_insert_eq. by repeat split.
Qed.

(** ** Packaging: when it succeeds *)

Lemma resolve_absolute p w r w' : resolve p w = (Ok r, w') -> is_absolute r = true.
Proof.
  unfold resolve. intros (base & w1 & _ & H)%bind_inv_Ok. by injection H as <- _.
Qed.

Lemma locate_intro p w :
  dotdot ∉ parts p -> is_absolute p = true \/ cwd_ok w = true ->
  locate p w = (Ok (key_of p w), w).
Proof.
  intros Hd Ha. unfold locate, key_of. rewrite bool_decide_eq_false_2 by done.
  destruct (is_absolute p); [done|]. destruct Ha as [? | Ha]; [done|].
  unfold bind, getcwd. by rewrite Ha.
Qed.

Lemma copy_entries_intro entries wsp out w0 w :
  cwd w = cwd w0 -> cwd_ok w = true -> cwd_ok w0 = true ->
  dotdot ∉ parts out ->
  lookup_node (files w) (key_of out w0) = Some Dir ->
  flat (key_of out w0) (files w) ->
  (forall q c m, ~ key_of out w0 `prefix_of` q ->
                 files w0 !! q = Some (File c m) -> files w !! q = Some (File c m)) ->
  (forall x c0 m0, files w !! (key_of out w0 ++ [x]) = Some (File c0 m0) ->
                   x ∈ entries.*1 -> owner_writes m0 = true) ->
  Forall (fun e => proper_name e.1) entries ->
  installable wsp (key_of out w0) w0 entries ->
  exists w', copy_entries entries wsp out w = (Ok tt, w').
Proof.
  set (ko := key_of out w0). intros Hc Ho Ho0 Hdd.
  revert w Hc Ho. induction entries as [|[nm rel] rest IH];
    intros w Hc Ho Hdir Hflat Hframe Hperm Hnames Hinst.
  { by eexists. }
  apply Forall_cons in Hnames as [[Hsimple Hnd] Hnames]. simpl in Hsimple, Hnd.
  destruct Hinst as [(src & c & m & Er & Es & Hout & Hrd & Hwr) Hinst].
  assert (key_of out w = ko) as Hko by (by apply key_of_same).
  pose proof (resolve_absolute _ _ _ _ Er) as Habs.
  assert (resolve (joinpath wsp rel) w = (Ok src, w)) as Er'
    by (apply (resolve_transfer _ w0); [done | by intros _ | done]).
  pose proof Es as (ks & Hks & Hl)%stat_Ok.
  pose proof Hks as (Hsd & _)%post_locate.
  pose proof Hks as [-> _]%locate_key. rewrite (key_of_abs _ _ Habs) in Hl.
  assert (parts src <> []) as Hsne by (intros E; by rewrite E in Hl).
  rewrite lookup_node_ne in Hl by done.
  assert (stat src w = (Ok (File c m), w)) as Es'.
  { apply (stat_intro _ _ (parts src)); [by apply locate_abs|].
    rewrite lookup_node_ne by done. by apply Hframe. }
  assert (locate (joinpath out (MkPath false [nm])) w = (Ok (key_of out w ++ [nm]), w)) as Hld.
  { rewrite <- key_of_join. apply locate_intro; [|by right].
    unfold joinpath. simpl. intros [? | E%list_elem_of_singleton]%elem_of_app; [done|].
    by apply Hnd. }
  destruct (install_intro src out nm w c m) as (w1 & Ei & Hf1 & Hc1 & Ho1 & Hs1).
  - done.
  - by rewrite Hko.
  - rewrite Hko. destruct (files w !! (ko ++ [nm])) as [n|] eqn:En; [|by left].
    destruct (Hflat nm [] n En) as [_ (c0 & m0 & ->)]. right. exists c0, m0.
    split; [done|]. apply (Hperm nm c0 m0 En). by left.
  - done.
  - rewrite Hko, (key_of_abs _ _ Habs). intros E. apply Hout. rewrite E. by eexists.
  - done.
  - rewrite Hko in Hf1.
    destruct (IH w1) as [w' Hrest].
    + congruence.
    + congruence.
    + rewrite Hf1, lookup_node_insert_ne; [done|]. apply snoc_ne_self.
    + rewrite Hf1. by apply flat_insert.
    + intros q c' m' Hq Hq0. rewrite Hf1, lookup_insert_ne; [by apply Hframe|].
      intros <-. apply Hq. by eexists.
    + intros x c0 m0. rewrite Hf1. destruct (decide (x = nm)) as [-> | Hx].
      * rewrite lookup_insert_eq. intros [= _ <-] Hin.
        rewrite owner_writes_exec_mode. by apply Hwr.
      * rewrite lookup_insert_ne by (intros E; by apply app_inv_head in E as [= ->]).
        intros Hl' Hin. apply (Hperm x c0 m0 Hl'). by right.
    + done.
    + done.
    + exists w'. rewrite <- Hrest. apply (copy_entries_step _ _ _ _ _ _ src); [done| |].
      * by eapply exists_true.
      * by rewrite Hsimple.
Qed.

Lemma os_mkdir_intro p w :
  locate p w = (Ok (key_of p w), w) ->
  lookup_node (files w) (key_of p w) = None ->
  lookup_node (files w) (removelast (key_of p w)) = Some Dir ->
  os_mkdir p w = (Ok tt, (insert_node (key_of p w) Dir w).2).
Proof.
  intros Hl Hk Hp. unfold os_mkdir. rewrite (bind_Ok _ _ _ _ _ Hl).
  unfold bind, get_world. simpl. by rewrite Hk, Hp.
Qed.

Lemma mkdir_intro p w :
  parts p <> [] ->
  locate p w = (Ok (key_of p w), w) ->
  lookup_node (files w) (key_of p w) = None ->
  lookup_node (files w) (removelast (key_of p w)) = Some Dir ->
  mkdir true true p w = (Ok tt, (insert_node (key_of p w) Dir w).2).
Proof.
  intros Hne Hl Hk Hp. pose proof (os_mkdir_intro _ _ Hl Hk Hp) as Hos.
  assert (mkdir_one true p w = (Ok tt, (insert_node (key_of p w) Dir w).2)) as Hone
    by (unfold mkdir_one, try_except; by rewrite Hos).
  unfold mkdir. destruct (length (parts p)); simpl; unfold try_except; by rewrite Hone.
Qed.

Lemma recreate_intro out w :
  recreatable out w -> exists w1, recreate out w = (Ok tt, w1) /\ cwd_ok w1 = true.
Proof.
  intros (Hdd & Hne & Hok & Hcwd & Hpar & Hself).
  set (ko := key_of out w) in *.
  assert (ko <> []) as Hkne.
  { unfold ko, key_of. destruct (parts out) as [|x l] using rev_ind; [done|].
    rewrite app_assoc. by destruct (_ ++ l). }
  assert (locate out w = (Ok ko, w)) as Hl by (apply locate_intro; [done | by right]).
  unfold recreate. destruct Hself as [Hno | Hdir].
  - assert (exists_ out w = (Ok false, w)) as Hex.
    { unfold exists_, try_except, stat. unfold bind at 1. unfold bind at 1. rewrite Hl.
      unfold bind, get_world. simpl. by rewrite lookup_node_ne, Hno. }
    rewrite (bind_Ok _ _ _ _ _ Hex). cbv iota. rewrite (bind_Ok _ _ w tt w) by done.
    eexists. split; [apply mkdir_intro; [done | done | by rewrite lookup_node_ne | done]|].
    done.
  - assert (stat out w = (Ok Dir, w)) as Hst
      by (apply (stat_intro _ _ _ _ Hl); by rewrite lookup_node_ne).
    rewrite (bind_Ok _ _ _ _ _ (exists_true _ _ _ Hst)). cbv iota.
    assert (rmtree out w = (Ok tt, (remove_tree ko w).2)) as Hrm.
    { unfold rmtree. by rewrite (bind_Ok _ _ _ _ _ Hl), (bind_Ok _ _ _ _ _ Hst). }
    rewrite (bind_Ok _ _ _ _ _ Hrm). set (w0 := (remove_tree ko w).2).
    assert (cwd_ok w0 = true) as Hok0.
    { simpl. rewrite Hok. simpl. by rewrite bool_decide_eq_false_2. }
    assert (key_of out w0 = ko) as Hk0 by (by apply key_of_same).
    eexists. split; [apply mkdir_intro; [done | | |] | done].
    + apply locate_intro; [done | by right].
    + rewrite Hk0, lookup_node_ne by done. unfold w0. by apply remove_tree_gone.
    + rewrite Hk0. destruct (removelast ko) as [|y l] eqn:Er; [done|].
      rewrite lookup_node_ne by done. unfold w0. rewrite remove_tree_other.
      * by rewrite <- (lookup_node_ne _ (y :: l)).
      * rewrite <- Er. intros Hp%prefix_length.
        destruct ko as [|z ko'] using rev_ind; [done|].
        rewrite removelast_last, length_app in Hp. simpl in Hp. lia.
Qed.

Lemma prepare_build_context_intro entries wsp out w :
  wf w -> recreatable out w ->
  Forall (fun e => proper_name e.1) entries ->
  installable wsp (key_of out w) w entries ->
  exists w', prepare_build_context entries wsp out w = (Ok tt, w').
Proof.
  intros Hwf Hrec Hnames Hinst.
  destruct (recreate_intro _ _ Hrec) as (w1 & Erec & Hok1).
  destruct Hrec as (Hdd & _ & Hok & _).
  pose proof (recreate_Ok _ _ _ Hwf Erec) as Hfr.
  pose proof (recreate_frame _ _ _ Erec) as Hframe.
  destruct (copy_entries_intro entries wsp out w w1) as [w' Hcp]; try done.
  - apply Hfr.
  - apply Hfr.
  - intros y r n Hn. by rewrite (fresh_empty _ _ _ Hfr) in Hn.
  - intros q c m Hq Hq0. destruct (Hframe q Hq) as [-> | (Hno & _)]; [done | congruence].
  - intros x c0 m0 Hx. by rewrite (fresh_empty _ _ _ Hfr x []) in Hx.
  - exists w'. rewrite prepare_build_context_eq. by rewrite (bind_Ok _ _ _ _ _ Erec).
Qed.


(** ** A source that is missing *)

Lemma copy_entries_app pre rest wsp out w w2 :
  copy_entries pre wsp out w = (Ok tt, w2) ->
  copy_entries (pre ++ rest) wsp out w = copy_entries rest wsp out w2.
Proof.
  revert w. induction pre as [|[nm rel] pre IH]; intros w H.
  - by injection H as <-.
  - apply copy_entries_cons_Ok in H as (src & w1 & Er & Ee & Ei & H).
    rewrite <- app_comm_cons, (copy_entries_step _ _ _ _ _ _ _ _ Er Ee Ei). by apply IH.
Qed.

Lemma copy_entries_app_Ok pre rest wsp out w w' :
  copy_entries (pre ++ rest) wsp out w = (Ok tt, w') ->
  exists w2, copy_entries pre wsp out w = (Ok tt, w2) /\
             copy_entries rest wsp out w2 = (Ok tt, w').
Proof.
  revert w. induction pre as [|[nm rel] pre IH]; intros w H.
  - by exists w.
  - rewrite <- app_comm_cons in H.
    apply copy_entries_cons_Ok in H as (src & w1 & Er & Ee & Ei & H).
    destruct (IH _ H) as (w2 & Hpre & Hrest). exists w2. split; [|done].
    by rewrite (copy_entries_step _ _ _ _ _ _ _ _ Er Ee Ei).
Qed.

Lemma resolve_abs p w :
  is_absolute p = true -> resolve p w = (Ok (MkPath true (normalize (parts p))), w).
Proof. intros Ha. unfold resolve. by rewrite Ha. Qed.

Lemma joinpath_absolute p q : is_absolute p = true -> is_absolute (joinpath p q) = true.
Proof. intros Ha. unfold joinpath. by destruct (is_absolute q) eqn:E. Qed.

Lemma stat_missing_abs p w w' :
  is_absolute p = true -> stat p w = (Raise FileNotFoundError, w') ->
  (dotdot ∉ parts p) /\ parts p <> [] /\ files w !! parts p = None.
Proof.
  intros Ha H. pose proof (stat_missing _ _ _ H (or_intror Ha)) as Hl.
  rewrite (key_of_abs _ _ Ha) in Hl.
  assert (parts p <> []) as Hne by (intros E; by rewrite E in Hl).
  rewrite lookup_node_ne in Hl by done. split; [|done].
  intros Hd. unfold stat, locate in H. rewrite bool_decide_eq_true_2 in H by done. done.
Qed.

Lemma exists_false p w k :
  locate p w = (Ok k, w) -> lookup_node (files w) k = None ->
  exists_ p w = (Ok false, w).
Proof.
  intros Hl Hk. unfold exists_, try_except, stat. unfold bind at 1. unfold bind at 1.
  rewrite Hl. unfold bind, get_world. simpl. by rewrite Hk.
Qed.

(** Reaching a missing source ends the run. *)
Lemma missing_source_exits pre nm rel post wsp out w w1 w2 src :
  wf w -> Forall (fun e => proper_name e.1) pre ->
  is_absolute wsp = true ->
  resolve (joinpath wsp rel) w = (Ok src, w) ->
  stat src w = (Raise FileNotFoundError, w) ->
  ~ key_of out w `prefix_of` parts src ->
  ~ parts src `prefix_of` key_of out w ->
  recreate out w = (Ok tt, w1) ->
  copy_entries pre wsp out w1 = (Ok tt, w2) ->
  prepare_build_context (pre ++ (nm, rel) :: post) wsp out w =
    (Raise (SystemExit (lit "Source file not found: " ++ path_str src)), w2) /\
  lookup_node (files w2) (key_of out w) = Some Dir /\
  forall x r, is_Some (files w2 !! (key_of out w ++ x :: r)) <-> r = [] /\ x ∈ pre.*1.
Proof.
  intros Hwf Hnames Habs Er Es Hout Hway Erec Hpre.
  set (ko := key_of out w) in *.
  pose proof (recreate_Ok _ _ _ Hwf Erec) as Hfr.
  pose proof (recreate_frame _ _ _ Erec) as Hframe.
  assert (key_of out w1 = ko) as Hk1 by (apply key_of_same, Hfr).
  assert (flat (key_of out w1) (files w1)) as Hflat.
  { rewrite Hk1. intros y r n Hn. by rewrite (fresh_empty _ _ _ Hfr) in Hn. }
  assert (Forall (fun e : str * Path => simple e.1) pre) as Hsimple.
  { eapply Forall_impl; [done|]. by intros e [? _]. }
  destruct (copy_entries_flat _ _ _ _ _ Hflat Hsimple Hpre) as (_ & _ & _ & _ & Hother & _).
  pose proof (copy_entries_listing _ _ _ _ _ Hflat Hsimple Hpre) as Hlist.
  rewrite Hk1 in Hother, Hlist.
  pose proof (joinpath_absolute wsp rel Habs) as Hja.
  rewrite (resolve_abs _ _ Hja) in Er. injection Er as Esrc.
  assert (is_absolute src = true) as Hsa by (by rewrite <- Esrc).
  destruct (stat_missing_abs _ _ _ Hsa Es) as (Hdd & Hne & Hno).
  assert (files w2 !! parts src = None) as Hno2.
  { rewrite Hother.
    - destruct (Hframe (parts src) Hout) as [-> | (_ & _ & Hp)]; done.
    - intros e _ E. apply Hout. rewrite E. by eexists. }
  split.
  - rewrite prepare_build_context_eq, (bind_Ok _ _ _ _ _ Erec).
    rewrite (copy_entries_app _ _ _ _ _ _ Hpre).
    assert (resolve (joinpath wsp rel) w2 = (Ok src, w2)) as Er2
      by (by rewrite (resolve_abs _ _ Hja), Esrc).
    rewrite (copy_entries_cons _ _ _ _ _ _ _ Er2).
    assert (exists_ src w2 = (Ok false, w2)) as Hex.
    { apply (exists_false _ _ (parts src)); [by apply locate_abs|].
      by rewrite lookup_node_ne. }
    by rewrite (bind_Ok _ _ _ _ _ Hex).
  - split.
    { pose proof (fresh_dir _ _ _ Hfr) as Hd. fold ko in Hd.
      destruct (decide (ko = [])) as [-> | Hkne]; [reflexivity|].
      rewrite lookup_node_ne in Hd |- * by done. rewrite Hother; [done|].
      intros e _ E. symmetry in E. by apply snoc_ne_self in E. }
    intros x r. rewrite Hlist. split.
    + intros [[n Hn] | ?]; [|done]. by rewrite (fresh_empty _ _ _ Hfr) in Hn.
    + by right.
Qed.

(** [main] up to the build context: what it does with the entries. *)
Lemma main_prepares E a w wsp jp raw entries :
  resolve (parse_path (arg_workspace a)) w = (Ok wsp, w) ->
  json_path_of a wsp w = (Ok jp, w) ->
  exists_ jp w = (Ok true, w) ->
  load_json E jp w = (Ok raw, w) ->
  normalize_entries raw w = (Ok entries, w) ->
  forall e w',
    prepare_build_context entries wsp (parse_path (arg_out a)) w = (Raise e, w') ->
    Pack.main E a w = (Raise e, w').
Proof.
  intros Hw Hj Hx Hl Hn e w' Hp. unfold main.
  rewrite (bind_Ok _ _ _ _ _ Hw), (bind_Ok _ _ _ _ _ Hj), (bind_Ok _ _ _ _ _ Hx).
  change (negb true) with false. cbv iota.
  rewrite (bind_Ok _ _ _ _ _ Hl), (bind_Ok _ _ _ _ _ Hn).
  unfold bind at 1. by rewrite Hp.
Qed.


(** * The packager at sample runs *)



